(** * Key/value run logging: storage providers, facade and analytics

    A shallow embedding of [r2r/core/logging/kv_logger.py]: the three
    storage providers (embedded SQLite, PostgreSQL, Redis), the
    [KVLoggingSingleton] facade and the [process_logs] analytics pass,
    followed by the properties established about them.

    Conventions.  Code that touches a store is a function from the
    store to an outcome (a value or a raised exception) and the store
    afterwards.  The clock a write reads is an explicit argument.  A
    call into a driver carries the shape the call site gives it (how
    many positional arguments, which placeholders), because the
    drivers reject a wrong shape before anything is executed.  The
    library parsers used by the analytics pass are parameters. *)

From stdpp Require Import gmap strings list sorting.
From Stdlib Require Import ZArith Ascii.

Open Scope string_scope.
Open Scope list_scope.

(** ** Exceptions and the effect monad *)

(** Instances of Python's [Exception], by class, with their message.
    Signals that derive from [BaseException] only (task cancellation,
    interpreter exit) are not exceptions in this sense and are not
    modelled; no function of the module raises them. *)
Inductive exn_class : Type :=
  | ValueError
  | TypeError
  | AttributeError
  | KeyError
  | DatabaseError
  | JSONDecodeError.

Record exn : Type := Exn { exn_kind : exn_class; exn_msg : string }.

Inductive outcome (A : Type) : Type :=
  | Ok (a : A)
  | Raise (e : exn).
Arguments Ok {A} a.
Arguments Raise {A} e.

(** Code that reads and writes a store of type [S] and may raise: the
    store comes back on both exits, so that what a failed call left
    behind can be inspected. *)
Definition M (S A : Type) : Type := S → outcome A * S.

Definition ret {S A} (a : A) : M S A := λ st, (Ok a, st).
Definition raise {S A} (e : exn) : M S A := λ st, (Raise e, st).
Definition bind {S A B} (c : M S A) (k : A → M S B) : M S B :=
  λ st, match c st with
        | (Ok a, st') => k a st'
        | (Raise e, st') => (Raise e, st')
        end.
Definition gets {S A} (f : S → A) : M S A := λ st, (Ok (f st), st).
Definition modify {S} (f : S → S) : M S unit := λ st, (Ok tt, f st).

(** [try: c except Exception as e: h e] *)
Definition try_except {S A} (c : M S A) (h : exn → M S A) : M S A :=
  λ st, match c st with
        | (Ok a, st') => (Ok a, st')
        | (Raise e, st') => h e st'
        end.

Declare Scope py_scope.
Delimit Scope py_scope with py.
Notation "x <- c ;; k" := (bind c (λ x, k))
  (at level 100, c at next level, right associativity) : py_scope.
Notation "c ;;; k" := (bind c (λ _, k))
  (at level 100, right associativity) : py_scope.
Open Scope py_scope.

Definition value_error {S A} (msg : string) : M S A := raise (Exn ValueError msg).
Definition type_error {S A} (msg : string) : M S A := raise (Exn TypeError msg).
Definition attribute_error {S A} (msg : string) : M S A :=
  raise (Exn AttributeError msg).

(** ** Shared data shapes *)

(** [uuid.UUID]: a 128-bit value.  [str] gives its canonical text and
    [uuid.UUID] reads it back, so the stores that keep the text are
    modelled as keeping the value. *)
Definition uuid : Type := N.

(** Instants of the write clock, in ticks; only their order matters.
    SQLite's [datetime('now')] ticks in seconds, the other two stores in
    microseconds. *)
Definition instant : Type := Z.

Record RunInfo : Type := mkRunInfo { run_id : uuid; log_type : string }.

(** [needle in hay] on Python strings. *)
Fixpoint str_contains (needle hay : string) : bool :=
  String.prefix needle hay
  || match hay with
     | EmptyString => false
     | String _ rest => str_contains needle rest
     end.

(** Truth value of an [Optional[str]] argument: [None] and the empty
    string are false. *)
Definition truthy_str (o : option string) : bool :=
  match o with
  | Some s => negb (String.eqb s EmptyString)
  | None => false
  end.

(** Truth value of an [Optional[float]] argument: [None] and zero are
    false. *)
Definition truthy_num (o : option Z) : bool :=
  match o with
  | Some z => negb (z =? 0)%Z
  | None => false
  end.

(** ** The relational query fragments both SQL providers use *)

(** A stable insertion sort: [before x y] says that [x] may stand before
    [y]; rows that may stand either way keep their input order. *)
Section StableSort.
Context {A : Type} (before : A → A → bool).

Fixpoint insert_sorted (x : A) (l : list A) : list A :=
  match l with
  | [] => [x]
  | y :: l' => if before x y then x :: y :: l' else y :: insert_sorted x l'
  end.

Fixpoint stable_sort (l : list A) : list A :=
  match l with
  | [] => []
  | x :: l' => insert_sorted x (stable_sort l')
  end.
End StableSort.

Module Sql.
(** [ORDER BY timestamp DESC].  The engines leave the order of rows with
    equal timestamps open; the model keeps them in storage order. *)
Definition order_by_desc {A} (ts : A → instant) (l : list A) : list A :=
  stable_sort (λ x y, (ts y <=? ts x)%Z) l.

(** Newest first: every row is at least as recent as the rows after it. *)
Definition newest_first {A} (ts : A → instant) (l : list A) : Prop :=
  StronglySorted (λ x y, (ts y <= ts x)%Z) l.

(** [ROW_NUMBER() OVER (PARTITION BY log_id ORDER BY timestamp DESC)]:
    the rows of each partition, newest first, numbered from 1. *)
Fixpoint number_from {A} (k : Z) (l : list A) : list (A * Z) :=
  match l with
  | [] => []
  | r :: l' => (r, k) :: number_from (k + 1) l'
  end.

Definition number_rows {A} (l : list A) : list (A * Z) := number_from 1 l.

Definition row_number_over {A} (part : A → uuid) (ts : A → instant)
    (rows : list A) : list (A * Z) :=
  flat_map
    (λ id, number_rows (order_by_desc ts (filter (λ r, part r = id) rows)))
    (remove_dups (map part rows)).
End Sql.

(** ** LocalKVLoggingProvider (SQLite through aiosqlite) *)

Record LogRow : Type := mkLogRow {
  lr_timestamp : instant;
  lr_log_id : uuid;
  lr_key : string;
  lr_value : string
}.

Record InfoRow : Type := mkInfoRow {
  ir_timestamp : instant;
  ir_log_id : uuid;
  ir_log_type : string
}.

Record ThroughputRow : Type := mkThroughputRow {
  tr_timestamp : instant;
  tr_num_requests : Z;
  tr_request_type : string
}.

(** The three tables, each in storage (insertion) order. *)
Record tables : Type := mkTables {
  log_table : list LogRow;
  log_info_table : list InfoRow;
  throughput_logs : list ThroughputRow
}.

Definition empty_tables : tables := mkTables [] [] [].

Definition add_log (r : LogRow) (t : tables) : tables :=
  mkTables (log_table t ++ [r]) (log_info_table t) (throughput_logs t).
Definition add_info (r : InfoRow) (t : tables) : tables :=
  mkTables (log_table t) (log_info_table t ++ [r]) (throughput_logs t).
Definition add_throughput (r : ThroughputRow) (t : tables) : tables :=
  mkTables (log_table t) (log_info_table t) (throughput_logs t ++ [r]).

(** A row of [get_logs]: the four columns of the log table and the
    [rn] column the window function adds. *)
Definition ranked_row : Type := LogRow * Z.

Module LocalKVLoggingProvider.

(** [Connection.execute(sql, parameters=None)] and
    [Cursor.execute(sql, parameters=None)]: at most one positional
    argument may follow the statement text.  [positional] is the
    number the call site passes. *)
Definition execute {A} (positional : nat) (stmt : M tables A) : M tables A :=
  if (positional <=? 1)%nat then stmt
  else type_error "execute() takes from 2 to 3 positional arguments".

(** [INSERT INTO logs_pipeline_info ...]: [log_id] is [UNIQUE]. *)
Definition insert_info (now : instant) (log_id : uuid) (value : string)
    : M tables unit :=
  λ t, if bool_decide (log_id ∈ map ir_log_id (log_info_table t))
       then (Raise (Exn DatabaseError "UNIQUE constraint failed: log_id"), t)
       else (Ok tt, add_info (mkInfoRow now log_id value) t).

Definition insert_log (now : instant) (log_id : uuid) (key value : string)
    : M tables unit :=
  modify (add_log (mkLogRow now log_id key value)).

Definition log (now : instant) (log_id : uuid) (key value : string)
    (is_info_log : bool) : M tables unit :=
  if is_info_log then
    if negb (str_contains "type" key)
    then value_error "Info log keys must contain the text 'type'"
    else execute 1 (insert_info now log_id value)
  else execute 1 (insert_log now log_id key value).

(** [LIMIT ?]: a negative bound means no bound in SQLite. *)
Definition limit_rows {A} (limit : Z) (rows : list A) : list A :=
  if (limit <? 0)%Z then rows else take (Z.to_nat limit) rows.

Definition get_run_info (limit : Z) (log_type_filter : option string)
    : M tables (list RunInfo) :=
  execute 1
    (rows <- gets log_info_table ;;
     let rows :=
       if truthy_str log_type_filter
       then filter (λ r, Some (ir_log_type r) = log_type_filter) rows
       else rows in
     let rows := limit_rows limit (Sql.order_by_desc ir_timestamp rows) in
     ret (map (λ r, mkRunInfo (ir_log_id r) (ir_log_type r)) rows)).

Definition get_logs_query (run_ids : list uuid) (limit_per_run : Z)
    (rows : list LogRow) : list ranked_row :=
  let sub :=
    Sql.row_number_over lr_log_id lr_timestamp
      (filter (λ r, lr_log_id r ∈ run_ids) rows) in
  Sql.order_by_desc (λ r : ranked_row, lr_timestamp (fst r))
    (filter (λ r : ranked_row, (snd r <= limit_per_run)%Z) sub).

Definition get_logs (run_ids : list uuid) (limit_per_run : Z)
    : M tables (list ranked_row) :=
  match run_ids with
  | [] => value_error "No run ids provided."
  | _ => execute 1 (rows <- gets log_table ;;
                    ret (get_logs_query run_ids limit_per_run rows))
  end.

(** The three values are passed as three positional arguments, not as
    one parameter sequence. *)
Definition log_throughput (timestamp : instant) (num_requests : Z)
    (request_type : string) : M tables unit :=
  execute 3
    (modify (add_throughput
               (mkThroughputRow timestamp num_requests request_type))).

Definition get_throughput_data (start_time end_time : option Z)
    : M tables (list ThroughputRow) :=
  execute 1
    (rows <- gets throughput_logs ;;
     ret (if truthy_num start_time && truthy_num end_time
          then filter (λ r, (default 0 start_time <= tr_timestamp r
                             ∧ tr_timestamp r <= default 0 end_time)%Z) rows
          else rows)).

End LocalKVLoggingProvider.

(** ** PostgresKVLoggingProvider (asyncpg) *)

Module PostgresKVLoggingProvider.

(** What [__init__] sets on the instance, and what the class defines. *)
Definition instance_attributes : list string :=
  ["log_table"; "log_info_table"; "log_throughput_table"; "config"; "conn"].
Definition class_attributes : list string :=
  ["init"; "close"; "log"; "get_run_info"; "get_logs"; "log_throughput";
   "get_throughput_data"].

(** [self.<name>] *)
Definition getattr_self (name : string) : M tables unit :=
  if bool_decide (name ∈ instance_attributes ++ class_attributes) then ret tt
  else attribute_error
         ("'PostgresKVLoggingProvider' object has no attribute '" ++ name ++ "'").

(** asyncpg prepares the statement and binds the arguments: the
    placeholders the text mentions must be exactly [$1 .. $n] for the
    [n] arguments passed.  [used] lists the placeholder numbers in the
    statement as the call site builds it. *)
Definition placeholders_match (used : list nat) (nargs : nat) : bool :=
  forallb (λ i, bool_decide (i ∈ used)) (seq 1 nargs)
  && forallb (λ i, (1 <=? i)%nat && (i <=? nargs)%nat) used.

Definition execute {A} (used : list nat) (nargs : nat) (stmt : M tables A)
    : M tables A :=
  if placeholders_match used nargs then stmt
  else raise (Exn DatabaseError "statement parameters do not match the arguments").

Definition insert_info (now : instant) (log_id : uuid) (value : string)
    : M tables unit :=
  λ t, if bool_decide (log_id ∈ map ir_log_id (log_info_table t))
       then (Raise (Exn DatabaseError "duplicate key value violates unique constraint"), t)
       else (Ok tt, add_info (mkInfoRow now log_id value) t).

Definition insert_log (now : instant) (log_id : uuid) (key value : string)
    : M tables unit :=
  modify (add_log (mkLogRow now log_id key value)).

Definition log (now : instant) (log_id : uuid) (key value : string)
    (is_info_log : bool) : M tables unit :=
  if is_info_log then
    if negb (str_contains "type" key)
    then value_error "Info log key must contain the string `type`."
    else execute [1; 2]%nat 2 (insert_info now log_id value)
  else execute [1; 2; 3]%nat 3 (insert_log now log_id key value).

(** [LIMIT $n]: PostgreSQL rejects a negative bound. *)
Definition limit_rows {A} (limit : Z) (rows : list A) : M tables (list A) :=
  if (limit <? 0)%Z then raise (Exn DatabaseError "LIMIT must not be negative")
  else ret (take (Z.to_nat limit) rows).

(** The condition, when present, is written with [$1]; the bound is
    written with [$2] in either case. *)
Definition get_run_info (limit : Z) (log_type_filter : option string)
    : M tables (list RunInfo) :=
  let conditions := if truthy_str log_type_filter then [1%nat] else [] in
  let params := length conditions + 1 in
  execute (conditions ++ [2%nat]) params
    (rows <- gets log_info_table ;;
     let rows :=
       if truthy_str log_type_filter
       then filter (λ r, Some (ir_log_type r) = log_type_filter) rows
       else rows in
     rows <- limit_rows limit (Sql.order_by_desc ir_timestamp rows) ;;
     ret (map (λ r, mkRunInfo (ir_log_id r) (ir_log_type r)) rows)).

Definition get_logs_query (run_ids : list uuid) (limit_per_run : Z)
    (rows : list LogRow) : list ranked_row :=
  let sub :=
    Sql.row_number_over lr_log_id lr_timestamp
      (filter (λ r, lr_log_id r ∈ run_ids) rows) in
  Sql.order_by_desc (λ r : ranked_row, lr_timestamp (fst r))
    (filter (λ r : ranked_row, (snd r <= limit_per_run)%Z) sub).

Definition get_logs (run_ids : list uuid) (limit_per_run : Z)
    : M tables (list ranked_row) :=
  match run_ids with
  | [] => value_error "No run ids provided."
  | _ =>
      execute (seq 1 (length run_ids) ++ [length run_ids + 1]) (length run_ids + 1)
        (rows <- gets log_table ;;
         ret (get_logs_query run_ids limit_per_run rows))
  end.

(** Both throughput methods reach the connection through
    [self.connection], which nothing sets. *)
Definition log_throughput (timestamp : instant) (num_requests : Z)
    (request_type : string) : M tables unit :=
  getattr_self "connection" ;;;
  execute [1; 2; 3]%nat 3
    (modify (add_throughput
               (mkThroughputRow timestamp num_requests request_type))).

Definition get_throughput_data (start_time end_time : option Z)
    : M tables (list ThroughputRow) :=
  getattr_self "connection" ;;;
  if truthy_num start_time && truthy_num end_time
  then execute [1; 2]%nat 2
         (rows <- gets throughput_logs ;;
          ret (filter (λ r, (default 0 start_time <= tr_timestamp r
                             ∧ tr_timestamp r <= default 0 end_time)%Z) rows))
  else execute [] 0 (gets throughput_logs).

End PostgresKVLoggingProvider.

(** ** RedisKVLoggingProvider *)

(** The dictionary [log] serialises for every entry; info entries carry
    [log_type] as well.  [json.loads] of what [json.dumps] wrote gives
    the dictionary back, so the store is modelled as holding it. *)
Record LogEntry : Type := mkLogEntry {
  le_timestamp : instant;
  le_log_id : uuid;
  le_key : string;
  le_value : string;
  le_log_type : option string
}.

(** The keys the provider uses: one list per run ([logs:<run id>]), the
    hash [logs_pipeline_info] from run id to entry, and the sorted set
    [logs_pipeline_info_sorted] of run ids scored by write time. *)
Record redis : Type := mkRedis {
  run_lists : gmap uuid (list LogEntry);
  info_hash : gmap uuid LogEntry;
  info_sorted : list (uuid * instant)
}.

Definition empty_redis : redis := mkRedis ∅ ∅ [].

(** Index normalisation of [LRANGE] and [ZREVRANGE]: negative indices
    count from the end, the range is inclusive and clipped. *)
Definition redis_range {A} (l : list A) (start stop : Z) : list A :=
  let len := Z.of_nat (length l) in
  let start := if (start <? 0)%Z then Z.max 0 (len + start) else start in
  let stop := if (stop <? 0)%Z then (len + stop)%Z else stop in
  let stop := Z.min stop (len - 1) in
  if (stop <? start)%Z || (len <=? start)%Z then []
  else take (Z.to_nat (stop - start + 1)) (drop (Z.to_nat start) l).

Module RedisKVLoggingProvider.

Definition lpush (log_id : uuid) (e : LogEntry) : M redis unit :=
  modify (λ st, mkRedis (<[log_id := e :: default [] (run_lists st !! log_id)]>
                           (run_lists st))
                        (info_hash st) (info_sorted st)).

Definition hset (log_id : uuid) (e : LogEntry) : M redis unit :=
  modify (λ st, mkRedis (run_lists st) (<[log_id := e]> (info_hash st))
                        (info_sorted st)).

(** [ZADD]: a member already present gets the new score. *)
Definition zadd (log_id : uuid) (score : instant) : M redis unit :=
  modify (λ st, mkRedis (run_lists st) (info_hash st)
                        (filter (λ m, fst m ≠ log_id) (info_sorted st)
                         ++ [(log_id, score)])).

(** Highest score first; members with equal scores in descending
    order of their text, which for canonical UUID text is the order of
    the values. *)
Definition zrev_before (x y : uuid * instant) : bool :=
  (snd y <? snd x)%Z || ((snd y =? snd x)%Z && (fst y <=? fst x)%N).

Definition zrevrange (st : redis) (start stop : Z) : list uuid :=
  map fst (redis_range (stable_sort zrev_before (info_sorted st)) start stop).

Definition lrange (st : redis) (log_id : uuid) (start stop : Z)
    : list LogEntry :=
  redis_range (default [] (run_lists st !! log_id)) start stop.

Definition log (now : instant) (log_id : uuid) (key value : string)
    (is_info_log : bool) : M redis unit :=
  let log_entry := mkLogEntry now log_id key value None in
  if is_info_log then
    if negb (str_contains "type" key)
    then value_error "Metadata keys must contain the text 'type'"
    else
      let log_entry := mkLogEntry now log_id key value (Some value) in
      hset log_id log_entry ;;;
      zadd log_id now
  else lpush log_id log_entry.

Definition count_per_batch : Z := 100.

(** [json.loads(await self.redis.hget(...))] followed by the two
    subscripts: a missing hash field gives [None], which [json.loads]
    rejects; an entry without [log_type] fails the subscript. *)
Definition load_info (st : redis) (log_id : uuid) : outcome RunInfo :=
  match info_hash st !! log_id with
  | None => Raise (Exn TypeError "the JSON object must be str, bytes or bytearray, not NoneType")
  | Some e =>
      match le_log_type e with
      | None => Raise (Exn KeyError "log_type")
      | Some t => Ok (mkRunInfo (le_log_id e) t)
      end
  end.

(** The [for log_id in log_ids] loop, with its [break] once the list
    has reached the limit. *)
Fixpoint scan_batch (st : redis) (limit : Z) (log_type_filter : option string)
    (log_ids : list uuid) (run_info_list : list RunInfo)
    : outcome (list RunInfo) :=
  match log_ids with
  | [] => Ok run_info_list
  | log_id :: rest =>
      match load_info st log_id with
      | Raise e => Raise e
      | Ok info =>
          let run_info_list :=
            if truthy_str log_type_filter then
              if bool_decide (Some (log_type info) = log_type_filter)
              then run_info_list ++ [info]
              else run_info_list
            else run_info_list ++ [info] in
          if (limit <=? Z.of_nat (length run_info_list))%Z
          then Ok run_info_list
          else scan_batch st limit log_type_filter rest run_info_list
      end
  end.

(** [run_info_list[:limit]] *)
Definition slice_to {A} (limit : Z) (l : list A) : list A :=
  if (limit <? 0)%Z
  then take (length l - Z.to_nat (- limit)) l
  else take (Z.to_nat limit) l.

(** The [while] loop; [None] when the fuel runs out before the loop
    ends. *)
Fixpoint get_run_info_loop (fuel : nat) (st : redis) (limit : Z)
    (log_type_filter : option string) (start : Z)
    (run_info_list : list RunInfo) : option (outcome (list RunInfo)) :=
  match fuel with
  | O => None
  | S fuel' =>
      if (Z.of_nat (length run_info_list) <? limit)%Z then
        let log_ids := zrevrange st start (start + count_per_batch - 1) in
        match log_ids with
        | [] => Some (Ok (slice_to limit run_info_list))
        | _ =>
            let start := (start + count_per_batch)%Z in
            match scan_batch st limit log_type_filter log_ids run_info_list with
            | Raise e => Some (Raise e)
            | Ok run_info_list =>
                get_run_info_loop fuel' st limit log_type_filter start
                  run_info_list
            end
        end
      else Some (Ok (slice_to limit run_info_list))
  end.

Definition get_run_info_fuel (fuel : nat) (st : redis) (limit : Z)
    (log_type_filter : option string) : option (outcome (list RunInfo)) :=
  get_run_info_loop fuel st limit log_type_filter 0 [].

(** The passes still to come when a pass begins at [start]: one per
    batch of 100 members from [start] on, and the pass that finds the
    empty batch. *)
Definition passes_left (st : redis) (start : Z) : nat :=
  S (Z.to_nat ((Z.of_nat (length (info_sorted st)) - start + 99) / 100)).

(** Fuel for any run of the loop: every pass but the last moves
    [start] over a batch that was not empty. *)
Definition enough_fuel (st : redis) : nat :=
  S (S (length (info_sorted st) / 100)).

(** [get_run_info]; with [enough_fuel] the loop always ends, so the
    [None] case does not occur. *)
Definition get_run_info (limit : Z) (log_type_filter : option string)
    : M redis (list RunInfo) :=
  λ st, match get_run_info_fuel (enough_fuel st) st limit log_type_filter with
        | Some r => (r, st)
        | None => (Ok [], st)
        end.

(** No check of [run_ids] here: the loop runs over whatever is given. *)
Definition get_logs (run_ids : list uuid) (limit_per_run : Z)
    : M redis (list LogEntry) :=
  st <- gets id ;;
  ret (flat_map (λ run_id, lrange st run_id 0 (limit_per_run - 1)) run_ids).

End RedisKVLoggingProvider.

(** ** Python values that cross the facade *)

(** A float, written as the decimal [mantissa * 10 ^ exponent] it was
    read from; the analytics pass only stores and returns such values. *)
Record pyfloat : Type := mkFloat { mantissa : Z; exponent : Z }.

#[warnings="-register-all"]
Inductive pyvalue : Type :=
  | PNone
  | PBool (b : bool)
  | PInt (z : Z)
  | PFloat (f : pyfloat)
  | PStr (s : string)
  | PUuid (u : uuid)
  | PDatetime (t : instant)
  | PList (l : list pyvalue)
  | PDict (d : list (string * pyvalue)).

(** A [dict] with string keys, in insertion order. *)
Definition pydict : Type := list (string * pyvalue).

Fixpoint assoc_get {V} (k : string) (d : list (string * V)) : option V :=
  match d with
  | [] => None
  | (k', v) :: d' => if String.eqb k k' then Some v else assoc_get k d'
  end.

(** [d[k] = v]: an existing key keeps its place. *)
Fixpoint assoc_set {K V} `{EqDecision K} (k : K) (v : V) (d : list (K * V))
    : list (K * V) :=
  match d with
  | [] => [(k, v)]
  | (k', v') :: d' =>
      if decide (k = k') then (k, v) :: d' else (k', v') :: assoc_set k v d'
  end.

Fixpoint assoc_find {K V} `{EqDecision K} (k : K) (d : list (K * V)) : option V :=
  match d with
  | [] => None
  | (k', v) :: d' => if decide (k = k') then Some v else assoc_find k d'
  end.

(** [v[k]] for a string [k]. *)
Definition subscript {S} (v : pyvalue) (k : string) : M S pyvalue :=
  match v with
  | PDict d =>
      match assoc_get k d with
      | Some x => ret x
      | None => raise (Exn KeyError k)
      end
  | PStr _ => type_error "string indices must be integers"
  | PList _ => type_error "list indices must be integers or slices, not str"
  | _ => type_error "object is not subscriptable"
  end.

(** [v == s] for a string literal [s]. *)
Definition eq_str (v : pyvalue) (s : string) : bool :=
  match v with
  | PStr s' => String.eqb s' s
  | _ => false
  end.

(** The items a [for] loop over [v] visits: the elements of a list, the
    one-character strings of a string, the keys of a dictionary. *)
Definition py_iter {S} (v : pyvalue) : M S (list pyvalue) :=
  match v with
  | PList l => ret l
  | PStr s => ret (map (λ c, PStr (String c EmptyString)) (String.list_ascii_of_string s))
  | PDict d => ret (map (λ kv, PStr (fst kv)) d)
  | _ => type_error "object is not iterable"
  end.

(** ** The pattern [\b\d{3}\b]

    On ASCII text: [\d] is a decimal digit, [\w] a letter, a digit or
    the underscore, and [\b] stands between a [\w] character and a
    character that is not one (or an end of the text). *)
Definition is_digit (c : ascii) : bool :=
  let n := nat_of_ascii c in (48 <=? n)%nat && (n <=? 57)%nat.

Definition is_word (c : ascii) : bool :=
  let n := nat_of_ascii c in
  is_digit c
  || ((65 <=? n)%nat && (n <=? 90)%nat)
  || ((97 <=? n)%nat && (n <=? 122)%nat)
  || (n =? 95)%nat.

(** Three digits at the head of [s], followed by a [\b]. *)
Definition three_digits_here (s : string) : option string :=
  match s with
  | String a (String b (String c rest)) =>
      if is_digit a && is_digit b && is_digit c
         && match rest with
            | EmptyString => true
            | String d _ => negb (is_word d)
            end
      then Some (String a (String b (String c EmptyString)))
      else None
  | _ => None
  end.

(** [re.findall]: leftmost matches, scanning on after each one.
    [prev_word] says whether the character before [s] is a [\w];
    [skip] counts the characters of a match still to be passed. *)
Fixpoint findall_from (skip : nat) (prev_word : bool) (s : string) : list string :=
  match s with
  | EmptyString => []
  | String c rest =>
      match skip with
      | S k => findall_from k (is_word c) rest
      | O =>
          match (if prev_word then None else three_digits_here s) with
          | Some m => m :: findall_from 2 (is_word c) rest
          | None => findall_from 0 (is_word c) rest
          end
      end
  end.

Definition findall_3digit (s : string) : list string := findall_from 0 false s.

(** [re.findall(r'\b\d{3}\b', v)] *)
Definition re_findall {S} (v : pyvalue) : M S (list string) :=
  match v with
  | PStr s => ret (findall_3digit s)
  | _ => type_error "expected string or bytes-like object"
  end.

(** ** Calendar dates *)

Record date : Type := mkDate { year : Z; month : Z; day : Z }.

Global Instance date_eq_dec : EqDecision date.
Proof. solve_decision. Defined.

Definition digit_char (d : Z) : ascii := ascii_of_nat (48 + Z.to_nat (d mod 10)).

(** [n] in decimal on [width] digits, zero-padded (for [0 <= n]). *)
Fixpoint zero_padded (width : nat) (n : Z) : string :=
  match width with
  | O => EmptyString
  | S w => zero_padded w (n / 10) ++ String (digit_char n) EmptyString
  end.

(** [str(d)] for a [date]: ISO [YYYY-MM-DD]. *)
Definition str_of_date (d : date) : string :=
  zero_padded 4 (year d) ++ "-" ++ zero_padded 2 (month d) ++ "-"
  ++ zero_padded 2 (day d).

(** ** The analytics pass: [process_logs] of [KVLoggingSingleton] *)

Record dataset : Type := mkDataset { ds_label : string; ds_data : list Z }.
Record pie_slice : Type := mkSlice { error_type : string; count : Z }.

(** The dictionary [process_logs] returns. *)
Record aggregate : Type := mkAggregate {
  labels : list string;
  datasets : list dataset;
  pieChartData : list pie_slice;
  agg_retrieval_scores : list pyvalue;
  agg_query_timestamps : list pyvalue;
  agg_vector_search_latencies : list pyfloat;
  agg_rag_generation_latencies : list pyfloat;
  agg_throughput_data : list pyvalue
}.

(** The accumulators of the pass, which the loop updates in place, and
    the lines written to the module logger. *)
Record analytics_state : Type := mkAnalytics {
  error_counts : list (string * Z);
  error_timestamps : list (date * list (string * Z));
  retrieval_scores : list pyvalue;
  query_timestamps : list pyvalue;
  vector_search_latencies : list pyfloat;
  rag_generation_latencies : list pyfloat;
  throughput_data : list pyvalue;
  logged : list string
}.

Definition initial_analytics (sink : list string) : analytics_state :=
  mkAnalytics [] [] [] [] [] [] [] sink.

(** [for x in xs: body x] *)
Fixpoint for_each {S A} (xs : list A) (body : A → M S unit) : M S unit :=
  match xs with
  | [] => ret tt
  | x :: xs' => body x ;;; for_each xs' body
  end.

(** [d[k] += 1] on a [defaultdict(int)] *)
Definition increment {K} `{EqDecision K} (k : K) (d : list (K * Z)) : list (K * Z) :=
  assoc_set k (default 0%Z (assoc_find k d) + 1)%Z d.

Definition count_error (error_type : string) (timestamp : date)
    (s : analytics_state) : analytics_state :=
  mkAnalytics
    (increment error_type (error_counts s))
    (assoc_set timestamp
       (increment error_type (default [] (assoc_find timestamp (error_timestamps s))))
       (error_timestamps s))
    (retrieval_scores s) (query_timestamps s) (vector_search_latencies s)
    (rag_generation_latencies s) (throughput_data s) (logged s).

Definition append_score (score : pyvalue) (s : analytics_state) : analytics_state :=
  mkAnalytics (error_counts s) (error_timestamps s)
    (retrieval_scores s ++ [score]) (query_timestamps s)
    (vector_search_latencies s) (rag_generation_latencies s)
    (throughput_data s) (logged s).

Definition append_query_timestamp (t : pyvalue) (s : analytics_state)
    : analytics_state :=
  mkAnalytics (error_counts s) (error_timestamps s) (retrieval_scores s)
    (query_timestamps s ++ [t]) (vector_search_latencies s)
    (rag_generation_latencies s) (throughput_data s) (logged s).

Definition append_vector_latency (f : pyfloat) (s : analytics_state)
    : analytics_state :=
  mkAnalytics (error_counts s) (error_timestamps s) (retrieval_scores s)
    (query_timestamps s) (vector_search_latencies s ++ [f])
    (rag_generation_latencies s) (throughput_data s) (logged s).

Definition append_rag_latency (f : pyfloat) (s : analytics_state)
    : analytics_state :=
  mkAnalytics (error_counts s) (error_timestamps s) (retrieval_scores s)
    (query_timestamps s) (vector_search_latencies s)
    (rag_generation_latencies s ++ [f]) (throughput_data s) (logged s).

Definition append_throughput (d : pyvalue) (s : analytics_state)
    : analytics_state :=
  mkAnalytics (error_counts s) (error_timestamps s) (retrieval_scores s)
    (query_timestamps s) (vector_search_latencies s)
    (rag_generation_latencies s) (throughput_data s ++ [d]) (logged s).

(** [logger.error(msg)] *)
Definition logger_error (msg : string) : M analytics_state unit :=
  modify (λ s, mkAnalytics (error_counts s) (error_timestamps s)
                 (retrieval_scores s) (query_timestamps s)
                 (vector_search_latencies s) (rag_generation_latencies s)
                 (throughput_data s) (logged s ++ [msg])).

Definition lift_outcome {S A} (o : outcome A) : M S A := λ st, (o, st).

Section ProcessLogs.
(** The library parsers the pass calls: [json.loads], [float] and
    [int] on a string, and [datetime.strptime] with the format
    ["%Y-%m-%d %H:%M:%S"] followed by [.date()]. *)
Context (json_loads : string → outcome pyvalue)
        (float_of_str : string → outcome pyfloat)
        (int_of_str : string → outcome Z)
        (strptime_date : string → outcome date).

Definition loads {S} (v : pyvalue) : M S pyvalue :=
  match v with
  | PStr s => lift_outcome (json_loads s)
  | _ => type_error "the JSON object must be str, bytes or bytearray"
  end.

(** [float(v)] *)
Definition py_float {S} (v : pyvalue) : M S pyfloat :=
  match v with
  | PStr s => lift_outcome (float_of_str s)
  | PFloat f => ret f
  | PInt z => ret (mkFloat z 0)
  | PBool b => ret (mkFloat (if b then 1 else 0) 0)
  | _ => type_error "float() argument must be a string or a real number"
  end.

(** [int(v)]; a float is truncated towards zero. *)
Definition py_int {S} (v : pyvalue) : M S Z :=
  match v with
  | PStr s => lift_outcome (int_of_str s)
  | PInt z => ret z
  | PBool b => ret (if b then 1 else 0)%Z
  | PFloat f =>
      ret (if (0 <=? exponent f)%Z then (mantissa f * 10 ^ exponent f)%Z
           else Z.quot (mantissa f) (10 ^ (- exponent f)))
  | _ => type_error "int() argument must be a string, a bytes-like object or a real number"
  end.

(** [datetime.strptime(v, timestamp_format).date()] *)
Definition strptime {S} (v : pyvalue) : M S date :=
  match v with
  | PStr s => lift_outcome (strptime_date s)
  | _ => type_error "strptime() argument 1 must be str"
  end.

(** The [key == "error"] block; [true] stands for its [continue]. *)
Definition error_block (log : pyvalue) : M analytics_state bool :=
  error_message <- subscript log "value" ;;
  error_codes <- re_findall error_message ;;
  match last error_codes with
  | None => ret true
  | Some error_type =>
      raw <- subscript log "timestamp" ;;
      timestamp <- strptime raw ;;
      modify (count_error error_type timestamp) ;;;
      ret false
  end.

(** The [key == "search_results"] block: one [try] around the whole
    loop over the entries. *)
Definition search_results_block (log : pyvalue) : M analytics_state unit :=
  results <- subscript log "value" ;;
  try_except
    (results_list <- loads results ;;
     items <- py_iter results_list ;;
     for_each items
       (λ result_str,
          result <- loads result_str ;;
          score <- subscript result "score" ;;
          modify (append_score score)))
    (λ e, logger_error ("Error parsing search results: " ++ exn_msg e)).
(* The logged line also quotes [results]; only its presence matters here. *)

Definition throughput_block (log : pyvalue) : M analytics_state unit :=
  timestamp <- subscript log "timestamp" ;;
  value <- subscript log "value" ;;
  raw <- subscript value "num_requests" ;;
  num_requests <- py_int raw ;;
  value <- subscript log "value" ;;
  request_type <- subscript value "request_type" ;;
  modify (append_throughput
            (PDict [("timestamp", timestamp); ("num_requests", PInt num_requests);
                    ("request_type", request_type)])).

(** The [if]/[elif] chain on the key. *)
Definition dispatch (key : pyvalue) (log : pyvalue) : M analytics_state unit :=
  if eq_str key "search_results" then search_results_block log
  else if eq_str key "search_query" then
    timestamp <- subscript log "timestamp" ;;
    modify (append_query_timestamp timestamp)
  else if eq_str key "vector_search_latency" then
    value <- subscript log "value" ;;
    f <- py_float value ;;
    modify (append_vector_latency f)
  else if eq_str key "rag_generation_latency" then
    value <- subscript log "value" ;;
    f <- py_float value ;;
    modify (append_rag_latency f)
  else if eq_str key "throughput" then throughput_block log
  else ret tt.

(** The body of [for log in logs]. *)
Definition process_log (log : pyvalue) : M analytics_state unit :=
  key <- subscript log "key" ;;
  skip <- (if eq_str key "error" then error_block log else ret false) ;;
  if skip : bool then ret tt else dispatch key log.

(** The returned dictionary.  The day-sorted [stacked_bar_data] list
    the function also builds is not part of it. *)
Definition build_aggregate (s : analytics_state) : aggregate :=
  mkAggregate
    (map (λ entry, str_of_date (fst entry)) (error_timestamps s))
    (map (λ entry,
            mkDataset ("Error Code " ++ fst entry)
              (map (λ day, default 0%Z (assoc_find (fst entry) (snd day)))
                   (error_timestamps s)))
         (error_counts s))
    (map (λ entry, mkSlice (fst entry) (snd entry)) (error_counts s))
    (retrieval_scores s) (query_timestamps s) (vector_search_latencies s)
    (rag_generation_latencies s) (throughput_data s).

(** What one entry of a [search_results] array yields: its [score], or
    the exception that decoding it or reading the field raises. *)
Definition entry_score (item : pyvalue) : outcome pyvalue :=
  fst ((result <- loads item ;; subscript result "score") tt).

(** The scores of the entries up to the first one that fails, and that
    failure if there is one. *)
Fixpoint leading_scores (items : list pyvalue) : list pyvalue * option exn :=
  match items with
  | [] => ([], None)
  | item :: rest =>
      match entry_score item with
      | Ok score =>
          let '(scores, failure) := leading_scores rest in
          (score :: scores, failure)
      | Raise e => ([], Some e)
      end
  end.

(** [process_logs(logs)], over the lines already written to the logger. *)
Definition process_logs (logs : list pyvalue) : M (list string) aggregate :=
  λ sink,
    match for_each logs process_log (initial_analytics sink) with
    | (Ok _, s) => (Ok (build_aggregate s), logged s)
    | (Raise e, s) => (Raise e, logged s)
    end.
End ProcessLogs.

(** ** The facade: [KVLoggingSingleton] *)

(** What the facade needs of a provider instance: the two hooks of
    [async with] and the five operations.  Each acts on the world [W]
    the provider lives in (its backing store included). *)
Record provider (W : Type) : Type := mkProvider {
  p_aenter : M W unit;
  p_aexit : M W unit;
  p_log : uuid → string → string → bool → M W unit;
  p_get_run_info : Z → option string → M W (list RunInfo);
  p_get_logs : list uuid → Z → M W (list pyvalue);
  p_log_throughput : instant → Z → string → M W unit;
  p_get_throughput_data : option Z → option Z → M W (list pyvalue)
}.
Arguments p_aenter {W} _.
Arguments p_aexit {W} _.
Arguments p_log {W} _.
Arguments p_get_run_info {W} _.
Arguments p_get_logs {W} _.
Arguments p_log_throughput {W} _.
Arguments p_get_throughput_data {W} _.

(** What [get_analytics] returns: the fixed dictionary of the no-run
    case, or the processed aggregate. *)
Inductive analytics : Type :=
  | NoRuns
  | Processed (a : aggregate).

(** Binding the keyword arguments of a call: a keyword that names no
    parameter is a [TypeError]. *)
Definition bind_keywords {S} (fname : string) (params keywords : list string)
    : M S unit :=
  match filter (λ k, k ∉ params) keywords with
  | [] => ret tt
  | k :: _ =>
      type_error (fname ++ "() got an unexpected keyword argument '" ++ k ++ "'")
  end.

Module KVLoggingSingleton.
Section Facade.
Context {W : Type}.
(** [cls.get_instance()], and the module logger as a list of lines
    kept in the world. *)
Context (get_instance : M W (provider W))
        (sink : W → list string)
        (with_sink : list string → W → W).
Context (json_loads : string → outcome pyvalue)
        (float_of_str : string → outcome pyfloat)
        (int_of_str : string → outcome Z)
        (strptime_date : string → outcome date).

Definition logger_error (msg : string) : M W unit :=
  modify (λ w, with_sink (sink w ++ [msg]) w).

(** [w'] is [w] with one more line on the logger: [prefix] followed
    by the message of [e]. *)
Definition sink_written (prefix : string) (e : exn) (w w' : W) : Prop :=
  w' = with_sink (sink w ++ [(prefix ++ exn_msg e)%string]) w.

(** [async with cls.get_instance() as provider: body provider]:
    [__aexit__] runs on both exits of the body and does not suppress
    the body's exception; one it raises itself takes its place. *)
Definition async_with {A} (body : provider W → M W A) : M W A :=
  prov <- get_instance ;;
  p_aenter prov ;;;
  λ w, match body prov w with
       | (r, w') =>
           match p_aexit prov w' with
           | (Ok _, w'') => (r, w'')
           | (Raise e, w'') => (Raise e, w'')
           end
       end.

(** How an exception [e] of the body leaves the scope: as [e] once
    [__aexit__] has returned, or replaced by what [__aexit__] raises. *)
Definition after_release {A} (prov : provider W) (e : exn) (w : W)
    : outcome A * W :=
  match p_aexit prov w with
  | (Ok _, w') => (Raise e, w')
  | (Raise e', w') => (Raise e', w')
  end.

Definition log (log_id : uuid) (key value : string) (is_info_log : bool)
    : M W unit :=
  try_except
    (async_with (λ prov, p_log prov log_id key value is_info_log))
    (λ e, logger_error ("Error logging data: " ++ exn_msg e)).

Definition get_run_info (limit : Z) (log_type_filter : option string)
    : M W (list RunInfo) :=
  async_with (λ prov, p_get_run_info prov limit log_type_filter).

Definition get_logs (run_ids : list uuid) (limit_per_run : Z)
    : M W (list pyvalue) :=
  async_with (λ prov, p_get_logs prov run_ids limit_per_run).

Definition log_throughput (timestamp : instant) (num_requests : Z)
    (request_type : string) : M W unit :=
  try_except
    (async_with
       (λ prov, p_log_throughput prov timestamp num_requests request_type))
    (λ e, logger_error ("Error logging throughput data: " ++ exn_msg e)).

Definition get_throughput_data (start_time end_time : option Z)
    : M W (list pyvalue) :=
  async_with (λ prov, p_get_throughput_data prov start_time end_time).

(** The parameters [get_run_info] declares, and a call of it that
    passes keyword arguments only. *)
Definition get_run_info_params : list string := ["limit"; "log_type_filter"].

Definition call_get_run_info (keywords : list (string * option string))
    : M W (list RunInfo) :=
  bind_keywords "get_run_info" get_run_info_params (map fst keywords) ;;;
  get_run_info 10 (mjoin (assoc_get "log_type_filter" keywords)).

(** [process_logs] writes to the same logger. *)
Definition run_process_logs (logs : list pyvalue) : M W aggregate :=
  λ w, match process_logs json_loads float_of_str int_of_str strptime_date
               logs (sink w) with
       | (r, lines) => (r, with_sink lines w)
       end.

Definition set_throughput (t : list pyvalue) (a : aggregate) : aggregate :=
  mkAggregate (labels a) (datasets a) (pieChartData a)
    (agg_retrieval_scores a) (agg_query_timestamps a)
    (agg_vector_search_latencies a) (agg_rag_generation_latencies a) t.

(** The run information is asked for with the keyword
    [pipeline_type]. *)
Definition get_analytics (pipeline_type : option string) : M W analytics :=
  run_info <- call_get_run_info [("pipeline_type", pipeline_type)] ;;
  let run_ids := map run_id run_info in
  match run_ids with
  | [] => ret NoRuns
  | _ =>
      logs <- get_logs run_ids 100 ;;
      throughput <- get_throughput_data None None ;;
      processed_logs <- run_process_logs logs ;;
      ret (Processed (set_throughput throughput processed_logs))
  end.
End Facade.
End KVLoggingSingleton.

(** ** The three providers behind the facade *)

(** SQLite's [datetime(t, 'unixepoch')] text for [t] seconds since the
    epoch: [YYYY-MM-DD HH:MM:SS] in UTC (proleptic Gregorian calendar). *)
Definition civil_from_days (days : Z) : date :=
  let z := (days + 719468)%Z in
  let era := (z / 146097)%Z in
  let doe := (z - era * 146097)%Z in
  let yoe := ((doe - doe / 1460 + doe / 36524 - doe / 146096) / 365)%Z in
  let doy := (doe - (365 * yoe + yoe / 4 - yoe / 100))%Z in
  let mp := ((5 * doy + 2) / 153)%Z in
  let d := (doy - (153 * mp + 2) / 5 + 1)%Z in
  let m := (if (mp <? 10)%Z then mp + 3 else mp - 9)%Z in
  let y := (yoe + era * 400 + (if (m <=? 2)%Z then 1 else 0))%Z in
  mkDate y m d.

Definition sqlite_datetime (t : instant) : string :=
  let secs := (t mod 86400)%Z in
  str_of_date (civil_from_days (t / 86400)) ++ " "
  ++ zero_padded 2 (secs / 3600) ++ ":" ++ zero_padded 2 (secs / 60 mod 60)
  ++ ":" ++ zero_padded 2 (secs mod 60).

Record LoggingConfig : Type := mkConfig {
  provider_name : string;
  logging_path : option string
}.

(** The process as the facade sees it: the configuration held by the
    class ([None] before [configure]), the environment, the write
    clock, the three backing stores and the logger's lines. *)
Record world : Type := mkWorld {
  config : option LoggingConfig;
  environ : list (string * string);
  clock : instant;
  sqlite_db : tables;
  postgres_db : tables;
  redis_db : redis;
  log_lines : list string
}.

Definition with_log_lines (lines : list string) (w : world) : world :=
  mkWorld (config w) (environ w) (clock w) (sqlite_db w) (postgres_db w)
    (redis_db w) lines.

Definition on_sqlite {A} (c : M tables A) : M world A :=
  λ w, match c (sqlite_db w) with
       | (r, t) => (r, mkWorld (config w) (environ w) (clock w) t
                         (postgres_db w) (redis_db w) (log_lines w))
       end.

Definition on_postgres {A} (c : M tables A) : M world A :=
  λ w, match c (postgres_db w) with
       | (r, t) => (r, mkWorld (config w) (environ w) (clock w) (sqlite_db w)
                         t (redis_db w) (log_lines w))
       end.

Definition on_redis {A} (c : M redis A) : M world A :=
  λ w, match c (redis_db w) with
       | (r, t) => (r, mkWorld (config w) (environ w) (clock w) (sqlite_db w)
                         (postgres_db w) t (log_lines w))
       end.

(** [os.getenv(name)] as a truth value: set and not empty. *)
Definition env_set (w : world) (name : string) : bool :=
  truthy_str (assoc_get name (environ w)).

Definition fmap_M {S A B} (f : A → B) (c : M S A) : M S B :=
  x <- c ;; ret (f x).

Definition throughput_dict (timestamp : pyvalue) (r : ThroughputRow) : pyvalue :=
  PDict [("timestamp", timestamp); ("num_requests", PInt (tr_num_requests r));
         ("request_type", PStr (tr_request_type r))].

Definition ranked_row_dict (timestamp : pyvalue) (r : ranked_row) : pyvalue :=
  PDict [("timestamp", timestamp); ("log_id", PUuid (lr_log_id (fst r)));
         ("key", PStr (lr_key (fst r))); ("value", PStr (lr_value (fst r)));
         ("rn", PInt (snd r))].

(** The dictionary [json.loads] gives back for an ordinary entry; the
    timestamp is the float of seconds [datetime.now().timestamp()]
    produced, here microsecond ticks scaled by [10 ^ -6]. *)
Definition entry_dict (e : LogEntry) : pyvalue :=
  PDict ([("timestamp", PFloat (mkFloat (le_timestamp e) (-6)));
          ("log_id", PUuid (le_log_id e)); ("key", PStr (le_key e));
          ("value", PStr (le_value e))]
         ++ match le_log_type e with
            | Some t => [("log_type", PStr t)]
            | None => []
            end).

(** Entering a SQL provider connects and runs its three
    [CREATE TABLE IF NOT EXISTS]; leaving it closes the connection.
    Neither changes the rows of a table. *)
Definition local_provider : provider world :=
  mkProvider world
    (ret tt) (ret tt)
    (λ log_id key value is_info_log,
       now <- gets clock ;;
       on_sqlite (LocalKVLoggingProvider.log now log_id key value is_info_log))
    (λ limit log_type_filter,
       on_sqlite (LocalKVLoggingProvider.get_run_info limit log_type_filter))
    (λ run_ids limit_per_run,
       on_sqlite
         (fmap_M (map (λ r : ranked_row,
                         ranked_row_dict
                           (PStr (sqlite_datetime (lr_timestamp (fst r)))) r))
            (LocalKVLoggingProvider.get_logs run_ids limit_per_run)))
    (λ timestamp num_requests request_type,
       on_sqlite
         (LocalKVLoggingProvider.log_throughput timestamp num_requests request_type))
    (λ start_time end_time,
       on_sqlite
         (fmap_M (map (λ r, throughput_dict
                              (PStr (sqlite_datetime (tr_timestamp r))) r))
            (LocalKVLoggingProvider.get_throughput_data start_time end_time))).

Definition postgres_provider : provider world :=
  mkProvider world
    (ret tt) (ret tt)
    (λ log_id key value is_info_log,
       now <- gets clock ;;
       on_postgres (PostgresKVLoggingProvider.log now log_id key value is_info_log))
    (λ limit log_type_filter,
       on_postgres (PostgresKVLoggingProvider.get_run_info limit log_type_filter))
    (λ run_ids limit_per_run,
       on_postgres
         (fmap_M (map (λ r : ranked_row,
                         ranked_row_dict (PDatetime (lr_timestamp (fst r))) r))
            (PostgresKVLoggingProvider.get_logs run_ids limit_per_run)))
    (λ timestamp num_requests request_type,
       on_postgres
         (PostgresKVLoggingProvider.log_throughput timestamp num_requests
            request_type))
    (λ start_time end_time,
       on_postgres
         (fmap_M (map (λ r, throughput_dict (PDatetime (tr_timestamp r)) r))
            (PostgresKVLoggingProvider.get_throughput_data start_time end_time))).

(** The Redis provider defines neither throughput method: asking the
    instance for one is an [AttributeError]. *)
Definition redis_provider : provider world :=
  mkProvider world
    (ret tt) (ret tt)
    (λ log_id key value is_info_log,
       now <- gets clock ;;
       on_redis (RedisKVLoggingProvider.log now log_id key value is_info_log))
    (λ limit log_type_filter,
       on_redis (RedisKVLoggingProvider.get_run_info limit log_type_filter))
    (λ run_ids limit_per_run,
       on_redis
         (fmap_M (map entry_dict)
            (RedisKVLoggingProvider.get_logs run_ids limit_per_run)))
    (λ _ _ _,
       attribute_error
         "'RedisKVLoggingProvider' object has no attribute 'log_throughput'")
    (λ _ _,
       attribute_error
         "'RedisKVLoggingProvider' object has no attribute 'get_throughput_data'").

(** The constructors: each checks what it needs of the configuration
    and the environment before anything connects. *)
Definition make_local (c : LoggingConfig) : M world (provider world) :=
  w <- gets id ;;
  let path :=
    if truthy_str (logging_path c) then logging_path c
    else Some (default "local.sqlite" (assoc_get "LOCAL_DB_PATH" (environ w))) in
  if truthy_str path then ret local_provider
  else value_error "Please set the environment variable LOCAL_DB_PATH.".

Definition require_env (names : list string) : M world unit :=
  w <- gets id ;;
  match filter (λ n, env_set w n = false) names with
  | [] => ret tt
  | n :: _ => value_error ("Please set the environment variable " ++ n ++ ".")
  end.

Definition make_postgres (c : LoggingConfig) : M world (provider world) :=
  require_env ["POSTGRES_DBNAME"; "POSTGRES_USER"; "POSTGRES_PASSWORD";
               "POSTGRES_HOST"; "POSTGRES_PORT"] ;;;
  ret postgres_provider.

Definition make_redis (c : LoggingConfig) : M world (provider world) :=
  require_env ["REDIS_CLUSTER_IP"; "REDIS_CLUSTER_PORT"] ;;;
  ret redis_provider.

Definition SUPPORTED_PROVIDERS
    : list (string * (LoggingConfig → M world (provider world))) :=
  [("local", make_local); ("postgres", make_postgres); ("redis", make_redis)].

(** [cls.SUPPORTED_PROVIDERS[cls._config.provider](cls._config)] *)
Definition get_instance : M world (provider world) :=
  cfg <- gets config ;;
  match cfg with
  | None =>
      attribute_error "type object 'KVLoggingSingleton' has no attribute '_config'"
  | Some c =>
      match assoc_get (provider_name c) SUPPORTED_PROVIDERS with
      | None => raise (Exn KeyError (provider_name c))
      | Some make => make c
      end
  end.

(** ** Reference parsers

    The analytics pass is stated over the library parsers it is given.
    The functions here read the plain cases of their formats: JSON
    without [\u] escapes and without the constants [NaN] and
    [Infinity]; decimal literals for [float] and [int]; the zero-padded
    layout [YYYY-MM-DD HH:MM:SS] for [strptime].  They serve to run the
    pass on concrete records. *)
Module Reference.

Definition is_ws (c : ascii) : bool :=
  let n := nat_of_ascii c in
  (n =? 32)%nat || (n =? 9)%nat || (n =? 10)%nat || (n =? 13)%nat.

Fixpoint skip_ws (s : string) : string :=
  match s with
  | String c rest => if is_ws c then skip_ws rest else s
  | EmptyString => s
  end.

Definition digit_value (c : ascii) : Z := Z.of_nat (nat_of_ascii c - 48).

Definition is_quote (c : ascii) : bool := (nat_of_ascii c =? 34)%nat.

(** The double quote, and [s] written as a JSON string literal
    (for text without quotes, backslashes or control characters). *)
Definition dq : string := String (ascii_of_nat 34) EmptyString.
Definition quoted (s : string) : string := dq ++ s ++ dq.

(** [json.dumps(s)] for such a string [s] that may hold quotes and
    backslashes: both are escaped. *)
Fixpoint escaped (s : string) : string :=
  match s with
  | EmptyString => EmptyString
  | String c rest =>
      if is_quote c || (nat_of_ascii c =? 92)%nat
      then String (ascii_of_nat 92) (String c (escaped rest))
      else String c (escaped rest)
  end.
Definition json_string (s : string) : string := dq ++ escaped s ++ dq.

(** The digits at the head of [s]: their value after [acc], how many
    there are, and the rest. *)
Fixpoint read_digits (s : string) (acc : Z) (n : nat) : Z * nat * string :=
  match s with
  | String c rest =>
      if is_digit c then read_digits rest (acc * 10 + digit_value c)%Z (S n)
      else (acc, n, s)
  | EmptyString => (acc, n, s)
  end.

(** A JSON string after its opening quote. *)
Fixpoint read_string (s : string) (acc : string) : option (string * string) :=
  match s with
  | EmptyString => None
  | String c rest =>
      if is_quote c then Some (acc, rest)
      else if (nat_of_ascii c =? 92)%nat then
        match rest with
        | String e rest' =>
            let put x := read_string rest' (acc ++ String x EmptyString) in
            match nat_of_ascii e with
            | 34 => put e
            | 92 => put e
            | 47 => put e
            | 98 => put (ascii_of_nat 8)
            | 102 => put (ascii_of_nat 12)
            | 110 => put (ascii_of_nat 10)
            | 114 => put (ascii_of_nat 13)
            | 116 => put (ascii_of_nat 9)
            | _ => None
            end
        | EmptyString => None
        end
      else if (nat_of_ascii c <? 32)%nat then None
      else read_string rest (acc ++ String c EmptyString)
  end.

(** [-? int frac? exp?]; an integer literal gives an [int], any other
    a [float]. *)
Definition read_number (s : string) : option (pyvalue * string) :=
  let '(neg, s1) :=
    match s with
    | String "-" r => (true, r)
    | _ => (false, s)
    end in
  let '(int_part, n_int, s2) := read_digits s1 0 0 in
  let leading_zero :=
    match s1 with
    | String "0" _ => (1 <? n_int)%nat
    | _ => false
    end in
  if (n_int =? 0)%nat || leading_zero then None
  else
    let sign z := if neg then (- z)%Z else z in
    let '(has_frac, mant, n_frac, s3) :=
      match s2 with
      | String "." r =>
          let '(m, n, r') := read_digits r int_part 0 in (true, m, n, r')
      | _ => (false, int_part, O, s2)
      end in
    if has_frac && (n_frac =? 0)%nat then None
    else
      let exp_of r :=
        let '(eneg, r1) :=
          match r with
          | String "-" r' => (true, r')
          | String "+" r' => (false, r')
          | _ => (false, r)
          end in
        let '(e, n_e, r2) := read_digits r1 0 0 in
        if (n_e =? 0)%nat then None
        else Some (PFloat (mkFloat (sign mant)
                             ((if eneg then - e else e) - Z.of_nat n_frac)), r2) in
      match s3 with
      | String "e" r => exp_of r
      | String "E" r => exp_of r
      | _ =>
          if has_frac
          then Some (PFloat (mkFloat (sign mant) (- Z.of_nat n_frac)), s3)
          else Some (PInt (sign int_part), s3)
      end.

Fixpoint read_value (fuel : nat) (s : string) : option (pyvalue * string) :=
  match fuel with
  | O => None
  | S f =>
      match skip_ws s with
      | String "[" rest =>
          match skip_ws rest with
          | String "]" r => Some (PList [], r)
          | _ => read_elements f rest []
          end
      | String "{" rest =>
          match skip_ws rest with
          | String "}" r => Some (PDict [], r)
          | _ => read_members f rest []
          end
      | String "t" (String "r" (String "u" (String "e" r))) => Some (PBool true, r)
      | String "f" (String "a" (String "l" (String "s" (String "e" r)))) =>
          Some (PBool false, r)
      | String "n" (String "u" (String "l" (String "l" r))) => Some (PNone, r)
      | String c rest as s' =>
          if is_quote c then
            match read_string rest EmptyString with
            | Some (str, r) => Some (PStr str, r)
            | None => None
            end
          else read_number s'
      | EmptyString => None
      end
  end
with read_elements (fuel : nat) (s : string) (acc : list pyvalue)
    : option (pyvalue * string) :=
  match fuel with
  | O => None
  | S f =>
      match read_value f s with
      | Some (v, r) =>
          match skip_ws r with
          | String "," r' => read_elements f r' (acc ++ [v])
          | String "]" r' => Some (PList (acc ++ [v]), r')
          | _ => None
          end
      | None => None
      end
  end
with read_members (fuel : nat) (s : string) (acc : list (string * pyvalue))
    : option (pyvalue * string) :=
  match fuel with
  | O => None
  | S f =>
      match skip_ws s with
      | String c rest =>
          if is_quote c then
            match read_string rest EmptyString with
            | Some (k, r) =>
                match skip_ws r with
                | String ":" r' =>
                    match read_value f r' with
                    | Some (v, r'') =>
                        (* a repeated key keeps its first place and takes
                           the last value *)
                        let acc := assoc_set k v acc in
                        match skip_ws r'' with
                        | String "," r3 => read_members f r3 acc
                        | String "}" r3 => Some (PDict acc, r3)
                        | _ => None
                        end
                    | None => None
                    end
                | _ => None
                end
            | None => None
            end
          else None
      | EmptyString => None
      end
  end.

Definition json_loads (s : string) : outcome pyvalue :=
  match read_value (2 * String.length s + 2) s with
  | Some (v, rest) =>
      match skip_ws rest with
      | EmptyString => Ok v
      | _ => Raise (Exn JSONDecodeError "Extra data")
      end
  | None => Raise (Exn JSONDecodeError "Expecting value")
  end.

Definition float_of_str (s : string) : outcome pyfloat :=
  match read_number (skip_ws s) with
  | Some (v, rest) =>
      match skip_ws rest, v with
      | EmptyString, PFloat f => Ok f
      | EmptyString, PInt z => Ok (mkFloat z 0)
      | _, _ => Raise (Exn ValueError "could not convert string to float")
      end
  | None => Raise (Exn ValueError "could not convert string to float")
  end.

Definition int_of_str (s : string) : outcome Z :=
  match read_number (skip_ws s) with
  | Some (PInt z, rest) =>
      match skip_ws rest with
      | EmptyString => Ok z
      | _ => Raise (Exn ValueError "invalid literal for int() with base 10")
      end
  | _ => Raise (Exn ValueError "invalid literal for int() with base 10")
  end.

Definition two_digits (a b : ascii) : option Z :=
  if is_digit a && is_digit b then Some (digit_value a * 10 + digit_value b)%Z
  else None.

Definition is_leap (y : Z) : bool :=
  ((y mod 4 =? 0)%Z && negb (y mod 100 =? 0)%Z) || (y mod 400 =? 0)%Z.

Definition days_in_month (y m : Z) : Z :=
  if (m =? 2)%Z then (if is_leap y then 29 else 28)%Z
  else if bool_decide (m ∈ [4; 6; 9; 11]%Z) then 30%Z
  else 31%Z.

Definition strptime_date (s : string) : outcome date :=
  let bad := Raise (Exn ValueError "time data does not match format '%Y-%m-%d %H:%M:%S'") in
  match s with
  | String y1 (String y2 (String y3 (String y4 (String "-"
    (String m1 (String m2 (String "-" (String d1 (String d2 (String " "
    (String h1 (String h2 (String ":" (String n1 (String n2 (String ":"
    (String s1 (String s2 EmptyString)))))))))))))))))) =>
      match two_digits y1 y2, two_digits y3 y4, two_digits m1 m2,
            two_digits d1 d2, two_digits h1 h2, two_digits n1 n2,
            two_digits s1 s2 with
      | Some ya, Some yb, Some m, Some d, Some h, Some n, Some sec =>
          let y := (ya * 100 + yb)%Z in
          if (1 <=? y)%Z && (1 <=? m)%Z && (m <=? 12)%Z && (1 <=? d)%Z
             && (d <=? days_in_month y m)%Z && (h <=? 23)%Z && (n <=? 59)%Z
             && (sec <=? 59)%Z
          then Ok (mkDate y m d)
          else bad
      | _, _, _, _, _, _, _ => bad
      end
  | _ => bad
  end.

Definition process_logs : list pyvalue → M (list string) aggregate :=
  process_logs json_loads float_of_str int_of_str strptime_date.

End Reference.

(** A process configured for the embedded provider, with empty stores. *)
Definition local_world : world :=
  mkWorld (Some (mkConfig "local" None)) [] 1000%Z empty_tables empty_tables
    empty_redis [].

(** ** Records and read-outs used to state the analytics properties *)

Definition log_record (key value timestamp : string) : pyvalue :=
  PDict [("key", PStr key); ("value", PStr value); ("timestamp", PStr timestamp)].

Definition error_503 (timestamp : string) : pyvalue :=
  log_record "error" "Request failed with code 503" timestamp.

(** [l] with [x] put in at position [k]. *)
Definition insert_at {A} (k : nat) (x : A) (l : list A) : list A :=
  take k l ++ x :: drop k l.

(** The histogram of one error code read off the chart data: each day
    label with the count in the code's data set. *)
Definition day_counts (a : aggregate) (code : string) : list (string * Z) :=
  match List.find (λ ds, String.eqb (ds_label ds) ("Error Code " ++ code))
          (datasets a) with
  | Some ds => zip (labels a) (ds_data ds)
  | None => []
  end.

Definition append_scores (scores : list pyvalue) (s : analytics_state)
    : analytics_state :=
  foldl (λ s score, append_score score s) s scores.

Definition with_logged (lines : list string) (s : analytics_state)
    : analytics_state :=
  mkAnalytics (error_counts s) (error_timestamps s) (retrieval_scores s)
    (query_timestamps s) (vector_search_latencies s)
    (rag_generation_latencies s) (throughput_data s) lines.

(** A [search_results] value with a malformed entry between two
    well-formed ones. *)
Definition score_entry (score : string) : string :=
  "{" ++ Reference.quoted "score" ++ ": " ++ score ++ "}".

Definition mixed_results : string :=
  "[" ++ Reference.json_string (score_entry "0.9") ++ ", "
  ++ Reference.json_string "oops" ++ ", "
  ++ Reference.json_string (score_entry "0.4") ++ "]".

(** The line the pass writes to the logger when a [search_results]
    record fails. *)
Definition parse_error_line (e : exn) : string :=
  "Error parsing search results: " ++ exn_msg e.

(** ** What "the [n] most recent, newest first" means *)

(** [returned] holds [n] of the [stored] records, newest first, and no
    record left out is more recent than one returned. *)
Definition newest_n {A} (ts : A → instant) (n : nat) (stored returned : list A)
    : Prop :=
  length returned = n
  ∧ Sql.newest_first ts returned
  ∧ ∃ rest, stored ≡ₚ returned ++ rest
            ∧ Forall (λ y, Forall (λ x, (ts y <= ts x)%Z) returned) rest.

(** The rows of one run in the log table, and in a [get_logs] answer of
    a SQL provider. *)
Definition run_rows (r : uuid) (rows : list LogRow) : list LogRow :=
  filter (λ x, lr_log_id x = r) rows.

Definition returned_rows (r : uuid) (res : list ranked_row) : list LogRow :=
  map fst (filter (λ x : ranked_row, lr_log_id (fst x) = r) res).

(** The entries of one run in the Redis store, and in a [get_logs]
    answer of the Redis provider. *)
Definition run_entries (st : redis) (r : uuid) : list LogEntry :=
  default [] (run_lists st !! r).

Definition returned_entries (r : uuid) (res : list LogEntry) : list LogEntry :=
  filter (λ e, le_log_id e = r) res.

(** Adjacent rows in newest-first order. *)
Fixpoint is_newest_first {A} (ts : A → instant) (l : list A) : bool :=
  match l with
  | [] => true
  | x :: l' =>
      match l' with
      | [] => true
      | y :: _ => (ts y <=? ts x)%Z && is_newest_first ts l'
      end
  end.

(** What [log] maintains for the list of a run under a clock that does
    not go back: its entries carry the run's id and stand newest first.
    [redis_run_ready] adds that the run has at least [n] entries. *)
Definition redis_run_ready (st : redis) (n : nat) (r : uuid) : bool :=
  (n <=? length (run_entries st r))%nat
  && forallb (λ e, bool_decide (le_log_id e = r)) (run_entries st r)
  && is_newest_first le_timestamp (run_entries st r).

Definition sql_run_ready (t : tables) (n : nat) (r : uuid) : bool :=
  (n <=? length (run_rows r (log_table t)))%nat.

(** ** Sample stores, written through [log] *)

(** Five ordinary writes for two runs, under a clock that moves on. *)
Definition sample_writes : list (instant * uuid * string * string) :=
  [(10%Z, 7%N, "search_query", "q1"); (20%Z, 8%N, "search_query", "q2");
   (30%Z, 7%N, "error", "code 503"); (40%Z, 7%N, "search_query", "q3");
   (50%Z, 8%N, "error", "code 404")].

Definition replay_local (writes : list (instant * uuid * string * string))
    : tables :=
  foldl (λ t '(now, log_id, key, value),
           snd (LocalKVLoggingProvider.log now log_id key value false t))
    empty_tables writes.

Definition replay_redis (writes : list (instant * uuid * string * string))
    : redis :=
  foldl (λ st '(now, log_id, key, value),
           snd (RedisKVLoggingProvider.log now log_id key value false st))
    empty_redis writes.

Definition sample_tables : tables := replay_local sample_writes.
Definition sample_redis : redis := replay_redis sample_writes.

(** Three info writes, two of one type. *)
Definition sample_info_writes : list (instant * uuid * string * string) :=
  [(10%Z, 7%N, "pipeline_type", "rag"); (20%Z, 8%N, "pipeline_type", "search");
   (30%Z, 9%N, "pipeline_type", "rag")].

Definition sample_info_redis : redis :=
  foldl (λ st '(now, log_id, key, value),
           snd (RedisKVLoggingProvider.log now log_id key value true st))
    empty_redis sample_info_writes.

Definition sample_info_tables : tables :=
  foldl (λ t '(now, log_id, key, value),
           snd (LocalKVLoggingProvider.log now log_id key value true t))
    empty_tables sample_info_writes.

(** What an answer of [get_run_info] over the stored info rows [rows]
    should be: at most [limit] of the rows, newest first, all of the
    filter's type when a filter is in force. *)
Definition run_info_answer (limit : Z) (log_type_filter : option string)
    (rows : list InfoRow) (res : list RunInfo) : Prop :=
  ∃ picked,
    res = map (λ r, mkRunInfo (ir_log_id r) (ir_log_type r)) picked
    ∧ (Z.of_nat (length picked) <= limit)%Z
    ∧ Sql.newest_first ir_timestamp picked
    ∧ (∀ r, r ∈ picked → r ∈ rows)
    ∧ (truthy_str log_type_filter = true →
       Forall (λ r, Some (ir_log_type r) = log_type_filter) picked).

(** The lists of the Redis store as [log] keeps them up to the time
    [now]: the list of a run holds entries of that run, none later than
    [now], newest first. *)
Definition redis_lists_wf (now : instant) (st : redis) : Prop :=
  ∀ r, Forall (λ e, le_log_id e = r ∧ (le_timestamp e <= now)%Z)
         (run_entries st r)
       ∧ Sql.newest_first le_timestamp (run_entries st r).

(** An entry of the Redis store as a row of the log table. *)
Definition entry_row (e : LogEntry) : LogRow :=
  mkLogRow (le_timestamp e) (le_log_id e) (le_key e) (le_value e).

Definition write_time (w : instant * uuid * string * string) : instant :=
  fst (fst (fst w)).
Definition write_run (w : instant * uuid * string * string) : uuid :=
  snd (fst (fst w)).
Definition write_row (w : instant * uuid * string * string) : LogRow :=
  mkLogRow (write_time w) (write_run w) (snd (fst w)) (snd w).
Definition write_entry (w : instant * uuid * string * string) : LogEntry :=
  mkLogEntry (write_time w) (write_run w) (snd (fst w)) (snd w) None.

(** ** The run information the Redis store holds *)

(** The members of the sorted set in the order [ZREVRANGE] lists them. *)
Definition sorted_members (st : redis) : list uuid :=
  map fst (stable_sort RedisKVLoggingProvider.zrev_before (info_sorted st)).

Definition load_some (st : redis) (log_id : uuid) : option RunInfo :=
  match RedisKVLoggingProvider.load_info st log_id with
  | Ok info => Some info
  | Raise _ => None
  end.

Definition stored_infos (st : redis) : list RunInfo :=
  omap (load_some st) (sorted_members st).

Definition passes_filter (log_type_filter : option string) (info : RunInfo)
    : bool :=
  if truthy_str log_type_filter
  then bool_decide (Some (log_type info) = log_type_filter)
  else true.

(** The run information of the members [ids] that passes the filter. *)
Definition kept_infos (st : redis) (log_type_filter : option string)
    (ids : list uuid) : list RunInfo :=
  List.filter (passes_filter log_type_filter) (omap (load_some st) ids).

(** The hash and the sorted set as info writes keep them: every member
    of the set has its entry in the hash, with a type, under its own id
    and with the member's score as timestamp. *)
Definition redis_info_wf (st : redis) : Prop :=
  ∀ id score, (id, score) ∈ info_sorted st →
    ∃ e t, info_hash st !! id = Some e ∧ le_log_type e = Some t
           ∧ le_log_id e = id ∧ le_timestamp e = score.

(** ** What a match of [\b\d{3}\b] is *)

(** Whether the last character of [s] is a [\w]; [before] answers for
    the empty text. *)
Fixpoint last_is_word (before : bool) (s : string) : bool :=
  match s with
  | EmptyString => before
  | String c rest => last_is_word (is_word c) rest
  end.

Definition first_is_word (s : string) : bool :=
  match s with
  | EmptyString => false
  | String c _ => is_word c
  end.

Definition three_digits (m : string) : Prop :=
  ∃ a b c, m = String a (String b (String c EmptyString))
           ∧ is_digit a = true ∧ is_digit b = true ∧ is_digit c = true.

(** ** Calls through the facade *)

(** The public class methods of [KVLoggingSingleton], as calls on the
    world of the three providers. *)
Inductive call : Type :=
  | CallLog (log_id : uuid) (key value : string) (is_info_log : bool)
  | CallGetRunInfo (limit : Z) (log_type_filter : option string)
  | CallGetLogs (run_ids : list uuid) (limit_per_run : Z)
  | CallLogThroughput (timestamp : instant) (num_requests : Z)
      (request_type : string)
  | CallGetThroughputData (start_time end_time : option Z)
  | CallGetAnalytics (pipeline_type : option string).

Definition is_write (c : call) : bool :=
  match c with
  | CallLog _ _ _ _ | CallLogThroughput _ _ _ => true
  | _ => false
  end.

(** The world a call leaves behind, whether it returns or raises. *)
Definition after_call (c : call) (w : world) : world :=
  match c with
  | CallLog log_id key value is_info_log =>
      snd (KVLoggingSingleton.log get_instance log_lines with_log_lines
             log_id key value is_info_log w)
  | CallGetRunInfo limit log_type_filter =>
      snd (KVLoggingSingleton.get_run_info get_instance limit log_type_filter w)
  | CallGetLogs run_ids limit_per_run =>
      snd (KVLoggingSingleton.get_logs get_instance run_ids limit_per_run w)
  | CallLogThroughput timestamp num_requests request_type =>
      snd (KVLoggingSingleton.log_throughput get_instance log_lines
             with_log_lines timestamp num_requests request_type w)
  | CallGetThroughputData start_time end_time =>
      snd (KVLoggingSingleton.get_throughput_data get_instance start_time
             end_time w)
  | CallGetAnalytics pipeline_type =>
      snd (KVLoggingSingleton.get_analytics get_instance log_lines
             with_log_lines Reference.json_loads Reference.float_of_str
             Reference.int_of_str Reference.strptime_date pipeline_type w)
  end.

(** The class is configured with the provider [name]. *)
Definition configured_for (name : string) (w : world) : Prop :=
  ∃ c, config w = Some c ∧ provider_name c = name.

(** What calls leave alone: the configuration, the environment and the
    clock; both throughput tables; the lines already on the logger; and
    every store but the one of the configured provider. *)
Definition left_alone (w w' : world) : Prop :=
  config w' = config w ∧ environ w' = environ w ∧ clock w' = clock w
  ∧ throughput_logs (sqlite_db w') = throughput_logs (sqlite_db w)
  ∧ throughput_logs (postgres_db w') = throughput_logs (postgres_db w)
  ∧ log_lines w `prefix_of` log_lines w'
  ∧ (¬ configured_for "local" w → sqlite_db w' = sqlite_db w)
  ∧ (¬ configured_for "postgres" w → postgres_db w' = postgres_db w)
  ∧ (¬ configured_for "redis" w → redis_db w' = redis_db w).

(** The three providers under the names [SUPPORTED_PROVIDERS] gives
    their classes. *)
Definition provider_named : list (string * provider world) :=
  [("local", local_provider); ("postgres", postgres_provider);
   ("redis", redis_provider)].

(** ** Checking a configuration *)

(** The loop of the [validate] methods that look at the environment. *)
Definition validate_env (required_env_vars : list string) : M world unit :=
  for_each required_env_vars
    (λ var, w <- gets id ;;
            if env_set w var then ret tt
            else value_error ("Environment variable " ++ var ++ " is not set.")).

Module LoggingConfig.
Definition validate : M world unit := ret tt.
End LoggingConfig.

Module PostgresLoggingConfig.
Definition validate : M world unit :=
  validate_env ["POSTGRES_DBNAME"; "POSTGRES_USER"; "POSTGRES_PASSWORD";
                "POSTGRES_HOST"; "POSTGRES_PORT"].
End PostgresLoggingConfig.

Module RedisLoggingConfig.
Definition validate : M world unit :=
  validate_env ["REDIS_CLUSTER_IP"; "REDIS_CLUSTER_PORT"].
End RedisLoggingConfig.

(** The first of [names] that the environment does not set. *)
Definition first_unset (w : world) (names : list string) : option string :=
  head (filter (λ n, env_set w n = false) names).

(** ** Configuring the class *)

(** The two class attributes [configure] works on.  [_config] does not
    exist before the first call; the argument it is set to may be
    [None]. *)
Record singleton_class : Type := mkClass {
  cls_config : option (option LoggingConfig);
  cls_is_configured : bool
}.

Definition unconfigured : singleton_class := mkClass None false.

(** [configure(logging_config)]: the new class attributes, or the
    message of the [Exception] it raises. *)
Definition configure (logging_config : option LoggingConfig)
    (cls : singleton_class) : string + singleton_class :=
  if negb (cls_is_configured cls)
  then inr (mkClass (Some logging_config) true)
  else inl "KVLoggingSingleton is already configured.".

(** A run of calls of [configure]: the class attributes at the end, and
    for each call whether it raised. *)
Definition configure_each (configs : list (option LoggingConfig))
    (cls : singleton_class) : singleton_class * list bool :=
  foldl (λ '(cls, raised) c,
           match configure c cls with
           | inr cls' => (cls', raised ++ [false])
           | inl _ => (cls, raised ++ [true])
           end)
    (cls, []) configs.

(** ** What one record may change in the accumulators *)

(** The updates of the accumulators the pass makes, each with the key
    of the record that causes it. *)
Inductive update (key : pyvalue) : analytics_state → analytics_state → Prop :=
  | update_count (msg code : string) (day : date) (s : analytics_state) :
      eq_str key "error" = true →
      last (findall_3digit msg) = Some code →
      update key s (count_error code day s)
  | update_score (score : pyvalue) (s : analytics_state) :
      eq_str key "search_results" = true →
      update key s (append_score score s)
  | update_logged (line : string) (s : analytics_state) :
      eq_str key "search_results" = true →
      update key s (with_logged (logged s ++ [line]) s)
  | update_query (t : pyvalue) (s : analytics_state) :
      eq_str key "search_query" = true →
      update key s (append_query_timestamp t s)
  | update_vector (f : pyfloat) (s : analytics_state) :
      eq_str key "vector_search_latency" = true →
      update key s (append_vector_latency f s)
  | update_rag (f : pyfloat) (s : analytics_state) :
      eq_str key "rag_generation_latency" = true →
      update key s (append_rag_latency f s)
  | update_throughput (d : pyvalue) (s : analytics_state) :
      eq_str key "throughput" = true →
      update key s (append_throughput d s).

(** [c] keeps [P]: from a state with [P] it ends, normally or not, in a
    state with [P]. *)
Definition keeps {S A} (P : S → Prop) (c : M S A) : Prop :=
  ∀ s, P s → P (snd (c s)).

(** The keys [process_logs] acts on. *)
Definition known_keys : list string :=
  ["error"; "search_results"; "search_query"; "vector_search_latency";
   "rag_generation_latency"; "throughput"].

Definition sum_Z (l : list Z) : Z := foldr Z.add 0%Z l.

(** The count of [code] summed over the days. *)
Definition day_total (code : string) (days : list (date * list (string * Z)))
    : Z :=
  sum_Z (map (λ day, default 0%Z (assoc_find code (snd day))) days).

(** The per-code counters agree with the per-day counters. *)
Definition counts_agree (s : analytics_state) : Prop :=
  (∀ code, default 0%Z (assoc_find code (error_counts s))
           = day_total code (error_timestamps s))
  ∧ NoDup (map fst (error_counts s))
  ∧ Forall (λ kv, (1 <= snd kv)%Z ∧ three_digits (fst kv)) (error_counts s).

(** * Properties *)

(** ** Substring test *)

Lemma prefix_app (n h : string) :
  String.prefix n h = true ↔ ∃ post, h = (n ++ post)%string.
Proof.
  revert h. induction n as [|c n IH]; intros h; simpl.
  - split; [intros _; by exists h | intros _; by destruct h].
  - destruct h as [|d h]; simpl.
    + split; [done | intros [post Hp]; discriminate].
    + destruct (Ascii.ascii_dec c d) as [->|Hne].
      * rewrite IH. split; intros [post Hp].
        -- exists post. by rewrite Hp.
        -- injection Hp as ->. by exists post.
      * split; [done | intros [post Hp]; injection Hp as Hd _; congruence].
Qed.

(** [str_contains needle hay] holds exactly when [hay] is some text,
    then [needle], then some text. *)
Lemma str_contains_spec (n h : string) :
  str_contains n h = true ↔ ∃ pre post, h = (pre ++ n ++ post)%string.
Proof.
  induction h as [|d h IH].
  - unfold str_contains. rewrite orb_false_r, prefix_app. split.
    + intros [post ->]. by exists EmptyString, post.
    + intros [pre [post Hp]]. destruct pre; [by exists post|done].
  - change (str_contains n (String d h))
      with (String.prefix n (String d h) || str_contains n h).
    rewrite orb_true_iff, prefix_app, IH. split.
    + intros [[post ->]|[pre [post ->]]].
      * by exists EmptyString, post.
      * by exists (String d pre), post.
    + intros [pre [post Hp]]. destruct pre as [|e pre].
      * left. by exists post.
      * right. injection Hp as -> ->. by exists pre, post.
Qed.

(** ** Writes that must be refused *)

(** C7. On each of the three providers, an info-log write whose key
    does not contain ["type"] raises [ValueError], and the store it was
    called on is left exactly as it was: neither the event log nor the
    run-info records change. *)
Theorem info_log_key_without_type_rejected
    (now : instant) (log_id : uuid) (key value : string)
    (t : tables) (r : redis) :
  str_contains "type" key = false →
  (∃ msg, LocalKVLoggingProvider.log now log_id key value true t
          = (Raise (Exn ValueError msg), t))
  ∧ (∃ msg, PostgresKVLoggingProvider.log now log_id key value true t
            = (Raise (Exn ValueError msg), t))
  ∧ (∃ msg, RedisKVLoggingProvider.log now log_id key value true r
            = (Raise (Exn ValueError msg), r)).
Proof.
  intros Hkey.
  unfold LocalKVLoggingProvider.log, PostgresKVLoggingProvider.log,
    RedisKVLoggingProvider.log.
  rewrite Hkey. simpl. repeat split; eexists; reflexivity.
Qed.

Lemma info_log_key_without_type_rejected_witness :
  str_contains "type" "pipeline_kind" = false
  ∧ (∃ msg, LocalKVLoggingProvider.log 100%Z 7%N "pipeline_kind" "rag" true
              empty_tables
            = (Raise (Exn ValueError msg), empty_tables)).
Proof.
  split; [reflexivity|].
  apply (info_log_key_without_type_rejected 100%Z 7%N "pipeline_kind" "rag"
           empty_tables empty_redis).
  reflexivity.
Defined.

(** ** [get_logs] without run ids *)

Lemma local_get_logs_empty_run_ids (n : Z) (t : tables) :
  LocalKVLoggingProvider.get_logs [] n t
  = (Raise (Exn ValueError "No run ids provided."), t).
Proof. reflexivity. Qed.

Lemma postgres_get_logs_empty_run_ids (n : Z) (t : tables) :
  PostgresKVLoggingProvider.get_logs [] n t
  = (Raise (Exn ValueError "No run ids provided."), t).
Proof. reflexivity. Qed.

(** C3. The Redis provider does not refuse an empty list of run ids:
    for every limit and every store, [get_logs] returns normally, with
    the empty list, where the two SQL providers raise [ValueError]. *)
Theorem redis_get_logs_empty_run_ids_returns (n : Z) (r : redis) :
  RedisKVLoggingProvider.get_logs [] n r = (Ok [], r).
Proof. reflexivity. Qed.

(** ** Analytics entry point *)

Section FacadeFacts.
Context {W : Type}.
Context (get_instance : M W (provider W))
        (sink : W → list string)
        (with_sink : list string → W → W).
Context (json_loads : string → outcome pyvalue)
        (float_of_str : string → outcome pyfloat)
        (int_of_str : string → outcome Z)
        (strptime_date : string → outcome date).

(** C2. Whatever provider is configured and whatever parsers are in
    use, [get_analytics] raises [TypeError] on its first statement:
    it calls [get_run_info] with the keyword [pipeline_type], which
    is not a parameter of [get_run_info].  No provider is acquired
    and the world is unchanged. *)
Theorem get_analytics_raises_type_error
    (pipeline_type : option string) (w : W) :
  KVLoggingSingleton.get_analytics get_instance sink with_sink json_loads
    float_of_str int_of_str strptime_date pipeline_type w
  = (Raise (Exn TypeError
              "get_run_info() got an unexpected keyword argument 'pipeline_type'"),
     w).
Proof. reflexivity. Qed.
Local Abbreviation facade_log := (KVLoggingSingleton.log get_instance sink with_sink).
Local Abbreviation facade_log_throughput :=
  (KVLoggingSingleton.log_throughput get_instance sink with_sink).
Local Abbreviation facade_get_run_info := (KVLoggingSingleton.get_run_info get_instance).
Local Abbreviation facade_get_logs := (KVLoggingSingleton.get_logs get_instance).
Local Abbreviation facade_get_throughput_data :=
  (KVLoggingSingleton.get_throughput_data get_instance).
Local Abbreviation scoped := (KVLoggingSingleton.async_with get_instance).
Local Abbreviation sink_written := (KVLoggingSingleton.sink_written sink with_sink).

(** A write through the facade returns normally whatever happened
    inside; when something was raised, its message is on the logger. *)
(** What the scoped acquisition does with an exception of the body:
    it goes on once the provider is released; if the release itself
    raises, that exception goes on in its place. *)
Lemma async_with_raise {A} (body : provider W → M W A) (prov : provider W)
    (e : exn) (w w1 w2 w3 : W) :
  get_instance w = (Ok prov, w1) → p_aenter prov w1 = (Ok tt, w2) →
  body prov w2 = (Raise e, w3) →
  scoped body w = KVLoggingSingleton.after_release prov e w3.
Proof.
  intros Hi He Hb.
  unfold KVLoggingSingleton.async_with, KVLoggingSingleton.after_release, bind.
  by rewrite Hi, He, Hb.
Qed.

Lemma facade_write_swallows (body : provider W → M W unit) (prefix : string)
    (w : W) :
  ∃ w', try_except (scoped body)
          (λ e, KVLoggingSingleton.logger_error sink with_sink
                  (prefix ++ exn_msg e)) w = (Ok tt, w')
        ∧ (∀ e w1, scoped body w = (Raise e, w1) →
             sink_written prefix e w1 w').
Proof.
  unfold try_except. destruct (scoped body w) as [[[]|e] w1] eqn:Hc.
  - exists w1. split; [done | intros; congruence].
  - eexists. split; [reflexivity|]. intros e' w' [= <- <-]. reflexivity.
Qed.

End FacadeFacts.



(** ** Throughput samples *)

(** C5. No provider stores a throughput sample.  The SQLite provider
    passes the three values to [execute] as three positional arguments
    and gets [TypeError]; the Postgres provider reaches for
    [self.connection], which is never set, and gets [AttributeError];
    the Redis provider has no [log_throughput] at all.  In each case the
    store is left as it was, for every sample. *)
Theorem log_throughput_never_stores
    (timestamp : instant) (num_requests : Z) (request_type : string)
    (t : tables) (w : world) :
  (∃ msg, LocalKVLoggingProvider.log_throughput timestamp num_requests
            request_type t
          = (Raise (Exn TypeError msg), t))
  ∧ (∃ msg, PostgresKVLoggingProvider.log_throughput timestamp num_requests
              request_type t
            = (Raise (Exn AttributeError msg), t))
  ∧ (∃ msg, p_log_throughput redis_provider timestamp num_requests
              request_type w
            = (Raise (Exn AttributeError msg), w)).
Proof. repeat split; eexists; reflexivity. Qed.

(** The read side of the SQLite provider: with two bounds that are both
    non-zero, every returned row lies in the closed interval. *)
Lemma local_throughput_window (s e : Z) (t : tables) :
  s ≠ 0%Z → e ≠ 0%Z →
  ∃ rows, LocalKVLoggingProvider.get_throughput_data (Some s) (Some e) t
          = (Ok rows, t)
          ∧ rows = filter (λ r, (s <= tr_timestamp r ∧ tr_timestamp r <= e)%Z)
                     (throughput_logs t).
Proof.
  intros Hs He. eexists. split; [|reflexivity].
  unfold LocalKVLoggingProvider.get_throughput_data,
    LocalKVLoggingProvider.execute, bind, gets, ret. simpl.
  destruct (Z.eqb_spec s 0); [done|]. destruct (Z.eqb_spec e 0); [done|].
  reflexivity.
Qed.

(** A bound of zero counts as no bound: the whole table is returned. *)
Lemma local_throughput_zero_bound (e : Z) (t : tables) :
  LocalKVLoggingProvider.get_throughput_data (Some 0%Z) (Some e) t
  = (Ok (throughput_logs t), t).
Proof. reflexivity. Qed.

(** ** Run information *)

(** C4. Without a filter the Postgres [get_run_info] fails for every
    limit and every table: its statement then mentions the placeholder
    [$2] only, while one argument is passed. *)
Theorem postgres_get_run_info_unfiltered_raises (limit : Z) (t : tables) :
  PostgresKVLoggingProvider.get_run_info limit None t
  = (Raise (Exn DatabaseError "statement parameters do not match the arguments"),
     t).
Proof. reflexivity. Qed.

(** ** The analytics pass *)

Lemma count_error_eval c d ec et rs qt vl rl td lg :
  count_error c d (mkAnalytics ec et rs qt vl rl td lg)
  = mkAnalytics (increment c ec)
      (assoc_set d (increment c (default [] (assoc_find d et))) et)
      rs qt vl rl td lg.
Proof. reflexivity. Qed.

Ltac eval_counts :=
  repeat (rewrite count_error_eval; unfold increment;
          cbn [assoc_set assoc_find default from_option id];
          repeat first [ rewrite decide_True by done
                       | rewrite decide_False by congruence ];
          cbn [assoc_set assoc_find default from_option id]).

Lemma subscript_dict {S} (d : pydict) (k : string) (v : pyvalue) (st : S) :
  assoc_get k d = Some v → subscript (PDict d) k st = (Ok v, st).
Proof. intros H. unfold subscript. by rewrite H. Qed.

Lemma subscript_pure {S} (v : pyvalue) (k : string) (st : S) :
  subscript v k st = (fst (subscript v k tt), st).
Proof.
  destruct v; try reflexivity. simpl. by destruct (assoc_get k d).
Qed.

Lemma for_each_cons {S A} (x : A) (xs : list A) (body : A → M S unit)
    (st st' : S) :
  body x st = (Ok tt, st') →
  for_each (x :: xs) body st = for_each xs body st'.
Proof. intros H. simpl. unfold bind. by rewrite H. Qed.

Lemma for_each_app_ok {S A} (xs ys : list A) (body : A → M S unit) (st st' : S) :
  for_each xs body st = (Ok tt, st') →
  for_each (xs ++ ys) body st = for_each ys body st'.
Proof.
  revert st. induction xs as [|x xs IH]; intros st H; simpl in *.
  - by injection H as ->.
  - unfold bind in *. destruct (body x st) as [[[]|e] st1]; [|done]. by apply IH.
Qed.

Section AnalyticsFacts.
Context (json_loads : string → outcome pyvalue)
        (float_of_str : string → outcome pyfloat)
        (int_of_str : string → outcome Z)
        (strptime_date : string → outcome date).

Local Abbreviation process_log' :=
  (process_log json_loads float_of_str int_of_str strptime_date).
Local Abbreviation process_logs' :=
  (process_logs json_loads float_of_str int_of_str strptime_date).

(** An [error] record with no three-digit token is passed over. *)
Lemma process_log_error_skipped (d : pydict) (msg : string)
    (s : analytics_state) :
  assoc_get "key" d = Some (PStr "error") →
  assoc_get "value" d = Some (PStr msg) →
  findall_3digit msg = [] →
  process_log' (PDict d) s = (Ok tt, s).
Proof.
  intros Hk Hv Hn. unfold process_log, bind.
  rewrite (subscript_dict _ _ _ _ Hk). simpl.
  unfold error_block, bind. rewrite (subscript_dict _ _ _ _ Hv). simpl.
  unfold ret. rewrite Hn. reflexivity.
Qed.

(** One with tokens is counted under the last of them, on the day its
    timestamp parses to. *)
Lemma process_log_error_counted (d : pydict) (msg raw code : string)
    (day : date) (s : analytics_state) :
  assoc_get "key" d = Some (PStr "error") →
  assoc_get "value" d = Some (PStr msg) →
  assoc_get "timestamp" d = Some (PStr raw) →
  last (findall_3digit msg) = Some code →
  strptime_date raw = Ok day →
  process_log' (PDict d) s = (Ok tt, count_error code day s).
Proof.
  intros Hk Hv Ht Hc Hd. unfold process_log, bind.
  rewrite (subscript_dict _ _ _ _ Hk). simpl.
  unfold error_block, bind. rewrite (subscript_dict _ _ _ _ Hv). simpl.
  unfold ret. rewrite Hc. simpl. rewrite Ht. simpl.
  unfold raise, ret, lift_outcome. rewrite Hd. reflexivity.
Qed.

Lemma process_log_error_503 (raw : string) (day : date) (s : analytics_state) :
  strptime_date raw = Ok day →
  process_log' (error_503 raw) s = (Ok tt, count_error "503" day s).
Proof.
  intros Hd.
  by apply (process_log_error_counted _ "Request failed with code 503" raw).
Qed.

(** Three records of code 503 on one day and one on another day, in any
    of the four orders. *)
Lemma error_503_scenario (k : nat) (t1 t2 t3 t4 : string) (D D' : date)
    (sink : list string) :
  strptime_date t1 = Ok D → strptime_date t2 = Ok D →
  strptime_date t3 = Ok D → strptime_date t4 = Ok D' → D' ≠ D →
  ∃ a, process_logs' (insert_at k (error_503 t4)
                        [error_503 t1; error_503 t2; error_503 t3]) sink
       = (Ok a, sink)
       ∧ pieChartData a = [mkSlice "503" 4]
       ∧ day_counts a "503" ≡ₚ [(str_of_date D, 3%Z); (str_of_date D', 1%Z)].
Proof.
  intros H1 H2 H3 H4 Hne.
  unfold process_logs.
  destruct k as [|[|[|k]]]; unfold insert_at; simpl take; simpl drop;
    rewrite ?take_nil, ?drop_nil; simpl app;
    repeat (erewrite for_each_cons; [|by apply process_log_error_503]);
    simpl for_each; unfold ret, initial_analytics; eval_counts;
    (eexists; split; [reflexivity|]); unfold build_aggregate, day_counts; simpl;
    (split; [reflexivity|]).
  - apply Permutation_swap.
  - reflexivity.
  - reflexivity.
  - reflexivity.
Qed.

End AnalyticsFacts.



Section SearchFacts.
Context (json_loads : string → outcome pyvalue)
        (float_of_str : string → outcome pyfloat)
        (int_of_str : string → outcome Z)
        (strptime_date : string → outcome date).

Local Abbreviation process_log' :=
  (process_log json_loads float_of_str int_of_str strptime_date).
Local Abbreviation process_logs' :=
  (process_logs json_loads float_of_str int_of_str strptime_date).
Local Abbreviation entry_score' := (entry_score json_loads).
Local Abbreviation leading_scores' := (leading_scores json_loads).

Lemma loads_pure {S} (v : pyvalue) (st : S) :
  loads json_loads v st = (fst (loads json_loads v tt), st).
Proof. by destruct v. Qed.

(** The loop over the entries stops at the first failure, with the
    scores before it appended. *)
Lemma score_loop (items : list pyvalue) (st : analytics_state) :
  for_each items
    (λ result_str,
       result <- loads json_loads result_str ;;
       score <- subscript result "score" ;;
       modify (append_score score)) st
  = match leading_scores' items with
    | (scores, None) => (Ok tt, append_scores scores st)
    | (scores, Some e) => (Raise e, append_scores scores st)
    end.
Proof.
  revert st. induction items as [|item items IH]; intros st; [reflexivity|].
  simpl. unfold entry_score, bind at 1 2 3. unfold bind at 2 3.
  rewrite (loads_pure item st).
  destruct (loads json_loads item tt) as [[result|e] []]; simpl; [|reflexivity].
  rewrite (subscript_pure result "score" st).
  destruct (subscript result "score" tt) as [[score|e] []]; simpl; [|reflexivity].
  unfold modify. rewrite IH.
  destruct (leading_scores' items) as [scores [e|]]; reflexivity.
Qed.

Lemma append_scores_logged scores st :
  logged (append_scores scores st) = logged st.
Proof.
  revert st. induction scores as [|x scores IH]; intros st; [done|].
  simpl. by rewrite IH.
Qed.

Lemma process_log_dispatch (d : pydict) (key : string) (st : analytics_state) :
  assoc_get "key" d = Some (PStr key) → key ≠ "error" →
  process_log' (PDict d) st
  = dispatch json_loads float_of_str int_of_str (PStr key) (PDict d) st.
Proof.
  intros Hk Hne. unfold process_log, bind.
  rewrite (subscript_dict _ _ _ _ Hk).
  change (eq_str (PStr key) "error") with (String.eqb key "error").
  destruct (String.eqb_spec key "error"); [done|]. reflexivity.
Qed.

Lemma search_results_block_decoded (d : pydict) (s : string)
    (items : list pyvalue) (st : analytics_state) :
  assoc_get "value" d = Some (PStr s) →
  json_loads s = Ok (PList items) →
  search_results_block json_loads (PDict d) st
  = (Ok tt,
     match leading_scores' items with
     | (scores, None) => append_scores scores st
     | (scores, Some e) =>
         with_logged (logged st ++ [parse_error_line e]) (append_scores scores st)
     end).
Proof.
  intros Hv Hj. unfold search_results_block, bind at 1.
  rewrite (subscript_dict _ _ _ _ Hv).
  unfold try_except, bind at 1. simpl loads. unfold lift_outcome. rewrite Hj.
  unfold bind at 1. simpl py_iter. unfold ret at 1.
  rewrite score_loop.
  destruct (leading_scores' items) as [scores [e|]]; [|reflexivity].
  unfold logger_error, modify. simpl. rewrite append_scores_logged.
  reflexivity.
Qed.

Lemma search_results_block_undecoded (d : pydict) (s : string) (e : exn)
    (st : analytics_state) :
  assoc_get "value" d = Some (PStr s) →
  json_loads s = Raise e →
  search_results_block json_loads (PDict d) st
  = (Ok tt, with_logged (logged st ++ [parse_error_line e]) st).
Proof.
  intros Hv Hj. unfold search_results_block, bind at 1.
  rewrite (subscript_dict _ _ _ _ Hv).
  unfold try_except, bind at 1. simpl loads. unfold lift_outcome. rewrite Hj.
  reflexivity.
Qed.

Lemma dispatch_vector_latency (log : pyvalue) :
  dispatch json_loads float_of_str int_of_str (PStr "vector_search_latency") log
  = (value <- subscript log "value" ;;
     f <- py_float float_of_str value ;;
     modify (append_vector_latency f)).
Proof. reflexivity. Qed.

Lemma dispatch_rag_latency (log : pyvalue) :
  dispatch json_loads float_of_str int_of_str (PStr "rag_generation_latency") log
  = (value <- subscript log "value" ;;
     f <- py_float float_of_str value ;;
     modify (append_rag_latency f)).
Proof. reflexivity. Qed.

Lemma latency_not_a_float (d : pydict) (key s : string) (e : exn)
    (st : analytics_state) :
  key = "vector_search_latency" ∨ key = "rag_generation_latency" →
  assoc_get "key" d = Some (PStr key) →
  assoc_get "value" d = Some (PStr s) →
  float_of_str s = Raise e →
  process_log' (PDict d) st = (Raise e, st).
Proof.
  intros Hkey Hk Hv Hf.
  rewrite (process_log_dispatch d key) by (destruct Hkey; by subst).
  destruct Hkey; subst key;
    rewrite ?dispatch_vector_latency, ?dispatch_rag_latency;
    unfold bind; rewrite (subscript_dict _ _ _ _ Hv); simpl py_float;
    unfold lift_outcome; by rewrite Hf.
Qed.

Lemma process_logs_raise (pre post : list pyvalue) (log : pyvalue) (e : exn)
    (sink : list string) (st : analytics_state) :
  for_each pre process_log' (initial_analytics sink) = (Ok tt, st) →
  process_log' log st = (Raise e, st) →
  process_logs' (pre ++ log :: post) sink = (Raise e, logged st).
Proof.
  intros Hpre Hlog. unfold process_logs.
  rewrite (for_each_app_ok _ _ _ _ _ Hpre). simpl. unfold bind. by rewrite Hlog.
Qed.

End SearchFacts.




(** ** The stable sort *)

Section StableSortFacts.
Context {A : Type} (before : A → A → bool).
Hypothesis before_total : ∀ x y, before x y = true ∨ before y x = true.
Hypothesis before_trans :
  ∀ x y z, before x y = true → before y z = true → before x z = true.

Local Abbreviation R := (λ x y : A, before x y = true).

Lemma insert_sorted_perm (x : A) (l : list A) :
  insert_sorted before x l ≡ₚ x :: l.
Proof.
  induction l as [|y l IH]; simpl; [done|].
  destruct (before x y); [done|]. rewrite IH. apply Permutation_swap.
Qed.

Lemma stable_sort_perm (l : list A) : stable_sort before l ≡ₚ l.
Proof.
  induction l as [|x l IH]; simpl; [done|].
  by rewrite insert_sorted_perm, IH.
Qed.

Lemma insert_sorted_sorted (x : A) (l : list A) :
  StronglySorted R l → StronglySorted R (insert_sorted before x l).
Proof.
  induction 1 as [|y l Hl IH Hy]; simpl.
  - repeat constructor.
  - destruct (before x y) eqn:Hxy.
    + constructor; [by constructor|]. constructor; [done|].
      eapply Forall_impl; [exact Hy|]. intros z Hz. by eapply before_trans.
    + constructor; [done|]. rewrite insert_sorted_perm. constructor; [|done].
      destruct (before_total x y); congruence.
Qed.

Lemma stable_sort_sorted (l : list A) : StronglySorted R (stable_sort before l).
Proof.
  induction l as [|x l IH]; simpl; [constructor|]. by apply insert_sorted_sorted.
Qed.

Lemma insert_sorted_first (x : A) (l : list A) :
  Forall (R x) l → insert_sorted before x l = x :: l.
Proof. destruct 1 as [|y l Hy _]; simpl; [done|]. by rewrite Hy. Qed.

(** A list already in order is left as it is. *)
Lemma stable_sort_sorted_id (l : list A) :
  StronglySorted R l → stable_sort before l = l.
Proof.
  induction 1 as [|x l Hl IH Hx]; simpl; [done|].
  rewrite IH. by apply insert_sorted_first.
Qed.

Lemma Forall_filter_keep (Q : A → Prop) (P : A → Prop) `{∀ x, Decision (P x)}
    (l : list A) :
  Forall Q l → Forall Q (filter P l).
Proof.
  rewrite !Forall_forall. intros HQ x Hx.
  apply list_elem_of_filter in Hx as [_ Hx]. by apply HQ.
Qed.

Lemma filter_insert_sorted (P : A → Prop) `{∀ x, Decision (P x)} (x : A)
    (l : list A) :
  StronglySorted R l →
  filter P (insert_sorted before x l)
  = if decide (P x) then insert_sorted before x (filter P l) else filter P l.
Proof.
  induction 1 as [|y l Hl IH Hy]; simpl.
  - rewrite filter_cons. by destruct (decide (P x)).
  - destruct (before x y) eqn:Hxy.
    + rewrite filter_cons. destruct (decide (P x)) as [Hx|Hx]; [|done].
      symmetry. apply insert_sorted_first. apply Forall_filter_keep.
      constructor; [done|].
      eapply Forall_impl; [exact Hy|]. intros z Hz. by eapply before_trans.
    + rewrite !filter_cons. destruct (decide (P y)) as [Hy'|Hy'].
      * rewrite IH. destruct (decide (P x)); [|done]. simpl. by rewrite Hxy.
      * by rewrite IH.
Qed.

(** Sorting commutes with selecting rows: the sort is stable. *)
Lemma filter_stable_sort (P : A → Prop) `{∀ x, Decision (P x)} (l : list A) :
  filter P (stable_sort before l) = stable_sort before (filter P l).
Proof.
  induction l as [|x l IH]; simpl; [done|].
  rewrite filter_insert_sorted by apply stable_sort_sorted.
  rewrite filter_cons. destruct (decide (P x)); simpl; by rewrite IH.
Qed.
End StableSortFacts.

(** ** [ORDER BY timestamp DESC] *)
Section OrderByFacts.
Context {A : Type} (ts : A → instant).

Lemma desc_total (x y : A) :
  (ts y <=? ts x)%Z = true ∨ (ts x <=? ts y)%Z = true.
Proof. rewrite !Z.leb_le. lia. Qed.

Lemma desc_trans (x y z : A) :
  (ts y <=? ts x)%Z = true → (ts z <=? ts y)%Z = true → (ts z <=? ts x)%Z = true.
Proof. rewrite !Z.leb_le. lia. Qed.

Lemma newest_first_leb (l : list A) :
  Sql.newest_first ts l
  ↔ StronglySorted (λ x y, (ts y <=? ts x)%Z = true) l.
Proof.
  unfold Sql.newest_first. split; induction 1 as [|x l Hl IH Hx];
    constructor; try done;
    (eapply Forall_impl; [exact Hx|]); intros y; simpl; rewrite Z.leb_le; done.
Qed.

Lemma order_by_desc_perm (l : list A) : Sql.order_by_desc ts l ≡ₚ l.
Proof. apply stable_sort_perm. Qed.

Lemma order_by_desc_newest_first (l : list A) :
  Sql.newest_first ts (Sql.order_by_desc ts l).
Proof.
  apply newest_first_leb, stable_sort_sorted; [apply desc_total|apply desc_trans].
Qed.

Lemma order_by_desc_id (l : list A) :
  Sql.newest_first ts l → Sql.order_by_desc ts l = l.
Proof. intros H. by apply stable_sort_sorted_id, newest_first_leb. Qed.

Lemma filter_order_by_desc (P : A → Prop) `{∀ x, Decision (P x)} (l : list A) :
  filter P (Sql.order_by_desc ts l) = Sql.order_by_desc ts (filter P l).
Proof. apply filter_stable_sort; [apply desc_total|apply desc_trans]. Qed.

Lemma newest_first_take (n : nat) (l : list A) :
  Sql.newest_first ts l → Sql.newest_first ts (take n l).
Proof.
  intros H. rewrite <- (take_drop n l) in H.
  by apply StronglySorted_app_1_l in H.
Qed.

Lemma is_newest_first_spec (l : list A) :
  is_newest_first ts l = true → Sql.newest_first ts l.
Proof.
  induction l as [|x l IH]; [constructor|].
  destruct l as [|y l]; [repeat constructor|].
  change (is_newest_first ts (x :: y :: l))
    with ((ts y <=? ts x)%Z && is_newest_first ts (y :: l)).
  rewrite andb_true_iff, Z.leb_le. intros [Hxy Hl].
  specialize (IH Hl). constructor; [done|].
  constructor; [done|]. apply StronglySorted_inv in IH as [_ Hy].
  eapply Forall_impl; [exact Hy|]. simpl. lia.
Qed.

(** The first [n] rows of a newest-first arrangement of the stored rows
    are the [n] most recent. *)
Lemma take_newest_n (n : nat) (stored sorted : list A) :
  sorted ≡ₚ stored → Sql.newest_first ts sorted → (n ≤ length stored)%nat →
  newest_n ts n stored (take n sorted).
Proof.
  intros Hp Hs Hn. split; [|split].
  - rewrite length_take, Hp. lia.
  - by apply newest_first_take.
  - exists (drop n sorted). split; [by rewrite take_drop|].
    rewrite <- (take_drop n sorted) in Hs.
    rewrite Forall_forall. intros y Hy. rewrite Forall_forall. intros x Hx.
    by apply (StronglySorted_app_1_elem_of _ _ _ x y Hs).
Qed.
End OrderByFacts.

(** ** Row numbers *)

Lemma number_from_fst {A} (k : Z) (l : list A) : map fst (Sql.number_from k l) = l.
Proof. revert k. induction l as [|x l IH]; intros k; simpl; [done|]. by rewrite IH. Qed.

Lemma number_from_filter_le {A} (k n : Z) (l : list A)
    `{Hdec : ∀ p : A * Z, Decision (snd p <= n)%Z} :
  filter (λ p : A * Z, (snd p <= n)%Z) (Sql.number_from k l)
  = Sql.number_from k (take (Z.to_nat (n - k + 1)) l).
Proof.
  revert k. induction l as [|x l IH]; intros k; simpl.
  - by rewrite take_nil.
  - rewrite filter_cons. simpl. destruct (decide _) as [Hk|Hk]; simpl in Hk.
    + rewrite IH. replace (Z.to_nat (n - k + 1)) with (S (Z.to_nat (n - (k + 1) + 1))) by lia.
      reflexivity.
    + rewrite IH. replace (Z.to_nat (n - k + 1)) with O by lia.
      replace (Z.to_nat (n - (k + 1) + 1)) with O by lia. reflexivity.
Qed.

Lemma number_from_newest_first {A} (ts : A → instant) (k : Z) (l : list A) :
  Sql.newest_first ts l →
  Sql.newest_first (λ p : A * Z, ts (fst p)) (Sql.number_from k l).
Proof.
  intros H. revert k. induction H as [|x l Hl IH Hx]; intros k; simpl;
    [constructor|].
  constructor; [apply IH|].
  rewrite Forall_forall. intros [y j] Hy. simpl.
  rewrite Forall_forall in Hx. apply Hx.
  apply list_elem_of_In, (in_map fst) in Hy. simpl in Hy.
  rewrite number_from_fst in Hy. by apply list_elem_of_In.
Qed.

Lemma number_from_key {A K} (key : A → K) (id : K) (k : Z) (l : list A) :
  Forall (λ x, key x = id) l →
  Forall (λ p : A * Z, key (fst p) = id) (Sql.number_from k l).
Proof.
  intros H. revert k. induction H; intros k; simpl; constructor; auto.
Qed.

(** ** Selecting one key from a concatenation by keys *)

Lemma filter_all {A} (P : A → Prop) `{∀ x, Decision (P x)} (l : list A) :
  Forall P l → filter P l = l.
Proof.
  induction 1 as [|x l Hx Hl IH]; [done|].
  rewrite filter_cons, decide_True by done. by rewrite IH.
Qed.

Lemma filter_none {A} (P : A → Prop) `{∀ x, Decision (P x)} (l : list A) :
  Forall (λ x, ¬ P x) l → filter P l = [].
Proof.
  induction 1 as [|x l Hx Hl IH]; [done|].
  by rewrite filter_cons, decide_False.
Qed.

Lemma filter_flat_map_key {A K} `{EqDecision K} (key : A → K)
    (F : K → list A) (ids : list K) (r : K) :
  NoDup ids →
  (∀ id, id ∈ ids → Forall (λ x, key x = id) (F id)) →
  filter (λ x, key x = r) (flat_map F ids)
  = if decide (r ∈ ids) then F r else [].
Proof.
  intros Hnd HF. induction Hnd as [|id ids Hid Hnd IH].
  - destruct (decide (r ∈ [])) as [Hr|_]; [|done]. by apply not_elem_of_nil in Hr.
  - change (flat_map F (id :: ids)) with (F id ++ flat_map F ids).
    rewrite filter_app, IH by (intros; apply HF; by right).
    destruct (decide (id = r)) as [->|Hne].
    + rewrite filter_all by (apply HF; by left).
      destruct (decide (r ∈ ids)) as [?|_]; [done|].
      destruct (decide (r ∈ r :: ids)) as [_|Hr]; [by rewrite app_nil_r|].
      exfalso. apply Hr. by left.
    + rewrite filter_none.
      * simpl. destruct (decide (r ∈ ids)) as [Hr|Hr];
          destruct (decide (r ∈ id :: ids)) as [Hr'|Hr']; try done.
        -- exfalso. apply Hr'. by right.
        -- apply elem_of_cons in Hr' as [?|?]; congruence.
      * eapply Forall_impl; [apply HF; by left|]. simpl. congruence.
Qed.

(** ** [get_logs] on the SQL providers *)

Lemma filter_swap {A} (P Q : A → Prop) `{∀ x, Decision (P x)}
    `{∀ x, Decision (Q x)} (l : list A) :
  filter P (filter Q l) = filter Q (filter P l).
Proof. rewrite !list_filter_filter. apply list_filter_iff. tauto. Qed.

(** One partition of the window function, read back from its result. *)
Lemma row_number_over_partition (rows : list LogRow) (r : uuid) :
  filter (λ p : ranked_row, lr_log_id (fst p) = r)
    (Sql.row_number_over lr_log_id lr_timestamp rows)
  = Sql.number_rows (Sql.order_by_desc lr_timestamp (run_rows r rows)).
Proof.
  unfold Sql.row_number_over.
  rewrite (filter_flat_map_key (λ p : ranked_row, lr_log_id (fst p))).
  - destruct (decide (r ∈ remove_dups (map lr_log_id rows))) as [|Hr]; [done|].
    unfold run_rows. rewrite filter_none; [done|].
    rewrite Forall_forall. intros x Hx Hxr. apply Hr.
    apply elem_of_remove_dups, list_elem_of_In, in_map_iff.
    exists x. split; [done|]. by apply list_elem_of_In.
  - apply NoDup_remove_dups.
  - intros id _. apply number_from_key.
    rewrite order_by_desc_perm. rewrite Forall_forall. intros x Hx.
    by apply list_elem_of_filter in Hx as [Hx _].
Qed.

(** The rows of a requested run in the answer of the query: the first
    [limit_per_run] of the run's rows in newest-first order. *)
Lemma sql_returned_rows (run_ids : list uuid) (limit_per_run : Z)
    (rows : list LogRow) (r : uuid) :
  r ∈ run_ids →
  returned_rows r
    (LocalKVLoggingProvider.get_logs_query run_ids limit_per_run rows)
  = take (Z.to_nat limit_per_run)
      (Sql.order_by_desc lr_timestamp (run_rows r rows)).
Proof.
  intros Hr. unfold returned_rows, LocalKVLoggingProvider.get_logs_query.
  rewrite filter_order_by_desc, filter_swap, row_number_over_partition.
  unfold run_rows at 1.
  rewrite list_filter_filter_l by (intros x ->; exact Hr).
  unfold Sql.number_rows, ranked_row. rewrite number_from_filter_le.
  replace (Z.to_nat (limit_per_run - 1 + 1)) with (Z.to_nat limit_per_run) by lia.
  rewrite order_by_desc_id.
  - apply number_from_fst.
  - apply number_from_newest_first, newest_first_take, order_by_desc_newest_first.
Qed.

Lemma sql_newest_n (run_ids : list uuid) (n : nat) (rows : list LogRow)
    (r : uuid) :
  r ∈ run_ids → (n ≤ length (run_rows r rows))%nat →
  newest_n lr_timestamp n (run_rows r rows)
    (returned_rows r
       (LocalKVLoggingProvider.get_logs_query run_ids (Z.of_nat n) rows)).
Proof.
  intros Hr Hn. rewrite sql_returned_rows by done. rewrite Nat2Z.id.
  apply take_newest_n; [apply order_by_desc_perm | apply order_by_desc_newest_first
                        | done].
Qed.

Lemma postgres_get_logs_placeholders (k : nat) :
  PostgresKVLoggingProvider.placeholders_match (seq 1 k ++ [k + 1]) (k + 1) = true.
Proof.
  unfold PostgresKVLoggingProvider.placeholders_match.
  apply andb_true_iff. split; apply forallb_forall; intros i Hi.
  - apply bool_decide_eq_true, list_elem_of_In. apply in_seq in Hi.
    apply in_app_iff. destruct (decide (i = k + 1)) as [->|]; [right; by left|].
    left. apply in_seq. lia.
  - apply in_app_iff in Hi as [Hi|[<-|[]]].
    + apply in_seq in Hi. apply andb_true_iff.
      split; apply Nat.leb_le; lia.
    + apply andb_true_iff. split; apply Nat.leb_le; lia.
Qed.

Lemma local_get_logs_ok (run_ids : list uuid) (n : Z) (t : tables) :
  run_ids ≠ [] →
  LocalKVLoggingProvider.get_logs run_ids n t
  = (Ok (LocalKVLoggingProvider.get_logs_query run_ids n (log_table t)), t).
Proof. by destruct run_ids. Qed.

Lemma postgres_get_logs_ok (run_ids : list uuid) (n : Z) (t : tables) :
  run_ids ≠ [] →
  PostgresKVLoggingProvider.get_logs run_ids n t
  = (Ok (LocalKVLoggingProvider.get_logs_query run_ids n (log_table t)), t).
Proof.
  destruct run_ids as [|r ids]; [done|]. intros _.
  unfold PostgresKVLoggingProvider.get_logs, PostgresKVLoggingProvider.execute.
  by rewrite postgres_get_logs_placeholders.
Qed.

(** ** [get_logs] on the Redis provider *)

Lemma redis_range_first {A} (l : list A) (n : Z) :
  (1 <= n)%Z → redis_range l 0 (n - 1) = take (Z.to_nat n) l.
Proof.
  intros Hn. unfold redis_range.
  change (0 <? 0)%Z with false. cbv iota.
  destruct (Z.ltb_spec (n - 1) 0); [lia|].
  set (len := Z.of_nat (length l)).
  destruct (_ || _) eqn:E.
  - apply orb_true_iff in E as [E|E].
    + apply Z.ltb_lt in E. assert (len = 0%Z) as Hl by lia.
      destruct l; [by rewrite take_nil|]. unfold len in Hl. simpl in Hl. lia.
    + apply Z.leb_le in E. destruct l; [by rewrite take_nil|].
      unfold len in E. simpl in E. lia.
  - apply orb_false_iff in E as [E1 E2].
    apply Z.ltb_ge in E1. apply Z.leb_gt in E2.
    change (Z.to_nat 0) with O. rewrite drop_0.
    destruct (Z.le_gt_cases n len).
    + f_equal. lia.
    + rewrite !take_ge; [done| |]; unfold len in *; lia.
Qed.

Lemma redis_range_Forall {A} (P : A → Prop) (l : list A) (a b : Z) :
  Forall P l → Forall P (redis_range l a b).
Proof.
  intros H. unfold redis_range. destruct (_ || _); [constructor|].
  by apply Forall_take, Forall_drop.
Qed.

Lemma redis_run_ready_spec (st : redis) (n : nat) (r : uuid) :
  redis_run_ready st n r = true →
  (n ≤ length (run_entries st r))%nat
  ∧ Forall (λ e, le_log_id e = r) (run_entries st r)
  ∧ Sql.newest_first le_timestamp (run_entries st r).
Proof.
  unfold redis_run_ready. rewrite !andb_true_iff. intros [[Hn Hid] Hs].
  split; [by apply Nat.leb_le|]. split; [|by apply is_newest_first_spec].
  rewrite Forall_forall. intros e He.
  rewrite forallb_forall in Hid. apply list_elem_of_In in He.
  by apply Hid, bool_decide_eq_true in He.
Qed.

Lemma redis_returned_entries (st : redis) (run_ids : list uuid) (n : Z)
    (r : uuid) :
  NoDup run_ids → r ∈ run_ids →
  (∀ id, id ∈ run_ids → Forall (λ e, le_log_id e = id) (run_entries st id)) →
  returned_entries r
    (flat_map (λ run_id, RedisKVLoggingProvider.lrange st run_id 0 (n - 1))
       run_ids)
  = RedisKVLoggingProvider.lrange st r 0 (n - 1).
Proof.
  intros Hnd Hr Hid. unfold returned_entries.
  rewrite (filter_flat_map_key le_log_id); [by rewrite decide_True|done|].
  intros id Hin. by apply redis_range_Forall, Hid.
Qed.

Lemma redis_newest_n (st : redis) (run_ids : list uuid) (n : nat) (r : uuid) :
  (1 ≤ n)%nat → NoDup run_ids → r ∈ run_ids →
  forallb (redis_run_ready st n) run_ids = true →
  newest_n le_timestamp n (run_entries st r)
    (returned_entries r
       (flat_map
          (λ run_id, RedisKVLoggingProvider.lrange st run_id 0 (Z.of_nat n - 1))
          run_ids)).
Proof.
  intros Hn Hnd Hr Hready. rewrite forallb_forall in Hready.
  assert (Hall : ∀ id, id ∈ run_ids → redis_run_ready st n id = true).
  { intros id Hid. by apply Hready, list_elem_of_In. }
  rewrite redis_returned_entries; [|done|done|].
  - unfold RedisKVLoggingProvider.lrange. fold (run_entries st r).
    rewrite redis_range_first by lia. rewrite Nat2Z.id.
    destruct (redis_run_ready_spec st n r (Hall r Hr)) as (Hlen & _ & Hs).
    by apply take_newest_n.
  - intros id Hid. by destruct (redis_run_ready_spec st n id (Hall id Hid)) as (_ & ? & _).
Qed.

(** C1, as the code has it.  For a limit of at least one and a
    non-empty list of distinct run ids, each of which has at least
    [n] stored records, every provider answers, for each requested
    run, with exactly [n] records of that run: the [n] most recent by
    write timestamp, newest first.  (For Redis the lists are as [log]
    leaves them under a clock that does not go back.)  The three
    providers meet the same [newest_n] description; the order in which
    the runs are interleaved in the answer differs. *)
Theorem get_logs_top_n_per_run (t : tables) (st : redis) (run_ids : list uuid)
    (n : nat) :
  (1 ≤ n)%nat → NoDup run_ids → run_ids ≠ [] →
  (forallb (sql_run_ready t n) run_ids = true →
   ∃ res, LocalKVLoggingProvider.get_logs run_ids (Z.of_nat n) t = (Ok res, t)
          ∧ ∀ r, r ∈ run_ids →
                 newest_n lr_timestamp n (run_rows r (log_table t))
                   (returned_rows r res))
  ∧ (forallb (sql_run_ready t n) run_ids = true →
     ∃ res, PostgresKVLoggingProvider.get_logs run_ids (Z.of_nat n) t
            = (Ok res, t)
            ∧ ∀ r, r ∈ run_ids →
                   newest_n lr_timestamp n (run_rows r (log_table t))
                     (returned_rows r res))
  ∧ (forallb (redis_run_ready st n) run_ids = true →
     ∃ res, RedisKVLoggingProvider.get_logs run_ids (Z.of_nat n) st
            = (Ok res, st)
            ∧ ∀ r, r ∈ run_ids →
                   newest_n le_timestamp n (run_entries st r)
                     (returned_entries r res)).
Proof.
  intros Hn Hnd Hne.
  assert (Hsql : forallb (sql_run_ready t n) run_ids = true →
                 ∀ r, r ∈ run_ids →
                      newest_n lr_timestamp n (run_rows r (log_table t))
                        (returned_rows r
                           (LocalKVLoggingProvider.get_logs_query run_ids
                              (Z.of_nat n) (log_table t)))).
  { intros Hready r Hr. apply sql_newest_n; [done|].
    rewrite forallb_forall in Hready.
    apply Nat.leb_le, (Hready r). by apply list_elem_of_In. }
  split; [|split].
  - intros Hready. eexists. split; [by apply local_get_logs_ok|]. auto.
  - intros Hready. eexists. split; [by apply postgres_get_logs_ok|]. auto.
  - intros Hready. eexists. split; [reflexivity|].
    intros r Hr. by apply redis_newest_n.
Qed.

Lemma get_logs_top_n_per_run_witness :
  (∃ res, LocalKVLoggingProvider.get_logs [7%N; 8%N] 2%Z sample_tables
          = (Ok res, sample_tables)
          ∧ ∀ r, r ∈ [7%N; 8%N] →
                 newest_n lr_timestamp 2 (run_rows r (log_table sample_tables))
                   (returned_rows r res))
  ∧ (∃ res, RedisKVLoggingProvider.get_logs [7%N; 8%N] 2%Z sample_redis
            = (Ok res, sample_redis)
            ∧ ∀ r, r ∈ [7%N; 8%N] →
                   newest_n le_timestamp 2 (run_entries sample_redis r)
                     (returned_entries r res)).
Proof.
  destruct (get_logs_top_n_per_run sample_tables sample_redis [7%N; 8%N] 2)
    as (Hlocal & _ & Hredis).
  - lia.
  - apply (bool_decide_unpack (NoDup [7%N; 8%N])). reflexivity.
  - discriminate.
  - split; [apply Hlocal | apply Hredis]; reflexivity.
Defined.

(** The claim as stated fails on the Redis provider.  With the limit 0
    a run that has records is answered with all of them, not with none
    ([LRANGE key 0 -1] is the whole list); and a run id that is given
    twice is answered twice. *)
Lemma get_logs_limit_zero_and_repeated_ids :
  (forallb (redis_run_ready sample_redis 0) [7%N] = true
   ∧ ∃ res, RedisKVLoggingProvider.get_logs [7%N] 0%Z sample_redis
            = (Ok res, sample_redis)
            ∧ length (returned_entries 7%N res) = 3
            ∧ ¬ newest_n le_timestamp 0 (run_entries sample_redis 7%N)
                  (returned_entries 7%N res))
  ∧ (forallb (redis_run_ready sample_redis 2) [7%N; 7%N] = true
     ∧ ∃ res, RedisKVLoggingProvider.get_logs [7%N; 7%N] 2%Z sample_redis
              = (Ok res, sample_redis)
              ∧ length (returned_entries 7%N res) = 4
              ∧ ¬ newest_n le_timestamp 2 (run_entries sample_redis 7%N)
                    (returned_entries 7%N res)).
Proof.
  split; (split; [reflexivity|]); eexists; (split; [reflexivity|]);
    (split; [reflexivity|]); intros [Hlen _]; vm_compute in Hlen; discriminate.
Qed.

(** ** The batch loop of the Redis [get_run_info] *)

Section RedisRunInfo.
Context (st : redis) (limit : Z) (log_type_filter : option string).

Local Abbreviation loop :=
  (λ fuel, RedisKVLoggingProvider.get_run_info_loop fuel st limit log_type_filter).
Local Abbreviation members := (length (info_sorted st)).

Lemma zrevrange_length (start stop : Z) :
  (0 <= start)%Z →
  RedisKVLoggingProvider.zrevrange st start stop ≠ [] →
  (start < Z.of_nat members)%Z.
Proof.
  intros Hs Hne. unfold RedisKVLoggingProvider.zrevrange, redis_range in Hne.
  rewrite (Permutation_length (stable_sort_perm _ _)) in Hne.
  destruct (Z.ltb_spec start 0); [lia|].
  destruct (_ || _) eqn:E; [done|].
  apply orb_false_iff in E as [_ E]. by apply Z.leb_gt in E.
Qed.

Lemma slice_to_length {A} (l : list A) :
  (0 <= limit)%Z →
  (Z.of_nat (length (RedisKVLoggingProvider.slice_to limit l)) <= limit)%Z.
Proof.
  intros Hl. unfold RedisKVLoggingProvider.slice_to.
  destruct (Z.ltb_spec limit 0); [lia|]. rewrite length_take. lia.
Qed.

Local Abbreviation passes_left := (RedisKVLoggingProvider.passes_left st).

Lemma loop_ends (fuel : nat) (start : Z) (acc : list RunInfo) :
  (0 <= start)%Z → (passes_left start ≤ fuel)%nat →
  ∃ r, loop fuel start acc = Some r.
Proof.
  revert start acc. induction fuel as [|fuel IH]; intros start acc Hs Hf.
  - unfold passes_left in Hf. lia.
  - simpl. destruct (Z.ltb_spec (Z.of_nat (length acc)) limit); [|eauto].
    destruct (RedisKVLoggingProvider.zrevrange st start _) as [|id ids] eqn:Hz;
      [eauto|].
    destruct (RedisKVLoggingProvider.scan_batch _ _ _ _ _) as [acc'|e]; [|eauto].
    apply IH; [unfold RedisKVLoggingProvider.count_per_batch; lia|].
    assert (start < Z.of_nat members)%Z as Hlt.
    { apply (zrevrange_length start
               (start + RedisKVLoggingProvider.count_per_batch - 1)); [done|].
      by rewrite Hz. }
    unfold passes_left in *. unfold RedisKVLoggingProvider.count_per_batch.
    assert ((Z.of_nat members - (start + 100) + 99) / 100
            = (Z.of_nat members - start + 99) / 100 - 1)%Z as ->.
    { replace (Z.of_nat members - (start + 100) + 99)%Z
        with ((Z.of_nat members - start + 99) + (-1) * 100)%Z by lia.
      rewrite Z.div_add by lia. lia. }
    assert (1 <= (Z.of_nat members - start + 99) / 100)%Z.
    { apply Z.div_le_lower_bound; lia. }
    lia.
Qed.

Lemma loop_more_fuel (fuel : nat) (start : Z) (acc : list RunInfo)
    (r : outcome (list RunInfo)) :
  loop fuel start acc = Some r → loop (S fuel) start acc = Some r.
Proof.
  revert start acc. induction fuel as [|fuel IH]; intros start acc; [done|].
  intros H. specialize (IH (start + RedisKVLoggingProvider.count_per_batch)%Z).
  cbn [RedisKVLoggingProvider.get_run_info_loop] in H.
  cbn [RedisKVLoggingProvider.get_run_info_loop].
  cbn [RedisKVLoggingProvider.get_run_info_loop] in IH.
  destruct (Z.of_nat (length acc) <? limit)%Z; [|exact H].
  destruct (RedisKVLoggingProvider.zrevrange st start _) as [|id ids]; [exact H|].
  destruct (RedisKVLoggingProvider.scan_batch _ _ _ _ _) as [acc'|e]; [|exact H].
  by apply IH.
Qed.

Lemma loop_fuel_le (fuel fuel' : nat) (start : Z) (acc : list RunInfo)
    (r : outcome (list RunInfo)) :
  (fuel ≤ fuel')%nat → loop fuel start acc = Some r → loop fuel' start acc = Some r.
Proof.
  induction 1 as [|fuel' _ IH]; [done|]. intros H. by apply loop_more_fuel, IH.
Qed.

Lemma loop_result_length (fuel : nat) (start : Z) (acc l : list RunInfo) :
  (0 <= limit)%Z → loop fuel start acc = Some (Ok l) →
  (Z.of_nat (length l) <= limit)%Z.
Proof.
  intros Hl. revert start acc. induction fuel as [|fuel IH]; intros start acc; [done|].
  simpl. destruct (Z.of_nat (length acc) <? limit)%Z.
  - destruct (RedisKVLoggingProvider.zrevrange st start _) as [|id ids].
    + intros [= <-]. by apply slice_to_length.
    + destruct (RedisKVLoggingProvider.scan_batch _ _ _ _ _) as [acc'|e]; [|done].
      apply IH.
  - intros [= <-]. by apply slice_to_length.
Qed.

Lemma enough_fuel_passes :
  (passes_left 0 ≤ RedisKVLoggingProvider.enough_fuel st)%nat.
Proof.
  unfold passes_left, RedisKVLoggingProvider.enough_fuel.
  apply le_n_S. rewrite Z.sub_0_r.
  assert ((Z.of_nat members + 99) / 100 <= Z.of_nat (members / 100) + 1)%Z; [|lia].
  rewrite Nat2Z.inj_div. change (Z.of_nat 100) with 100%Z.
  replace (Z.of_nat members + 99)%Z with (Z.of_nat members - 1 + 1 * 100)%Z by lia.
  rewrite Z.div_add by lia.
  assert ((Z.of_nat members - 1) / 100 <= Z.of_nat members / 100)%Z; [|lia].
  apply Z.div_le_mono; lia.
Qed.
End RedisRunInfo.

(** C10. On every Redis store and for every limit of at least one, the
    loop of [get_run_info] ends: with the fuel [enough_fuel] (two more
    than the number of full batches of 100 in the sorted set), and with
    any larger fuel, it delivers the same outcome; and a list it
    returns has at most [limit] entries, whatever the filter lets
    through. *)
Theorem redis_get_run_info_terminates (st : redis) (limit : Z)
    (log_type_filter : option string) :
  (1 <= limit)%Z →
  ∃ r, (∀ fuel, (RedisKVLoggingProvider.enough_fuel st ≤ fuel)%nat →
          RedisKVLoggingProvider.get_run_info_fuel fuel st limit log_type_filter
          = Some r)
       ∧ RedisKVLoggingProvider.get_run_info limit log_type_filter st = (r, st)
       ∧ ∀ l, r = Ok l → (Z.of_nat (length l) <= limit)%Z.
Proof.
  intros Hl.
  destruct (loop_ends st limit log_type_filter
              (RedisKVLoggingProvider.enough_fuel st) 0 [])
    as [r Hr]; [lia | apply enough_fuel_passes |].
  exists r. split; [|split].
  - intros fuel Hf. unfold RedisKVLoggingProvider.get_run_info_fuel.
    by apply (loop_fuel_le st limit log_type_filter _ fuel) in Hr.
  - unfold RedisKVLoggingProvider.get_run_info,
      RedisKVLoggingProvider.get_run_info_fuel. by rewrite Hr.
  - intros l ->. apply (loop_result_length st limit log_type_filter _ 0 []) in Hr;
      [done|lia].
Qed.

Lemma redis_get_run_info_terminates_witness :
  (1 <= 2)%Z
  ∧ (∃ r, (∀ fuel, (RedisKVLoggingProvider.enough_fuel sample_info_redis ≤ fuel)%nat →
             RedisKVLoggingProvider.get_run_info_fuel fuel sample_info_redis 2
               (Some "rag") = Some r)
          ∧ RedisKVLoggingProvider.get_run_info 2 (Some "rag") sample_info_redis
            = (r, sample_info_redis)
          ∧ ∀ l, r = Ok l → (Z.of_nat (length l) <= 2)%Z)
  ∧ RedisKVLoggingProvider.get_run_info 2 (Some "rag") sample_info_redis
    = (Ok [mkRunInfo 9%N "rag"; mkRunInfo 7%N "rag"], sample_info_redis).
Proof.
  split; [lia|]. split; [|reflexivity].
  apply (redis_get_run_info_terminates sample_info_redis 2 (Some "rag")). lia.
Defined.

(** ** [get_run_info] where it answers *)

Lemma take_elem_of {A} (n : nat) (l : list A) (x : A) : x ∈ take n l → x ∈ l.
Proof.
  intros H. rewrite <- (take_drop n l). apply elem_of_app. by left.
Qed.

Lemma sql_run_info_answer (limit : Z) (log_type_filter : option string)
    (rows : list InfoRow) :
  (0 <= limit)%Z →
  run_info_answer limit log_type_filter rows
    (map (λ r, mkRunInfo (ir_log_id r) (ir_log_type r))
       (take (Z.to_nat limit)
          (Sql.order_by_desc ir_timestamp
             (if truthy_str log_type_filter
              then filter (λ r, Some (ir_log_type r) = log_type_filter) rows
              else rows)))).
Proof.
  intros Hl. eexists. split; [reflexivity|]. split; [rewrite length_take; lia|].
  split; [apply newest_first_take, order_by_desc_newest_first|]. split.
  - intros r Hr. apply take_elem_of in Hr. rewrite order_by_desc_perm in Hr.
    destruct (truthy_str log_type_filter); [|done].
    by apply list_elem_of_filter in Hr as [_ Hr].
  - intros ->. rewrite Forall_forall. intros r Hr.
    apply take_elem_of in Hr. rewrite order_by_desc_perm in Hr.
    by apply list_elem_of_filter in Hr as [Hr _].
Qed.

(** The SQLite provider answers with or without a filter. *)
Lemma local_get_run_info_answer (limit : Z) (log_type_filter : option string)
    (t : tables) :
  (1 <= limit)%Z →
  ∃ res, LocalKVLoggingProvider.get_run_info limit log_type_filter t = (Ok res, t)
         ∧ run_info_answer limit log_type_filter (log_info_table t) res.
Proof.
  intros Hl. eexists. split.
  - unfold LocalKVLoggingProvider.get_run_info, LocalKVLoggingProvider.execute,
      LocalKVLoggingProvider.limit_rows, bind, gets, ret. simpl.
    destruct (Z.ltb_spec limit 0); [lia|]. reflexivity.
  - apply sql_run_info_answer. lia.
Qed.

(** The Postgres provider answers when a non-empty filter is given. *)
Lemma postgres_get_run_info_filtered (limit : Z) (log_type_filter : option string)
    (t : tables) :
  (1 <= limit)%Z → truthy_str log_type_filter = true →
  ∃ res, PostgresKVLoggingProvider.get_run_info limit log_type_filter t
         = (Ok res, t)
         ∧ run_info_answer limit log_type_filter (log_info_table t) res.
Proof.
  intros Hl Hf. eexists. split.
  - unfold PostgresKVLoggingProvider.get_run_info. rewrite Hf.
    unfold PostgresKVLoggingProvider.execute,
      PostgresKVLoggingProvider.limit_rows, bind, gets, ret. simpl.
    destruct (Z.ltb_spec limit 0); [lia|]. reflexivity.
  - pose proof (sql_run_info_answer limit log_type_filter (log_info_table t)) as H.
    rewrite Hf in H. apply H. lia.
Qed.

(** ** What [log] keeps true of the Redis lists *)

Lemma run_entries_lpush (st : redis) (now : instant) (log_id : uuid)
    (key value : string) (r : uuid) :
  run_entries
    (snd (RedisKVLoggingProvider.log now log_id key value false st)) r
  = if decide (r = log_id)
    then mkLogEntry now log_id key value None :: run_entries st log_id
    else run_entries st r.
Proof.
  unfold run_entries. simpl. destruct (decide (r = log_id)) as [->|Hne].
  - by rewrite lookup_insert_eq.
  - by rewrite lookup_insert_ne.
Qed.

Lemma run_entries_info (st : redis) (now : instant) (log_id : uuid)
    (key value : string) (r : uuid) :
  run_entries
    (snd (RedisKVLoggingProvider.log now log_id key value true st)) r
  = run_entries st r.
Proof.
  unfold RedisKVLoggingProvider.log. by destruct (str_contains "type" key).
Qed.

Lemma empty_redis_wf (now : instant) : redis_lists_wf now empty_redis.
Proof. intros r. unfold run_entries. simpl. rewrite lookup_empty. split; constructor. Qed.

Lemma redis_lists_wf_later (now now' : instant) (st : redis) :
  (now <= now')%Z → redis_lists_wf now st → redis_lists_wf now' st.
Proof.
  intros Hle Hwf r. destruct (Hwf r) as [Hall Hs]. split; [|done].
  eapply Forall_impl; [exact Hall|]. simpl. intros e [? ?]. split; [done|lia].
Qed.

(** A write at a time not before the earlier ones keeps the lists
    well-formed. *)
Lemma redis_log_wf (now now' : instant) (log_id : uuid) (key value : string)
    (is_info_log : bool) (st : redis) :
  (now <= now')%Z → redis_lists_wf now st →
  redis_lists_wf now'
    (snd (RedisKVLoggingProvider.log now' log_id key value is_info_log st)).
Proof.
  intros Hle Hwf r. apply (redis_lists_wf_later now now') in Hwf; [|done].
  destruct is_info_log.
  - rewrite run_entries_info. apply Hwf.
  - rewrite run_entries_lpush. destruct (decide (r = log_id)) as [->|]; [|apply Hwf].
    destruct (Hwf log_id) as [Hall Hs]. split.
    + constructor; [simpl; split; [done|lia]|done].
    + constructor; [done|]. eapply Forall_impl; [exact Hall|]. simpl. tauto.
Qed.

Lemma newest_first_is_newest_first {A} (ts : A → instant) (l : list A) :
  Sql.newest_first ts l → is_newest_first ts l = true.
Proof.
  induction 1 as [|x l Hl IH Hx]; [done|].
  destruct l as [|y l]; [done|].
  change (is_newest_first ts (x :: y :: l))
    with ((ts y <=? ts x)%Z && is_newest_first ts (y :: l)).
  apply andb_true_iff. split; [|done].
  apply Z.leb_le. by apply Forall_cons in Hx as [Hx _].
Qed.

(** Well-formed lists are ready for every run that has enough entries. *)
Lemma redis_wf_ready (now : instant) (st : redis) (n : nat) (r : uuid) :
  redis_lists_wf now st → (n ≤ length (run_entries st r))%nat →
  redis_run_ready st n r = true.
Proof.
  intros Hwf Hn. destruct (Hwf r) as [Hall Hs]. unfold redis_run_ready.
  rewrite !andb_true_iff. split; [split|].
  - by apply Nat.leb_le.
  - apply forallb_forall. intros e He. apply bool_decide_eq_true.
    rewrite Forall_forall in Hall. by apply Hall, list_elem_of_In.
  - by apply newest_first_is_newest_first.
Qed.

(** ** The same writes on two stores *)

Lemma replay_local_snoc ws w :
  replay_local (ws ++ [w])
  = add_log (write_row w) (replay_local ws).
Proof.
  unfold replay_local. rewrite foldl_app. simpl.
  by destruct w as [[[now id] k] v].
Qed.

Lemma replay_local_log_table ws :
  log_table (replay_local ws) = map write_row ws.
Proof.
  induction ws as [|w ws IH] using rev_ind; [done|].
  rewrite replay_local_snoc. simpl. by rewrite IH, List.map_app.
Qed.

Lemma replay_redis_snoc ws w :
  replay_redis (ws ++ [w])
  = snd (RedisKVLoggingProvider.log (write_time w) (write_run w) (snd (fst w))
           (snd w) false (replay_redis ws)).
Proof.
  unfold replay_redis. rewrite foldl_app. simpl.
  by destruct w as [[[now id] k] v].
Qed.

Lemma replay_redis_entries ws r :
  run_entries (replay_redis ws) r
  = rev (map write_entry (filter (λ w, write_run w = r) ws)).
Proof.
  induction ws as [|w ws IH] using rev_ind.
  - unfold run_entries. simpl. by rewrite lookup_empty.
  - rewrite replay_redis_snoc, run_entries_lpush, filter_app, filter_cons.
    simpl filter. destruct (decide (r = write_run w)) as [->|Hne].
    + rewrite decide_True by done. rewrite List.map_app, rev_app_distr. simpl.
      by rewrite IH.
    + rewrite decide_False by done. by rewrite app_nil_r, IH.
Qed.

Lemma filter_map_rows (r : uuid) ws :
  filter (λ x, lr_log_id x = r) (map write_row ws)
  = map write_row (filter (λ w, write_run w = r) ws).
Proof.
  induction ws as [|w ws IH]; [done|]. simpl. rewrite !filter_cons. simpl.
  destruct (decide (write_run w = r)); simpl; by rewrite IH.
Qed.

(** Rows in ascending order of time come out of the sort reversed. *)
Lemma insert_sorted_last {A} (ts : A → instant) (x : A) (l : list A) :
  Forall (λ y, (ts x < ts y)%Z) l →
  insert_sorted (λ x y, (ts y <=? ts x)%Z) x l = l ++ [x].
Proof.
  induction 1 as [|y l Hy Hl IH]; simpl; [done|].
  destruct (Z.leb_spec (ts y) (ts x)); [lia|]. by rewrite IH.
Qed.

Lemma order_by_desc_ascending {A} (ts : A → instant) (l : list A) :
  StronglySorted (λ x y, (ts x < ts y)%Z) l →
  Sql.order_by_desc ts l = rev l.
Proof.
  induction 1 as [|x l Hl IH Hx]; [done|].
  unfold Sql.order_by_desc in *. simpl. rewrite IH.
  apply insert_sorted_last. apply Forall_forall. intros y Hy.
  rewrite Forall_forall in Hx.
  apply Hx. by apply list_elem_of_In, in_rev, list_elem_of_In.
Qed.

Lemma StronglySorted_filter {A} (R : A → A → Prop) (P : A → Prop)
    `{∀ x, Decision (P x)} (l : list A) :
  StronglySorted R l → StronglySorted R (filter P l).
Proof.
  induction 1 as [|x l Hl IH Hx]; [constructor|].
  rewrite filter_cons. destruct (decide (P x)); [|done].
  constructor; [done|]. by apply Forall_filter_keep.
Qed.

Lemma StronglySorted_map {A B} (R : B → B → Prop) (f : A → B) (l : list A) :
  StronglySorted (λ x y, R (f x) (f y)) l → StronglySorted R (map f l).
Proof.
  induction 1 as [|x l Hl IH Hx]; simpl; constructor; [done|].
  apply Forall_forall. intros y Hy. rewrite Forall_forall in Hx.
  apply list_elem_of_In, in_map_iff in Hy as (z & <- & Hz).
  by apply Hx, list_elem_of_In.
Qed.

(** When the same ordinary writes, made at strictly increasing times,
    went to a SQL store and to the Redis store, the two answers of
    [get_logs] hold the same records for each requested run, in the
    same order. *)
Lemma get_logs_same_records (writes : list (instant * uuid * string * string))
    (run_ids : list uuid) (n : Z) (r : uuid) :
  StronglySorted (λ v w, (write_time v < write_time w)%Z) writes →
  (1 <= n)%Z → NoDup run_ids → r ∈ run_ids →
  returned_rows r
    (LocalKVLoggingProvider.get_logs_query run_ids n
       (log_table (replay_local writes)))
  = map entry_row
      (returned_entries r
         (flat_map
            (λ run_id,
               RedisKVLoggingProvider.lrange (replay_redis writes) run_id 0 (n - 1))
            run_ids)).
Proof.
  intros Hasc Hn Hnd Hr.
  rewrite sql_returned_rows by done.
  rewrite redis_returned_entries; [|done|done|].
  - unfold RedisKVLoggingProvider.lrange. fold (run_entries (replay_redis writes) r).
    rewrite redis_range_first by done. rewrite replay_redis_entries.
    unfold run_rows. rewrite replay_local_log_table.
    rewrite filter_map_rows.
    rewrite order_by_desc_ascending.
    + rewrite <- List.firstn_map, List.map_rev, List.map_map. reflexivity.
    + apply StronglySorted_map, StronglySorted_filter. exact Hasc.
  - intros id _. rewrite replay_redis_entries, Forall_forall. intros e He.
    apply list_elem_of_In, in_rev, in_map_iff in He as (w & <- & Hw).
    apply list_elem_of_In, list_elem_of_filter in Hw as [Hw _]. exact Hw.
Qed.

(** ** What the Redis [get_run_info] returns *)

Section RedisRunInfoAnswer.
Context (st : redis) (limit : Z) (log_type_filter : option string).
Hypothesis limit_pos : (1 <= limit)%Z.
Hypothesis info_wf : redis_info_wf st.

Local Abbreviation L := (Z.to_nat limit).
Local Abbreviation keep := (kept_infos st log_type_filter).

Lemma keep_app (a b : list uuid) : keep (a ++ b) = keep a ++ keep b.
Proof. unfold kept_infos. by rewrite omap_app, List.filter_app. Qed.

Lemma members_load (id : uuid) :
  id ∈ sorted_members st →
  ∃ info, RedisKVLoggingProvider.load_info st id = Ok info.
Proof.
  intros Hid. unfold sorted_members in Hid.
  apply list_elem_of_In, in_map_iff in Hid as ([id' score] & <- & Hin).
  apply list_elem_of_In in Hin. rewrite stable_sort_perm in Hin.
  destruct (info_wf _ _ Hin) as (e & t & He & Ht & _).
  unfold RedisKVLoggingProvider.load_info. simpl. rewrite He, Ht. eauto.
Qed.

Lemma zrevrange_batch (start : Z) :
  (0 <= start)%Z →
  RedisKVLoggingProvider.zrevrange st start
    (start + RedisKVLoggingProvider.count_per_batch - 1)
  = take 100 (drop (Z.to_nat start) (sorted_members st)).
Proof.
  intros Hs. unfold RedisKVLoggingProvider.zrevrange, sorted_members, redis_range,
    RedisKVLoggingProvider.count_per_batch.
  set (l := stable_sort _ _). set (len := Z.of_nat (length l)).
  destruct (Z.ltb_spec start 0); [lia|].
  destruct (Z.ltb_spec (start + 100 - 1) 0); [lia|].
  rewrite List.skipn_map, List.firstn_map. f_equal.
  destruct (_ || _) eqn:E.
  - apply orb_true_iff in E as [E|E].
    + apply Z.ltb_lt in E. rewrite drop_ge; [done|]. unfold len in E. lia.
    + apply Z.leb_le in E. rewrite drop_ge; [done|]. unfold len in E. lia.
  - apply orb_false_iff in E as [E1 E2].
    apply Z.ltb_ge in E1. apply Z.leb_gt in E2. simpl.
    destruct (Z.le_gt_cases (start + 100) len).
    + f_equal. lia.
    + rewrite !take_ge; [done| |]; rewrite length_drop; unfold len in *; lia.
Qed.

(** One batch: the list grows by the entries that pass the filter, up
    to the one that fills it. *)
Lemma scan_batch_keep (ids : list uuid) (acc : list RunInfo) :
  Forall (λ id, id ∈ sorted_members st) ids →
  (length acc < L)%nat →
  ∃ acc', RedisKVLoggingProvider.scan_batch st limit log_type_filter ids acc
          = Ok acc'
          ∧ take L acc' = take L (acc ++ keep ids)
          ∧ ((length acc' < L)%nat → acc' = acc ++ keep ids).
Proof.
  intros Hids. revert acc. induction Hids as [|id ids Hid Hids IH]; intros acc Hacc.
  - exists acc. unfold kept_infos. simpl. by rewrite app_nil_r.
  - destruct (members_load id Hid) as [info Hinfo].
    assert (keep (id :: ids)
            = (if passes_filter log_type_filter info then [info] else [])
              ++ keep ids) as Hkeep.
    { unfold kept_infos. simpl. unfold load_some at 1. rewrite Hinfo. simpl.
      by destruct (passes_filter log_type_filter info). }
    rewrite Hkeep. simpl. rewrite Hinfo.
    set (acc1 := if truthy_str log_type_filter then _ else _).
    assert (acc1 = acc ++ (if passes_filter log_type_filter info then [info] else []))
      as Hacc1.
    { unfold acc1, passes_filter. destruct (truthy_str log_type_filter); [|done].
      destruct (bool_decide _); [done|by rewrite app_nil_r]. }
    clearbody acc1. subst acc1.
    destruct (passes_filter log_type_filter info) eqn:Hpass.
    + destruct (Z.leb_spec limit (Z.of_nat (length (acc ++ [info])))) as [Hfull|Hmore].
      * eexists. split; [reflexivity|]. rewrite length_app in Hfull. simpl in Hfull.
        split; [|rewrite length_app; simpl; lia].
        rewrite app_assoc.
        rewrite (take_app_le (acc ++ [info])); [done|].
        rewrite length_app. simpl. lia.
      * destruct (IH (acc ++ [info])) as (acc' & Hscan & Htake & Hall).
        { lia. }
        exists acc'. split; [done|]. by rewrite app_assoc.
    + rewrite app_nil_r. simpl.
      destruct (Z.leb_spec limit (Z.of_nat (length acc))); [lia|].
      by apply IH.
Qed.

Lemma loop_answer (fuel : nat) (start : nat) (acc : list RunInfo) :
  (RedisKVLoggingProvider.passes_left st (Z.of_nat start) ≤ fuel)%nat →
  take L acc = take L (keep (take start (sorted_members st))) →
  ((length acc < L)%nat → acc = keep (take start (sorted_members st))) →
  RedisKVLoggingProvider.get_run_info_loop fuel st limit log_type_filter
    (Z.of_nat start) acc
  = Some (Ok (take L (keep (sorted_members st)))).
Proof.
  revert start acc. induction fuel as [|fuel IH]; intros start acc Hf Htake Hall.
  - unfold RedisKVLoggingProvider.passes_left in Hf. lia.
  - assert (Hslice : RedisKVLoggingProvider.slice_to limit acc = take L acc).
    { unfold RedisKVLoggingProvider.slice_to.
      destruct (Z.ltb_spec limit 0); [lia|done]. }
    assert (Hsplit : keep (sorted_members st)
                     = keep (take start (sorted_members st))
                       ++ keep (drop start (sorted_members st))).
    { by rewrite <- keep_app, take_drop. }
    cbn [RedisKVLoggingProvider.get_run_info_loop].
    destruct (Z.ltb_spec (Z.of_nat (length acc)) limit) as [Hlt|Hge].
    + specialize (Hall ltac:(lia)).
      rewrite zrevrange_batch by lia. rewrite Nat2Z.id.
      destruct (take 100 (drop start (sorted_members st))) as [|id ids] eqn:Hbatch.
      * assert (drop start (sorted_members st) = []) as Hdrop.
        { destruct (drop start (sorted_members st)); [done|discriminate]. }
        rewrite Hslice, Hsplit, Hdrop, Hall. simpl. by rewrite app_nil_r.
      * rewrite <- Hbatch.
        destruct (scan_batch_keep (take 100 (drop start (sorted_members st))) acc)
          as (acc' & Hscan & Htake' & Hall'); [|lia|].
        { rewrite Forall_forall. intros x Hx.
          apply take_elem_of in Hx. rewrite <- (take_drop start (sorted_members st)).
          apply elem_of_app. by right. }
        rewrite Hscan.
        assert (Hnext : take (start + 100) (sorted_members st)
                        = take start (sorted_members st)
                          ++ take 100 (drop start (sorted_members st))).
        { by rewrite take_take_drop. }
        replace (Z.of_nat start + RedisKVLoggingProvider.count_per_batch)%Z
          with (Z.of_nat (start + 100))
          by (unfold RedisKVLoggingProvider.count_per_batch; lia).
        apply IH.
        -- assert (start < length (sorted_members st))%nat as Hlen.
           { destruct (decide (start < length (sorted_members st))%nat); [done|].
             rewrite drop_ge in Hbatch by lia. by rewrite take_nil in Hbatch. }
           unfold sorted_members in Hlen. rewrite List.length_map in Hlen.
           rewrite (Permutation_length (stable_sort_perm _ _)) in Hlen.
           unfold RedisKVLoggingProvider.passes_left in *.
           replace (Z.of_nat (length (info_sorted st)) - Z.of_nat (start + 100) + 99)%Z
             with ((Z.of_nat (length (info_sorted st)) - Z.of_nat start + 99)
                   + (-1) * 100)%Z by lia.
           rewrite Z.div_add by lia.
           assert (1 <= (Z.of_nat (length (info_sorted st)) - Z.of_nat start + 99) / 100)%Z.
           { apply Z.div_le_lower_bound; lia. }
           lia.
        -- by rewrite Hnext, keep_app, <- Hall.
        -- intros Hlt'. rewrite Hnext, keep_app, <- Hall. by apply Hall'.
    + rewrite Hslice, Htake, Hsplit. f_equal. f_equal.
      rewrite take_app_le; [done|].
      assert (L ≤ length (take L acc))%nat as Hlen by (rewrite length_take; lia).
      rewrite Htake, length_take in Hlen. lia.
Qed.

(** On a store whose sorted set and hash agree, [get_run_info] returns
    normally: the first [limit] entries, in descending order of score,
    of those that pass the filter. *)
Lemma redis_get_run_info_answer :
  RedisKVLoggingProvider.get_run_info limit log_type_filter st
  = (Ok (take L (kept_infos st log_type_filter (sorted_members st))), st).
Proof.
  unfold RedisKVLoggingProvider.get_run_info,
    RedisKVLoggingProvider.get_run_info_fuel.
  change 0%Z with (Z.of_nat 0).
  rewrite (loop_answer (RedisKVLoggingProvider.enough_fuel st) 0 []); [done| | |].
  - apply enough_fuel_passes.
  - by rewrite take_0.
  - by rewrite take_0.
Qed.
End RedisRunInfoAnswer.

Lemma zrev_before_total (x y : uuid * instant) :
  RedisKVLoggingProvider.zrev_before x y = true
  ∨ RedisKVLoggingProvider.zrev_before y x = true.
Proof.
  unfold RedisKVLoggingProvider.zrev_before.
  rewrite !orb_true_iff, !andb_true_iff, !Z.ltb_lt, !Z.eqb_eq, !N.leb_le. lia.
Qed.

Lemma zrev_before_trans (x y z : uuid * instant) :
  RedisKVLoggingProvider.zrev_before x y = true →
  RedisKVLoggingProvider.zrev_before y z = true →
  RedisKVLoggingProvider.zrev_before x z = true.
Proof.
  unfold RedisKVLoggingProvider.zrev_before.
  rewrite !orb_true_iff, !andb_true_iff, !Z.ltb_lt, !Z.eqb_eq, !N.leb_le. lia.
Qed.

(** [ZREVRANGE] lists the members by descending score. *)
Lemma zrevrange_order (st : redis) :
  Sql.newest_first snd
    (stable_sort RedisKVLoggingProvider.zrev_before (info_sorted st)).
Proof.
  pose proof (stable_sort_sorted RedisKVLoggingProvider.zrev_before
                zrev_before_total zrev_before_trans (info_sorted st)) as H.
  unfold Sql.newest_first. induction H as [|x l Hl IH Hx]; constructor; [done|].
  eapply Forall_impl; [exact Hx|]. intros y. simpl.
  unfold RedisKVLoggingProvider.zrev_before.
  rewrite orb_true_iff, andb_true_iff, Z.ltb_lt, Z.eqb_eq. lia.
Qed.

Lemma empty_redis_info_wf : redis_info_wf empty_redis.
Proof. intros id score H. by apply not_elem_of_nil in H. Qed.

(** Every write keeps the hash and the sorted set in agreement. *)
Lemma redis_log_info_wf (now : instant) (log_id : uuid) (key value : string)
    (is_info_log : bool) (st : redis) :
  redis_info_wf st →
  redis_info_wf
    (snd (RedisKVLoggingProvider.log now log_id key value is_info_log st)).
Proof.
  intros Hwf. unfold RedisKVLoggingProvider.log.
  destruct is_info_log; [|exact Hwf].
  destruct (str_contains "type" key); [|exact Hwf].
  unfold bind, RedisKVLoggingProvider.hset, RedisKVLoggingProvider.zadd, modify.
  intros id score Hin. simpl in Hin |- *.
  apply elem_of_app in Hin as [Hin|Hin].
  - apply list_elem_of_filter in Hin as [Hne Hin]. simpl in Hne.
    rewrite lookup_insert_ne by done. by apply Hwf.
  - apply list_elem_of_singleton in Hin as [= -> ->].
    rewrite lookup_insert_eq. eexists _, _. split; [reflexivity|]. done.
Qed.

(** ** The matches of the error-code pattern *)

Lemma three_digits_here_spec (s m : string) :
  three_digits_here s = Some m →
  ∃ post, s = (m ++ post)%string ∧ three_digits m ∧ first_is_word post = false.
Proof.
  destruct s as [|a [|b [|c rest]]]; try done. simpl.
  destruct (is_digit a) eqn:Ha; [|done]. destruct (is_digit b) eqn:Hb; [|done].
  destruct (is_digit c) eqn:Hc; [|done]. simpl.
  destruct rest as [|d rest].
  - intros [= <-]. exists EmptyString. split; [done|]. split; [|done].
    by exists a, b, c.
  - destruct (is_word d) eqn:Hd; [done|]. simpl. intros [= <-].
    exists (String d rest). split; [done|]. split; [by exists a, b, c|done].
Qed.

(** Every string [findall] returns is three digits standing in the text
    between two word boundaries. *)
Lemma findall_from_sound (skip : nat) (prev_word : bool) (s m : string) :
  m ∈ findall_from skip prev_word s →
  ∃ pre post, s = (pre ++ m ++ post)%string ∧ three_digits m
              ∧ last_is_word prev_word pre = false
              ∧ first_is_word post = false.
Proof.
  revert skip prev_word. induction s as [|c rest IH]; intros skip prev_word Hm.
  - by apply not_elem_of_nil in Hm.
  - assert (Hrest : ∀ k, m ∈ findall_from k (is_word c) rest →
              ∃ pre post, String c rest = (pre ++ m ++ post)%string
                          ∧ three_digits m
                          ∧ last_is_word prev_word pre = false
                          ∧ first_is_word post = false).
    { intros k Hk. destruct (IH _ _ Hk) as (pre & post & -> & H3 & Hl & Hf).
      exists (String c pre), post.
      split; [reflexivity|]. split; [done|]. split; [exact Hl|exact Hf]. }
    cbn [findall_from] in Hm. destruct skip as [|k]; [|by apply (Hrest k)].
    destruct prev_word; [by apply (Hrest 0)|].
    destruct (three_digits_here (String c rest)) as [m'|] eqn:Hhere;
      [|by apply (Hrest 0)].
    apply elem_of_cons in Hm as [->|Hm]; [|by apply (Hrest 2)].
    destruct (three_digits_here_spec _ _ Hhere) as (post & Hs & H3 & Hf).
    exists EmptyString, post.
    split; [exact Hs|]. split; [done|]. split; [reflexivity|exact Hf].
Qed.

Lemma findall_3digit_sound (s m : string) :
  m ∈ findall_3digit s →
  ∃ pre post, s = (pre ++ m ++ post)%string ∧ three_digits m
              ∧ last_is_word false pre = false
              ∧ first_is_word post = false.
Proof. apply findall_from_sound. Qed.

(** * Further properties *)

(** ** Writing a record and reading it back *)

Lemma order_by_desc_newest_last {A} (ts : A → instant) (l : list A) (x : A) :
  Forall (λ y, (ts y < ts x)%Z) l →
  Sql.order_by_desc ts (l ++ [x]) = x :: Sql.order_by_desc ts l.
Proof.
  unfold Sql.order_by_desc. induction 1 as [|y l Hy Hl IH]; [done|].
  simpl. rewrite IH. simpl. destruct (Z.leb_spec (ts x) (ts y)); [lia|done].
Qed.

Lemma run_rows_add (id : uuid) (row : LogRow) (rows : list LogRow) :
  lr_log_id row = id → run_rows id (rows ++ [row]) = run_rows id rows ++ [row].
Proof.
  intros Hid. unfold run_rows. rewrite filter_app, filter_cons.
  by rewrite decide_True.
Qed.

Lemma sql_read_back (now : instant) (id : uuid) (key value : string)
    (t : tables) (run_ids : list uuid) (n : Z) :
  (1 <= n)%Z → id ∈ run_ids →
  Forall (λ r, (lr_timestamp r < now)%Z) (run_rows id (log_table t)) →
  returned_rows id
    (LocalKVLoggingProvider.get_logs_query run_ids n
       (log_table (add_log (mkLogRow now id key value) t)))
  = mkLogRow now id key value
    :: take (Z.to_nat n - 1)
         (Sql.order_by_desc lr_timestamp (run_rows id (log_table t))).
Proof.
  intros Hn Hid Hnew. rewrite sql_returned_rows by done. simpl.
  rewrite run_rows_add by done.
  rewrite (order_by_desc_newest_last lr_timestamp) by done.
  replace (Z.to_nat n) with (S (Z.to_nat n - 1)) at 1 by lia. done.
Qed.

(** X1. On both SQL providers, an ordinary [log] at a time later than
    every stored record of that run succeeds and appends the row; a
    [get_logs] that asks for the run with a limit of at least one then
    lists the new record first among that run's records, followed by
    what stood first before. *)
Theorem sql_log_then_get_logs (now : instant) (id : uuid) (key value : string)
    (t : tables) (run_ids : list uuid) (n : Z) :
  (1 <= n)%Z → id ∈ run_ids →
  Forall (λ r, (lr_timestamp r < now)%Z) (run_rows id (log_table t)) →
  let row := mkLogRow now id key value in
  let t' := add_log row t in
  let answer :=
    row :: take (Z.to_nat n - 1)
             (Sql.order_by_desc lr_timestamp (run_rows id (log_table t))) in
  LocalKVLoggingProvider.log now id key value false t = (Ok tt, t')
  ∧ PostgresKVLoggingProvider.log now id key value false t = (Ok tt, t')
  ∧ (∃ res, LocalKVLoggingProvider.get_logs run_ids n t' = (Ok res, t')
            ∧ returned_rows id res = answer)
  ∧ (∃ res, PostgresKVLoggingProvider.get_logs run_ids n t' = (Ok res, t')
            ∧ returned_rows id res = answer).
Proof.
  intros Hn Hid Hnew row t' answer.
  assert (run_ids ≠ []) as Hne by (intros ->; by apply not_elem_of_nil in Hid).
  split; [reflexivity|]. split; [reflexivity|]. split.
  - eexists. split; [by apply local_get_logs_ok|]. by apply sql_read_back.
  - eexists. split; [by apply postgres_get_logs_ok|]. by apply sql_read_back.
Qed.

Lemma sql_log_then_get_logs_witness :
  ∃ res, LocalKVLoggingProvider.get_logs [7%N; 8%N] 2%Z
           (add_log (mkLogRow 60%Z 7%N "search_query" "q4") sample_tables)
         = (Ok res, add_log (mkLogRow 60%Z 7%N "search_query" "q4") sample_tables)
         ∧ returned_rows 7%N res
           = [mkLogRow 60%Z 7%N "search_query" "q4";
              mkLogRow 40%Z 7%N "search_query" "q3"].
Proof.
  destruct (sql_log_then_get_logs 60%Z 7%N "search_query" "q4" sample_tables
              [7%N; 8%N] 2%Z) as (_ & _ & Hlocal & _).
  - lia.
  - by left.
  - repeat constructor.
  - exact Hlocal.
Defined.

(** X2. On the Redis provider an ordinary [log] always succeeds and
    pushes the entry on the head of the run's list, whatever the clock
    shows: for a limit of at least one, [get_logs] for that run returns
    the new entry first, then the entries that stood first before. *)
Theorem redis_log_then_get_logs (now : instant) (id : uuid) (key value : string)
    (st : redis) (n : Z) :
  (1 <= n)%Z →
  let entry := mkLogEntry now id key value None in
  let st' := snd (RedisKVLoggingProvider.log now id key value false st) in
  RedisKVLoggingProvider.log now id key value false st = (Ok tt, st')
  ∧ run_entries st' id = entry :: run_entries st id
  ∧ RedisKVLoggingProvider.get_logs [id] n st'
    = (Ok (entry :: take (Z.to_nat n - 1) (run_entries st id)), st').
Proof.
  intros Hn entry st'. split; [reflexivity|].
  assert (run_entries st' id = entry :: run_entries st id) as Hrun.
  { unfold st'. rewrite run_entries_lpush. by rewrite decide_True. }
  split; [done|].
  unfold RedisKVLoggingProvider.get_logs, bind, gets, ret. simpl flat_map.
  unfold RedisKVLoggingProvider.lrange. fold (run_entries st' id).
  rewrite redis_range_first by done. rewrite Hrun, app_nil_r.
  replace (Z.to_nat n) with (S (Z.to_nat n - 1)) at 1 by lia. done.
Qed.

Lemma redis_log_then_get_logs_witness :
  RedisKVLoggingProvider.get_logs [7%N] 2%Z
    (snd (RedisKVLoggingProvider.log 5%Z 7%N "search_query" "late" false
            sample_redis))
  = (Ok [mkLogEntry 5%Z 7%N "search_query" "late" None;
         mkLogEntry 40%Z 7%N "search_query" "q3" None],
     snd (RedisKVLoggingProvider.log 5%Z 7%N "search_query" "late" false
            sample_redis)).
Proof.
  destruct (redis_log_then_get_logs 5%Z 7%N "search_query" "late" sample_redis
              2%Z) as (_ & _ & H); [lia|].
  exact H.
Defined.

(** ** What [get_logs] leaves out *)

Lemma number_from_elem {A} (k : Z) (l : list A) (x : A) (j : Z) :
  (x, j) ∈ Sql.number_from k l → x ∈ l ∧ (k <= j)%Z.
Proof.
  revert k. induction l as [|y l IH]; intros k H; simpl in H.
  - by apply not_elem_of_nil in H.
  - apply elem_of_cons in H as [[= -> ->]|H].
    + split; [by left|lia].
    + apply IH in H as [? ?]. split; [by right|lia].
Qed.

Lemma get_logs_query_elem (run_ids : list uuid) (n : Z) (rows : list LogRow)
    (row : LogRow) (rn : Z) :
  (row, rn) ∈ LocalKVLoggingProvider.get_logs_query run_ids n rows →
  lr_log_id row ∈ run_ids ∧ row ∈ rows ∧ (1 <= rn <= n)%Z.
Proof.
  unfold LocalKVLoggingProvider.get_logs_query. rewrite order_by_desc_perm.
  intros H. apply list_elem_of_filter in H as [Hrn H]. simpl in Hrn.
  unfold Sql.row_number_over in H.
  apply list_elem_of_In, in_flat_map in H as (id & _ & H).
  apply list_elem_of_In, number_from_elem in H as [H Hk].
  rewrite order_by_desc_perm in H.
  apply list_elem_of_filter in H as [_ H].
  apply list_elem_of_filter in H as [Hid H]. split; [done|]. split; [done|lia].
Qed.

Lemma sql_get_logs_result (run_ids : list uuid) (n : Z) (t t' : tables)
    (res : list ranked_row) :
  LocalKVLoggingProvider.get_logs run_ids n t = (Ok res, t')
  ∨ PostgresKVLoggingProvider.get_logs run_ids n t = (Ok res, t') →
  t' = t ∧ res = LocalKVLoggingProvider.get_logs_query run_ids n (log_table t).
Proof.
  destruct run_ids as [|r ids]; [by intros [?|?]|].
  rewrite local_get_logs_ok, postgres_get_logs_ok by done.
  intros [[= <- <-]|[= <- <-]]; done.
Qed.

(** X3. A [get_logs] of a SQL provider that returns changes no table,
    and every row of its answer is a stored row of a requested run with
    a rank between 1 and the limit; a requested run with no more rows
    than the limit is returned in full. *)
Theorem sql_get_logs_only_requested (run_ids : list uuid) (n : Z)
    (t t' : tables) (res : list ranked_row) :
  LocalKVLoggingProvider.get_logs run_ids n t = (Ok res, t')
  ∨ PostgresKVLoggingProvider.get_logs run_ids n t = (Ok res, t') →
  t' = t
  ∧ (∀ row rn, (row, rn) ∈ res →
       lr_log_id row ∈ run_ids ∧ row ∈ log_table t ∧ (1 <= rn <= n)%Z)
  ∧ (∀ r, r ∈ run_ids →
       (Z.of_nat (length (returned_rows r res)) <= Z.max 0 n)%Z
       ∧ ((Z.of_nat (length (run_rows r (log_table t))) <= n)%Z →
          returned_rows r res ≡ₚ run_rows r (log_table t))).
Proof.
  intros H. apply sql_get_logs_result in H as [-> ->]. split; [done|]. split.
  - intros row rn. apply get_logs_query_elem.
  - intros r Hr. rewrite sql_returned_rows by done. split.
    + rewrite length_take. lia.
    + intros Hlen. rewrite take_ge.
      * apply order_by_desc_perm.
      * rewrite (Permutation_length (order_by_desc_perm _ _)). lia.
Qed.

Lemma sql_get_logs_only_requested_witness :
  returned_rows 8%N
    (LocalKVLoggingProvider.get_logs_query [8%N] 5%Z (log_table sample_tables))
  ≡ₚ run_rows 8%N (log_table sample_tables).
Proof.
  destruct (sql_get_logs_only_requested [8%N] 5%Z sample_tables sample_tables
              (LocalKVLoggingProvider.get_logs_query [8%N] 5%Z
                 (log_table sample_tables)))
    as (_ & _ & H).
  - left. reflexivity.
  - destruct (H 8%N) as [_ Hfull]; [by left|]. apply Hfull.
    vm_compute. discriminate.
Defined.

(** X4. Every entry the Redis [get_logs] returns is stored in the list
    of one of the listed run ids, the store is unchanged, and for a
    limit of at least one the answer holds at most the limit times the
    number of listed ids entries. *)
Theorem redis_get_logs_only_requested (run_ids : list uuid) (n : Z)
    (st : redis) :
  ∃ res, RedisKVLoggingProvider.get_logs run_ids n st = (Ok res, st)
         ∧ (∀ e, e ∈ res → ∃ id, id ∈ run_ids ∧ e ∈ run_entries st id)
         ∧ ((1 <= n)%Z →
            (length res ≤ Z.to_nat n * length run_ids)%nat).
Proof.
  eexists. split; [reflexivity|]. split.
  - intros e He. apply list_elem_of_In, in_flat_map in He as (r & Hr & He).
    exists r. split; [by apply list_elem_of_In|].
    apply list_elem_of_In in He. change (e ∈ redis_range (run_entries st r) 0 (n - 1)) in He.
    assert (Forall (λ x, x ∈ run_entries st r) (run_entries st r)) as Hall
      by (by apply Forall_forall).
    apply (redis_range_Forall _ _ 0 (n - 1)) in Hall.
    rewrite Forall_forall in Hall. by apply Hall.
  - intros Hn. induction run_ids as [|r ids IH]; simpl; [lia|].
    rewrite length_app. unfold RedisKVLoggingProvider.lrange at 1.
    rewrite redis_range_first by done. rewrite length_take. simpl in IH. lia.
Qed.

Lemma redis_range_nonpositive {A} (l : list A) (n : Z) :
  (n <= 0)%Z →
  redis_range l 0 (n - 1) = take (Z.to_nat (Z.of_nat (length l) + n)) l.
Proof.
  intros Hn. unfold redis_range. change (0 <? 0)%Z with false. cbv iota.
  destruct (Z.ltb_spec (n - 1) 0); [|lia].
  set (len := Z.of_nat (length l)).
  destruct (_ || _) eqn:E.
  - apply orb_true_iff in E as [E|E].
    + apply Z.ltb_lt in E. replace (Z.to_nat (len + n)) with O by lia. done.
    + apply Z.leb_le in E. destruct l; [by rewrite take_nil|].
      unfold len in E. simpl in E. lia.
  - apply orb_false_iff in E as [E1 E2].
    apply Z.ltb_ge in E1. apply Z.leb_gt in E2.
    change (Z.to_nat 0) with O. rewrite drop_0. f_equal. lia.
Qed.

(** X5. A limit that is not positive.  The SQL providers then return no
    row at all.  The Redis provider returns, for a limit [n <= 0], each
    listed run's list without its last [-n] entries: the whole list for
    the limit 0. *)
Theorem get_logs_nonpositive_limit (run_ids : list uuid) (n : Z) (t : tables)
    (st : redis) :
  (n <= 0)%Z → run_ids ≠ [] →
  LocalKVLoggingProvider.get_logs run_ids n t = (Ok [], t)
  ∧ PostgresKVLoggingProvider.get_logs run_ids n t = (Ok [], t)
  ∧ RedisKVLoggingProvider.get_logs run_ids n st
    = (Ok (flat_map
             (λ id, take (Z.to_nat (Z.of_nat (length (run_entries st id)) + n))
                      (run_entries st id))
             run_ids),
       st).
Proof.
  intros Hn Hne.
  assert (LocalKVLoggingProvider.get_logs_query run_ids n (log_table t) = [])
    as Hempty.
  { destruct (LocalKVLoggingProvider.get_logs_query run_ids n (log_table t))
      as [|[row rn] res] eqn:Hq; [done|].
    assert ((row, rn) ∈ LocalKVLoggingProvider.get_logs_query run_ids n
                          (log_table t)) as Hin by (rewrite Hq; by left).
    apply get_logs_query_elem in Hin as (_ & _ & ?). lia. }
  rewrite local_get_logs_ok, postgres_get_logs_ok, Hempty by done.
  split; [done|]. split; [done|].
  unfold RedisKVLoggingProvider.get_logs, bind, gets, ret. simpl. f_equal. f_equal.
  apply flat_map_ext. intros id. unfold RedisKVLoggingProvider.lrange.
  by rewrite redis_range_nonpositive.
Qed.

Lemma get_logs_nonpositive_limit_witness :
  LocalKVLoggingProvider.get_logs [7%N] 0%Z sample_tables = (Ok [], sample_tables)
  ∧ RedisKVLoggingProvider.get_logs [7%N] 0%Z sample_redis
    = (Ok [mkLogEntry 40%Z 7%N "search_query" "q3" None;
           mkLogEntry 30%Z 7%N "error" "code 503" None;
           mkLogEntry 10%Z 7%N "search_query" "q1" None], sample_redis)
  ∧ RedisKVLoggingProvider.get_logs [7%N] (-1)%Z sample_redis
    = (Ok [mkLogEntry 40%Z 7%N "search_query" "q3" None;
           mkLogEntry 30%Z 7%N "error" "code 503" None], sample_redis).
Proof.
  destruct (get_logs_nonpositive_limit [7%N] 0%Z sample_tables sample_redis)
    as (Hlocal & _ & Hredis); [lia|discriminate|].
  destruct (get_logs_nonpositive_limit [7%N] (-1)%Z sample_tables sample_redis)
    as (_ & _ & Hredis'); [lia|discriminate|].
  split; [exact Hlocal|]. split; [exact Hredis|exact Hredis'].
Defined.

(** ** Info records *)

Lemma str_contains_type_iff (key : string) :
  str_contains "type" key = false
  ↔ ¬ ∃ pre post, key = (pre ++ "type" ++ post)%string.
Proof.
  rewrite <- str_contains_spec. by destruct (str_contains "type" key).
Qed.

(** X6. On each provider an info write is refused with [ValueError]
    exactly when the key does not contain the text ["type"]: a key that
    contains it is never refused that way. *)
Theorem info_log_value_error_iff (now : instant) (id : uuid)
    (key value : string) (t : tables) (st : redis) :
  ((∃ msg t', LocalKVLoggingProvider.log now id key value true t
              = (Raise (Exn ValueError msg), t'))
   ↔ ¬ ∃ pre post, key = (pre ++ "type" ++ post)%string)
  ∧ ((∃ msg t', PostgresKVLoggingProvider.log now id key value true t
                = (Raise (Exn ValueError msg), t'))
     ↔ ¬ ∃ pre post, key = (pre ++ "type" ++ post)%string)
  ∧ ((∃ msg st', RedisKVLoggingProvider.log now id key value true st
                 = (Raise (Exn ValueError msg), st'))
     ↔ ¬ ∃ pre post, key = (pre ++ "type" ++ post)%string).
Proof.
  rewrite <- str_contains_type_iff.
  unfold LocalKVLoggingProvider.log, PostgresKVLoggingProvider.log,
    RedisKVLoggingProvider.log.
  destruct (str_contains "type" key); simpl.
  - repeat split; try done; intros (msg & s' & H); exfalso; revert H.
    + unfold LocalKVLoggingProvider.execute, LocalKVLoggingProvider.insert_info.
      simpl. by destruct (bool_decide (id ∈ map ir_log_id (log_info_table t))).
    + unfold PostgresKVLoggingProvider.execute,
        PostgresKVLoggingProvider.insert_info.
      simpl. by destruct (bool_decide (id ∈ map ir_log_id (log_info_table t))).
    + done.
  - repeat split; intros _; eexists _, _; reflexivity.
Qed.

Lemma add_info_ids (row : InfoRow) (t : tables) :
  map ir_log_id (log_info_table (add_info row t))
  = map ir_log_id (log_info_table t) ++ [ir_log_id row].
Proof. simpl. by rewrite List.map_app. Qed.

(** X7. The run-info table of a SQL provider takes one row per run.
    With a key that contains ["type"], an info write for a run that has
    no row yet appends the row [(now, id, value)]; one for a run that
    has a row raises a database error and changes nothing.  No write,
    ordinary or info, ever leaves two rows for one run. *)
Theorem sql_info_log_once (now : instant) (id : uuid) (key value : string)
    (is_info_log : bool) (t : tables) :
  (str_contains "type" key = true →
   (id ∉ map ir_log_id (log_info_table t) →
    LocalKVLoggingProvider.log now id key value true t
    = (Ok tt, add_info (mkInfoRow now id value) t)
    ∧ PostgresKVLoggingProvider.log now id key value true t
      = (Ok tt, add_info (mkInfoRow now id value) t))
   ∧ (id ∈ map ir_log_id (log_info_table t) →
      (∃ msg, LocalKVLoggingProvider.log now id key value true t
              = (Raise (Exn DatabaseError msg), t))
      ∧ (∃ msg, PostgresKVLoggingProvider.log now id key value true t
                = (Raise (Exn DatabaseError msg), t))))
  ∧ (NoDup (map ir_log_id (log_info_table t)) →
     NoDup (map ir_log_id
              (log_info_table
                 (snd (LocalKVLoggingProvider.log now id key value is_info_log t))))
     ∧ NoDup (map ir_log_id
                (log_info_table
                   (snd (PostgresKVLoggingProvider.log now id key value
                           is_info_log t))))).
Proof.
  split.
  - intros Hkey. unfold LocalKVLoggingProvider.log, PostgresKVLoggingProvider.log.
    rewrite Hkey.
    unfold LocalKVLoggingProvider.execute, PostgresKVLoggingProvider.execute,
      LocalKVLoggingProvider.insert_info, PostgresKVLoggingProvider.insert_info.
    simpl. split; intros Hid.
    + by rewrite bool_decide_eq_false_2.
    + rewrite bool_decide_eq_true_2 by done. eauto.
  - intros Hnd. unfold LocalKVLoggingProvider.log, PostgresKVLoggingProvider.log.
    destruct is_info_log; [|done].
    destruct (str_contains "type" key); [|done].
    unfold LocalKVLoggingProvider.execute, PostgresKVLoggingProvider.execute,
      LocalKVLoggingProvider.insert_info, PostgresKVLoggingProvider.insert_info.
    simpl.
    destruct (bool_decide_reflect (id ∈ map ir_log_id (log_info_table t)));
      [done|].
    simpl. rewrite List.map_app. simpl.
    assert (NoDup (map ir_log_id (log_info_table t) ++ [id])); [|done].
    apply NoDup_app. split; [done|]. split; [|apply NoDup_singleton].
    intros x Hx Hx'. apply list_elem_of_singleton in Hx'. by subst.
Qed.

Lemma sql_info_log_once_witness :
  (∃ msg, LocalKVLoggingProvider.log 40%Z 7%N "pipeline_type" "search" true
            sample_info_tables
          = (Raise (Exn DatabaseError msg), sample_info_tables))
  ∧ LocalKVLoggingProvider.log 40%Z 11%N "pipeline_type" "search" true
      sample_info_tables
    = (Ok tt, add_info (mkInfoRow 40%Z 11%N "search") sample_info_tables).
Proof.
  destruct (sql_info_log_once 40%Z 7%N "pipeline_type" "search" true
              sample_info_tables) as [H _].
  destruct (H eq_refl) as [_ Hdup].
  destruct (sql_info_log_once 40%Z 11%N "pipeline_type" "search" true
              sample_info_tables) as [H' _].
  destruct (H' eq_refl) as [Hfresh _].
  split.
  - apply Hdup.
    apply (bool_decide_unpack
             (7%N ∈ map ir_log_id (log_info_table sample_info_tables))).
    reflexivity.
  - apply Hfresh.
    apply (bool_decide_unpack
             (11%N ∉ map ir_log_id (log_info_table sample_info_tables))).
    reflexivity.
Defined.

Lemma stable_sort_snoc_first {A} (before : A → A → bool) (l : list A) (x : A) :
  Forall (λ y, before y x = false) l →
  stable_sort before (l ++ [x]) = x :: stable_sort before l.
Proof.
  induction 1 as [|y l Hy Hl IH]; [done|]. simpl. rewrite IH. simpl.
  by rewrite Hy.
Qed.

Lemma NoDup_map_fst_filter {A B} (P : A * B → Prop) `{∀ x, Decision (P x)}
    (l : list (A * B)) :
  NoDup (map fst l) → NoDup (map fst (filter P l)).
Proof.
  induction l as [|x l IH]; [done|]. simpl. intros Hnd.
  apply NoDup_cons in Hnd as [Hx Hnd]. rewrite filter_cons.
  destruct (decide (P x)); [|by apply IH]. simpl. apply NoDup_cons.
  split; [|by apply IH]. intros Hin. apply Hx.
  apply list_elem_of_In, in_map_iff in Hin as (y & Hy & Hin).
  apply list_elem_of_In, list_elem_of_filter in Hin as [_ Hin].
  apply list_elem_of_In, in_map_iff. exists y. split; [done|].
  by apply list_elem_of_In.
Qed.

Lemma redis_info_log_state (now : instant) (id : uuid) (key value : string)
    (st : redis) :
  str_contains "type" key = true →
  snd (RedisKVLoggingProvider.log now id key value true st)
  = mkRedis (run_lists st)
      (<[id := mkLogEntry now id key value (Some value)]> (info_hash st))
      (filter (λ m, fst m ≠ id) (info_sorted st) ++ [(id, now)]).
Proof. intros Hkey. unfold RedisKVLoggingProvider.log. by rewrite Hkey. Qed.

(** X8. On the Redis provider an info write is an upsert.  Every write
    keeps the sorted set and the hash in agreement and the members of
    the sorted set distinct; after an info write with a key that
    contains ["type"], the run is a member with the write time as its
    only score and its stored run information is [(id, value)]. *)
Theorem redis_info_log_upsert (now : instant) (id : uuid) (key value : string)
    (is_info_log : bool) (st : redis) :
  redis_info_wf st → NoDup (map fst (info_sorted st)) →
  let st' :=
    snd (RedisKVLoggingProvider.log now id key value is_info_log st) in
  redis_info_wf st'
  ∧ NoDup (map fst (info_sorted st'))
  ∧ (is_info_log = true → str_contains "type" key = true →
     RedisKVLoggingProvider.log now id key value is_info_log st = (Ok tt, st')
     ∧ RedisKVLoggingProvider.load_info st' id = Ok (mkRunInfo id value)
     ∧ ∀ score, (id, score) ∈ info_sorted st' ↔ score = now).
Proof.
  intros Hwf Hnd st'. split; [by apply redis_log_info_wf|]. split.
  - unfold st', RedisKVLoggingProvider.log. destruct is_info_log; [|done].
    destruct (str_contains "type" key) eqn:Hkey; [|done]. simpl.
    rewrite List.map_app. simpl. apply NoDup_app. split; [|split].
    + by apply NoDup_map_fst_filter.
    + intros x Hx Hx'. apply list_elem_of_singleton in Hx'. subst x.
      apply list_elem_of_In, in_map_iff in Hx as ([id' s] & Hid & Hin).
      apply list_elem_of_In, list_elem_of_filter in Hin as [Hne _].
      simpl in *. congruence.
    + apply NoDup_singleton.
  - intros -> Hkey. unfold st'. rewrite redis_info_log_state by done.
    split; [|split].
    + unfold RedisKVLoggingProvider.log. by rewrite Hkey.
    + unfold RedisKVLoggingProvider.load_info. simpl.
      by rewrite lookup_insert_eq.
    + intros score. simpl. rewrite elem_of_app, list_elem_of_filter. simpl.
      rewrite list_elem_of_singleton. split.
      * intros [[Hne _]|[= ->]]; [done|done].
      * intros ->. by right.
Qed.

Lemma redis_info_log_upsert_witness :
  RedisKVLoggingProvider.load_info
    (snd (RedisKVLoggingProvider.log 40%Z 7%N "pipeline_type" "search" true
            sample_info_redis)) 7%N
  = Ok (mkRunInfo 7%N "search")
  ∧ NoDup (map fst
             (info_sorted
                (snd (RedisKVLoggingProvider.log 40%Z 7%N "pipeline_type"
                        "search" true sample_info_redis)))).
Proof.
  destruct (redis_info_log_upsert 40%Z 7%N "pipeline_type" "search" true
              sample_info_redis) as (_ & Hnd & Hinfo).
  - apply (redis_log_info_wf 30%Z 9%N "pipeline_type" "rag" true).
    apply (redis_log_info_wf 20%Z 8%N "pipeline_type" "search" true).
    apply (redis_log_info_wf 10%Z 7%N "pipeline_type" "rag" true).
    apply empty_redis_info_wf.
  - apply (bool_decide_unpack (NoDup (map fst (info_sorted sample_info_redis)))).
    reflexivity.
  - destruct (Hinfo eq_refl eq_refl) as (_ & Hload & _). split; [exact Hload|exact Hnd].
Defined.

Lemma kept_infos_cons (st : redis) (f : option string) (id : uuid)
    (ids : list uuid) (info : RunInfo) :
  RedisKVLoggingProvider.load_info st id = Ok info →
  passes_filter f info = true →
  kept_infos st f (id :: ids) = info :: kept_infos st f ids.
Proof.
  intros Hload Hpass. unfold kept_infos. simpl. unfold load_some at 1.
  rewrite Hload. simpl. by rewrite Hpass.
Qed.

(** X9. On the Redis provider, after an info write with a key that
    contains ["type"], made at a time later than every score of the
    sorted set, [get_run_info] with a limit of at least one and a
    filter the entry passes (none, or the written type) lists the run
    first, with the written type. *)
Theorem redis_info_log_then_get_run_info (now : instant) (id : uuid)
    (key value : string) (st : redis) (limit : Z)
    (log_type_filter : option string) :
  (1 <= limit)%Z → str_contains "type" key = true →
  redis_info_wf st → Forall (λ m, (snd m < now)%Z) (info_sorted st) →
  passes_filter log_type_filter (mkRunInfo id value) = true →
  let st' := snd (RedisKVLoggingProvider.log now id key value true st) in
  ∃ rest, RedisKVLoggingProvider.get_run_info limit log_type_filter st'
          = (Ok (mkRunInfo id value :: rest), st').
Proof.
  intros Hlimit Hkey Hwf Hnew Hpass st'.
  assert (redis_info_wf st') as Hwf' by (by apply redis_log_info_wf).
  rewrite (redis_get_run_info_answer st' limit log_type_filter Hlimit Hwf').
  assert (∃ ms, sorted_members st' = id :: ms) as [ms Hms].
  { unfold sorted_members, st'. rewrite redis_info_log_state by done. simpl.
    rewrite stable_sort_snoc_first; [simpl; eauto|].
    apply Forall_filter_keep. eapply Forall_impl; [exact Hnew|].
    intros [id' s] Hs. simpl in *. unfold RedisKVLoggingProvider.zrev_before.
    simpl. apply orb_false_iff. split; [apply Z.ltb_ge; lia|].
    apply andb_false_iff. left. apply Z.eqb_neq. lia. }
  rewrite Hms.
  rewrite (kept_infos_cons st' log_type_filter id ms (mkRunInfo id value));
    [| |done].
  - replace (Z.to_nat limit) with (S (Z.to_nat limit - 1)) by lia. simpl. eauto.
  - unfold st'. rewrite redis_info_log_state by done.
    unfold RedisKVLoggingProvider.load_info. simpl. by rewrite lookup_insert_eq.
Qed.

Lemma redis_info_log_then_get_run_info_witness :
  ∃ rest,
    RedisKVLoggingProvider.get_run_info 2%Z (Some "search")
      (snd (RedisKVLoggingProvider.log 40%Z 7%N "pipeline_type" "search" true
              sample_info_redis))
    = (Ok (mkRunInfo 7%N "search" :: rest),
       snd (RedisKVLoggingProvider.log 40%Z 7%N "pipeline_type" "search" true
              sample_info_redis)).
Proof.
  apply (redis_info_log_then_get_run_info 40%Z 7%N "pipeline_type" "search"
           sample_info_redis 2%Z (Some "search")).
  - lia.
  - reflexivity.
  - apply (redis_log_info_wf 30%Z 9%N "pipeline_type" "rag" true).
    apply (redis_log_info_wf 20%Z 8%N "pipeline_type" "search" true).
    apply (redis_log_info_wf 10%Z 7%N "pipeline_type" "rag" true).
    apply empty_redis_info_wf.
  - repeat constructor.
  - reflexivity.
Defined.

(** ** Run information: what is written and what is read *)

Lemma newest_first_take_drop {A} (ts : A → instant) (n : nat) (l : list A) :
  Sql.newest_first ts l →
  Forall (λ y, Forall (λ x, (ts y <= ts x)%Z) (take n l)) (drop n l).
Proof.
  intros Hs. rewrite <- (take_drop n l) in Hs at 1.
  unfold Sql.newest_first in Hs.
  apply Forall_forall. intros y Hy. apply Forall_forall. intros x Hx.
  by apply (StronglySorted_app_1_elem_of _ _ _ x y Hs).
Qed.

Lemma local_get_run_info_eq (limit : Z) (log_type_filter : option string)
    (t : tables) :
  (0 <= limit)%Z →
  LocalKVLoggingProvider.get_run_info limit log_type_filter t
  = (Ok (map (λ r, mkRunInfo (ir_log_id r) (ir_log_type r))
           (take (Z.to_nat limit)
              (Sql.order_by_desc ir_timestamp
                 (if truthy_str log_type_filter
                  then filter (λ r, Some (ir_log_type r) = log_type_filter)
                         (log_info_table t)
                  else log_info_table t)))), t).
Proof.
  intros Hl.
  unfold LocalKVLoggingProvider.get_run_info, LocalKVLoggingProvider.execute,
    LocalKVLoggingProvider.limit_rows, bind, gets, ret. simpl.
  destruct (Z.ltb_spec limit 0); [lia|]. reflexivity.
Qed.

Lemma postgres_get_run_info_eq (limit : Z) (log_type_filter : option string)
    (t : tables) :
  (0 <= limit)%Z → truthy_str log_type_filter = true →
  PostgresKVLoggingProvider.get_run_info limit log_type_filter t
  = (Ok (map (λ r, mkRunInfo (ir_log_id r) (ir_log_type r))
           (take (Z.to_nat limit)
              (Sql.order_by_desc ir_timestamp
                 (filter (λ r, Some (ir_log_type r) = log_type_filter)
                    (log_info_table t))))), t).
Proof.
  intros Hl Hf. unfold PostgresKVLoggingProvider.get_run_info. rewrite Hf.
  unfold PostgresKVLoggingProvider.execute,
    PostgresKVLoggingProvider.limit_rows, bind, gets, ret. simpl.
  destruct (Z.ltb_spec limit 0); [lia|]. reflexivity.
Qed.



(** X11. On both SQL providers, an info write for a run not yet in the
    info table, made at a time later than every row of that table, is
    found by the next [get_run_info]: with a limit of at least one and
    a filter the written type passes, the run comes first in the
    answer.  (The Postgres provider answers only with a filter that is
    not empty.) *)
Theorem sql_info_log_then_get_run_info (now : instant) (id : uuid)
    (key value : string) (t : tables) (limit : Z)
    (log_type_filter : option string) :
  (1 <= limit)%Z → str_contains "type" key = true →
  id ∉ map ir_log_id (log_info_table t) →
  Forall (λ r, (ir_timestamp r < now)%Z) (log_info_table t) →
  passes_filter log_type_filter (mkRunInfo id value) = true →
  let t' := add_info (mkInfoRow now id value) t in
  LocalKVLoggingProvider.log now id key value true t = (Ok tt, t')
  ∧ PostgresKVLoggingProvider.log now id key value true t = (Ok tt, t')
  ∧ (∃ rest, LocalKVLoggingProvider.get_run_info limit log_type_filter t'
             = (Ok (mkRunInfo id value :: rest), t'))
  ∧ (truthy_str log_type_filter = true →
     ∃ rest, PostgresKVLoggingProvider.get_run_info limit log_type_filter t'
             = (Ok (mkRunInfo id value :: rest), t')).
Proof.
  intros Hlimit Hkey Hfresh Hnew Hpass t'.
  assert (∃ rows,
            Sql.order_by_desc ir_timestamp
              (if truthy_str log_type_filter
               then filter (λ r, Some (ir_log_type r) = log_type_filter)
                      (log_info_table t')
               else log_info_table t')
            = mkInfoRow now id value :: rows) as [rows Hrows].
  { unfold passes_filter in Hpass. simpl.
    destruct (truthy_str log_type_filter).
    - apply bool_decide_eq_true in Hpass. simpl in Hpass.
      rewrite filter_app, filter_cons, decide_True by done. rewrite filter_nil.
      rewrite (order_by_desc_newest_last ir_timestamp);
        [eauto | by apply Forall_filter_keep].
    - rewrite (order_by_desc_newest_last ir_timestamp); eauto. }
  split; [|split; [|split]].
  - unfold LocalKVLoggingProvider.log. rewrite Hkey.
    unfold LocalKVLoggingProvider.execute,
      LocalKVLoggingProvider.insert_info; simpl.
    by rewrite bool_decide_eq_false_2.
  - unfold PostgresKVLoggingProvider.log. rewrite Hkey.
    unfold PostgresKVLoggingProvider.execute,
      PostgresKVLoggingProvider.insert_info; simpl.
    by rewrite bool_decide_eq_false_2.
  - rewrite local_get_run_info_eq by lia. rewrite Hrows.
    replace (Z.to_nat limit) with (S (Z.to_nat limit - 1)) by lia.
    simpl. eauto.
  - intros Hf. rewrite postgres_get_run_info_eq by (done || lia).
    rewrite Hf in Hrows. rewrite Hrows.
    replace (Z.to_nat limit) with (S (Z.to_nat limit - 1)) by lia.
    simpl. eauto.
Qed.

Lemma sql_info_log_then_get_run_info_witness :
  ∃ rest,
    LocalKVLoggingProvider.get_run_info 2%Z None
      (add_info (mkInfoRow 40%Z 11%N "search") sample_info_tables)
    = (Ok (mkRunInfo 11%N "search" :: rest),
       add_info (mkInfoRow 40%Z 11%N "search") sample_info_tables).
Proof.
  destruct (sql_info_log_then_get_run_info 40%Z 11%N "pipeline_type" "search"
              sample_info_tables 2%Z None) as (_ & _ & Hread & _).
  - lia.
  - reflexivity.
  - apply (bool_decide_unpack
             (11%N ∉ map ir_log_id (log_info_table sample_info_tables))).
    reflexivity.
  - repeat constructor.
  - reflexivity.
  - exact Hread.
Defined.

Lemma kept_infos_sublist (st : redis) (f : option string) (ids : list uuid) :
  (∀ id info, id ∈ ids → load_some st id = Some info → run_id info = id) →
  sublist (map run_id (kept_infos st f ids)) ids.
Proof.
  unfold kept_infos. induction ids as [|id ids IH]; intros Hid; [constructor|].
  simpl. assert (sublist
                   (map run_id
                      (List.filter (passes_filter f) (omap (load_some st) ids)))
                   ids) as Hsub.
  { apply IH. intros id' info Hin. apply Hid. by right. }
  destruct (load_some st id) as [info|] eqn:Hload; [|by apply sublist_cons].
  simpl. destruct (passes_filter f info); [|by apply sublist_cons].
  simpl. rewrite (Hid id info) by (done || left). by apply sublist_skip.
Qed.

Lemma kept_infos_elem (st : redis) (f : option string) (ids : list uuid)
    (info : RunInfo) :
  info ∈ kept_infos st f ids
  ↔ passes_filter f info = true
    ∧ ∃ id, id ∈ ids ∧ load_some st id = Some info.
Proof.
  unfold kept_infos. rewrite list_elem_of_In, filter_In, <- list_elem_of_In.
  rewrite list_elem_of_omap. split; intros [? ?]; done.
Qed.

Lemma sorted_members_elem (st : redis) (id : uuid) :
  id ∈ sorted_members st ↔ ∃ score, (id, score) ∈ info_sorted st.
Proof.
  unfold sorted_members. rewrite list_elem_of_In, in_map_iff. split.
  - intros ([id' score] & <- & Hin). exists score. simpl.
    apply list_elem_of_In in Hin. by rewrite stable_sort_perm in Hin.
  - intros [score Hin]. exists (id, score). split; [done|].
    apply list_elem_of_In. by rewrite stable_sort_perm.
Qed.

(** X12. On the Redis provider, when the hash and the sorted set agree
    (as [log] keeps them) and the limit is at least one, [get_run_info]
    returns normally and leaves the store as it is.  The runs it could
    list are exactly the members of the sorted set whose hash entry
    passes the filter, in the order [ZREVRANGE] gives the members; it
    returns the first [limit] of them, or all when there are fewer. *)
Theorem redis_get_run_info_newest (st : redis) (limit : Z)
    (log_type_filter : option string) :
  (1 <= limit)%Z → redis_info_wf st →
  let kept := kept_infos st log_type_filter (sorted_members st) in
  RedisKVLoggingProvider.get_run_info limit log_type_filter st
  = (Ok (take (Z.to_nat limit) kept), st)
  ∧ length (take (Z.to_nat limit) kept)
    = Nat.min (Z.to_nat limit) (length kept)
  ∧ sublist (map run_id kept) (sorted_members st)
  ∧ ∀ info,
      info ∈ kept
      ↔ passes_filter log_type_filter info = true
        ∧ ∃ score e, (run_id info, score) ∈ info_sorted st
                     ∧ info_hash st !! run_id info = Some e
                     ∧ le_log_type e = Some (log_type info).
Proof.
  intros Hlimit Hwf kept.
  assert (∀ id info, id ∈ sorted_members st → load_some st id = Some info →
            run_id info = id
            ∧ ∃ score e, (id, score) ∈ info_sorted st
                         ∧ info_hash st !! id = Some e
                         ∧ le_log_type e = Some (log_type info)) as Hmember.
  { intros id info Hid Hload. apply sorted_members_elem in Hid as [score Hin].
    destruct (Hwf _ _ Hin) as (e & ty & He & Hty & Heid & _).
    unfold load_some, RedisKVLoggingProvider.load_info in Hload.
    rewrite He, Hty in Hload. injection Hload as <-. simpl.
    split; [done|]. eauto. }
  split; [by apply redis_get_run_info_answer|]. split; [apply length_take|].
  split.
  - apply kept_infos_sublist. intros id info Hid Hload.
    by destruct (Hmember id info Hid Hload).
  - intros info. unfold kept. rewrite kept_infos_elem. split.
    + intros [Hpass (id & Hid & Hload)]. split; [done|].
      destruct (Hmember id info Hid Hload) as [<- Hrest]. done.
    + intros [Hpass (score & e & Hin & He & Hty)]. split; [done|].
      exists (run_id info). split; [apply sorted_members_elem; eauto|].
      destruct (Hwf _ _ Hin) as (e' & ty & He' & _ & Heid & _).
      unfold load_some, RedisKVLoggingProvider.load_info.
      rewrite He, Hty. rewrite He in He'. injection He' as <-.
      rewrite Heid. by destruct info.
Qed.

Lemma redis_get_run_info_newest_witness :
  RedisKVLoggingProvider.get_run_info 1%Z (Some "rag") sample_info_redis
  = (Ok [mkRunInfo 9%N "rag"], sample_info_redis).
Proof.
  destruct (redis_get_run_info_newest sample_info_redis 1%Z (Some "rag"))
    as (Hres & _).
  - lia.
  - apply (redis_log_info_wf 30%Z 9%N "pipeline_type" "rag" true).
    apply (redis_log_info_wf 20%Z 8%N "pipeline_type" "search" true).
    apply (redis_log_info_wf 10%Z 7%N "pipeline_type" "rag" true).
    apply empty_redis_info_wf.
  - rewrite Hres. reflexivity.
Defined.

Lemma scan_batch_empty_filter (st : redis) (limit : Z) (ids : list uuid)
    (acc : list RunInfo) :
  RedisKVLoggingProvider.scan_batch st limit (Some EmptyString) ids acc
  = RedisKVLoggingProvider.scan_batch st limit None ids acc.
Proof.
  revert acc. induction ids as [|id ids IH]; intros acc; [done|].
  simpl. destruct (RedisKVLoggingProvider.load_info st id); [|done].
  by rewrite IH.
Qed.

Lemma loop_empty_filter (fuel : nat) (st : redis) (limit start : Z)
    (acc : list RunInfo) :
  RedisKVLoggingProvider.get_run_info_loop fuel st limit (Some EmptyString)
    start acc
  = RedisKVLoggingProvider.get_run_info_loop fuel st limit None start acc.
Proof.
  revert start acc. induction fuel as [|fuel IH]; intros start acc; [done|].
  cbn [RedisKVLoggingProvider.get_run_info_loop].
  rewrite scan_batch_empty_filter.
  destruct (Z.of_nat (length acc) <? limit)%Z; [|done].
  destruct (RedisKVLoggingProvider.zrevrange st start _); [done|].
  destruct (RedisKVLoggingProvider.scan_batch _ _ _ _ _); [|done].
  apply IH.
Qed.

(** X13. An empty string as [log_type_filter] is no filter: on each of
    the three providers [get_run_info] does with it exactly what it
    does without a filter (on the Postgres provider, fail). *)
Theorem get_run_info_empty_filter (limit : Z) (t : tables) (st : redis) :
  LocalKVLoggingProvider.get_run_info limit (Some EmptyString) t
  = LocalKVLoggingProvider.get_run_info limit None t
  ∧ PostgresKVLoggingProvider.get_run_info limit (Some EmptyString) t
    = PostgresKVLoggingProvider.get_run_info limit None t
  ∧ RedisKVLoggingProvider.get_run_info limit (Some EmptyString) st
    = RedisKVLoggingProvider.get_run_info limit None st.
Proof.
  split; [reflexivity|]. split; [reflexivity|].
  unfold RedisKVLoggingProvider.get_run_info,
    RedisKVLoggingProvider.get_run_info_fuel.
  by rewrite loop_empty_filter.
Qed.

(** X14. Limits that are not positive.  The Redis provider returns the
    empty list without reading the store, for zero and for every
    negative limit.  For zero the SQLite provider returns the empty
    list as well, and so does the Postgres provider when a filter is
    given.  A negative limit is passed to the engine as it is: SQLite
    takes it as no bound and returns every matching row, newest first;
    PostgreSQL rejects the statement. *)
Theorem get_run_info_nonpositive_limit (limit : Z)
    (log_type_filter : option string) (t : tables) (st : redis) :
  (limit <= 0)%Z →
  RedisKVLoggingProvider.get_run_info limit log_type_filter st = (Ok [], st)
  ∧ (limit = 0%Z →
     LocalKVLoggingProvider.get_run_info limit log_type_filter t = (Ok [], t)
     ∧ (truthy_str log_type_filter = true →
        PostgresKVLoggingProvider.get_run_info limit log_type_filter t
        = (Ok [], t)))
  ∧ ((limit < 0)%Z →
     LocalKVLoggingProvider.get_run_info limit log_type_filter t
     = (Ok (map (λ r, mkRunInfo (ir_log_id r) (ir_log_type r))
              (Sql.order_by_desc ir_timestamp
                 (if truthy_str log_type_filter
                  then filter (λ r, Some (ir_log_type r) = log_type_filter)
                         (log_info_table t)
                  else log_info_table t))), t)
     ∧ (truthy_str log_type_filter = true →
        ∃ msg, PostgresKVLoggingProvider.get_run_info limit log_type_filter t
               = (Raise (Exn DatabaseError msg), t))).
Proof.
  intros Hlimit. split; [|split].
  - unfold RedisKVLoggingProvider.get_run_info,
      RedisKVLoggingProvider.get_run_info_fuel,
      RedisKVLoggingProvider.enough_fuel.
    cbn [RedisKVLoggingProvider.get_run_info_loop]. simpl length.
    destruct (Z.ltb_spec (Z.of_nat 0) limit); [lia|].
    unfold RedisKVLoggingProvider.slice_to. by rewrite !take_nil, Tauto.if_same.
  - intros ->. split.
    + by rewrite local_get_run_info_eq.
    + intros Hf. by rewrite postgres_get_run_info_eq.
  - intros Hneg. split.
    + unfold LocalKVLoggingProvider.get_run_info,
        LocalKVLoggingProvider.execute, LocalKVLoggingProvider.limit_rows,
        bind, gets, ret. simpl.
      destruct (Z.ltb_spec limit 0); [done|lia].
    + intros Hf. unfold PostgresKVLoggingProvider.get_run_info. rewrite Hf.
      unfold PostgresKVLoggingProvider.execute,
        PostgresKVLoggingProvider.limit_rows, bind, gets, ret, raise. simpl.
      destruct (Z.ltb_spec limit 0); [eauto|lia].
Qed.

Lemma get_run_info_nonpositive_limit_witness :
  RedisKVLoggingProvider.get_run_info (-1)%Z None sample_info_redis
  = (Ok [], sample_info_redis)
  ∧ LocalKVLoggingProvider.get_run_info (-1)%Z None sample_info_tables
    = (Ok [mkRunInfo 9%N "rag"; mkRunInfo 8%N "search"; mkRunInfo 7%N "rag"],
       sample_info_tables).
Proof.
  destruct (get_run_info_nonpositive_limit (-1)%Z None sample_info_tables
              sample_info_redis) as (Hredis & _ & Hneg); [lia|].
  split; [exact Hredis|]. destruct Hneg as [Hlocal _]; [lia|].
  rewrite Hlocal. reflexivity.
Defined.

(** ** Reading throughput samples *)


(** X16. The read side of the other two providers never answers.  The
    Postgres provider reaches for [self.connection], which nothing
    sets, before it looks at the bounds; the Redis provider has no
    [get_throughput_data] at all.  Either way the caller gets
    [AttributeError] and the store is left as it was. *)
Theorem get_throughput_data_unavailable (start_time end_time : option Z)
    (t : tables) (w : world) :
  (∃ msg, PostgresKVLoggingProvider.get_throughput_data start_time end_time t
          = (Raise (Exn AttributeError msg), t))
  ∧ (∃ msg, p_get_throughput_data postgres_provider start_time end_time w
            = (Raise (Exn AttributeError msg), w))
  ∧ (∃ msg, p_get_throughput_data redis_provider start_time end_time w
            = (Raise (Exn AttributeError msg), w)).
Proof.
  split; [eexists; reflexivity|]. split; [|eexists; reflexivity].
  eexists. simpl. unfold on_postgres, fmap_M, bind. simpl. by destruct w.
Qed.

(** ** The facade on the three providers *)

Lemma require_env_frame (names : list string) (w : world) :
  require_env names w = (Ok tt, w)
  ∨ ∃ e, require_env names w = (Raise e, w).
Proof.
  unfold require_env, bind, gets. simpl.
  destruct (filter _ names); [by left|right; eexists; reflexivity].
Qed.

Lemma get_instance_cases (w : world) :
  (∃ e, get_instance w = (Raise e, w))
  ∨ ∃ name p, configured_for name w ∧ (name, p) ∈ provider_named
              ∧ get_instance w = (Ok p, w).
Proof.
  unfold get_instance, bind, gets. simpl.
  destruct (config w) as [c|] eqn:Hc; [|left; eexists; reflexivity].
  destruct (String.eqb_spec (provider_name c) "local") as [Hn|_].
  { unfold make_local, bind, gets. simpl.
    destruct (truthy_str _); [|left; eexists; reflexivity].
    right. exists "local", local_provider. split; [by exists c|].
    split; [|done]. left. }
  destruct (String.eqb_spec (provider_name c) "postgres") as [Hn|_].
  { unfold make_postgres, bind.
    destruct (require_env_frame
                ["POSTGRES_DBNAME"; "POSTGRES_USER"; "POSTGRES_PASSWORD";
                 "POSTGRES_HOST"; "POSTGRES_PORT"] w) as [->|[e ->]];
      [|left; eauto].
    right. exists "postgres", postgres_provider. split; [by exists c|].
    split; [|done]. right. left. }
  destruct (String.eqb_spec (provider_name c) "redis") as [Hn|_].
  { unfold make_redis, bind.
    destruct (require_env_frame ["REDIS_CLUSTER_IP"; "REDIS_CLUSTER_PORT"] w)
      as [->|[e ->]]; [|left; eauto].
    right. exists "redis", redis_provider. split; [by exists c|].
    split; [|done]. right. right. left. }
  left. eexists. reflexivity.
Qed.

Lemma provider_named_cases (name : string) (p : provider world) :
  (name, p) ∈ provider_named →
  (name = "local" ∧ p = local_provider)
  ∨ (name = "postgres" ∧ p = postgres_provider)
  ∨ (name = "redis" ∧ p = redis_provider).
Proof.
  unfold provider_named. rewrite !elem_of_cons, elem_of_nil.
  intros [[= -> ->]|[[= -> ->]|[[= -> ->]|[]]]]; auto.
Qed.

Lemma configured_for_inj (n1 n2 : string) (w : world) :
  configured_for n1 w → configured_for n2 w → n1 = n2.
Proof. intros (c & Hc & <-) (c' & Hc' & <-). congruence. Qed.

Lemma left_alone_refl (w : world) : left_alone w w.
Proof. by repeat split. Qed.

Lemma left_alone_trans (w1 w2 w3 : world) :
  left_alone w1 w2 → left_alone w2 w3 → left_alone w1 w3.
Proof.
  intros (Hc & He & Hk & Hs & Hp & Hl & Hsq & Hpg & Hrd)
         (Hc' & He' & Hk' & Hs' & Hp' & Hl' & Hsq' & Hpg' & Hrd').
  assert (∀ name, ¬ configured_for name w1 → ¬ configured_for name w2) as Hcf.
  { intros name Hn (c & Hcfg & Hname). apply Hn. exists c. by rewrite <- Hc. }
  repeat split; try congruence.
  - by etrans.
  - intros Hn. rewrite Hsq' by auto. auto.
  - intros Hn. rewrite Hpg' by auto. auto.
  - intros Hn. rewrite Hrd' by auto. auto.
Qed.

Lemma left_alone_lines (w : world) (line : string) :
  left_alone w (with_log_lines (log_lines w ++ [line]) w).
Proof. repeat split. simpl. by apply prefix_app_r. Qed.

Lemma local_log_throughput (now : instant) (id : uuid) (key value : string)
    (b : bool) (t : tables) :
  throughput_logs (snd (LocalKVLoggingProvider.log now id key value b t))
  = throughput_logs t.
Proof.
  unfold LocalKVLoggingProvider.log, LocalKVLoggingProvider.execute,
    LocalKVLoggingProvider.insert_info. simpl.
  destruct b; [|done]. destruct (negb _); [done|]. by destruct (bool_decide _).
Qed.

Lemma postgres_log_throughput (now : instant) (id : uuid) (key value : string)
    (b : bool) (t : tables) :
  throughput_logs (snd (PostgresKVLoggingProvider.log now id key value b t))
  = throughput_logs t.
Proof.
  unfold PostgresKVLoggingProvider.log, PostgresKVLoggingProvider.execute,
    PostgresKVLoggingProvider.insert_info. simpl.
  destruct b; [|done]. destruct (negb _); [done|]. by destruct (bool_decide _).
Qed.

(** A provider's [log] changes its own store only. *)
Lemma provider_log_left_alone (name : string) (p : provider world)
    (id : uuid) (key value : string) (b : bool) (w : world) :
  (name, p) ∈ provider_named → configured_for name w →
  left_alone w (snd (p_log p id key value b w))
  ∧ log_lines (snd (p_log p id key value b w)) = log_lines w.
Proof.
  intros Hp Hcf.
  destruct (provider_named_cases _ _ Hp) as [[-> ->]|[[-> ->]|[-> ->]]]; simpl;
    unfold bind, gets, on_sqlite, on_postgres, on_redis; simpl.
  - pose proof (local_log_throughput (clock w) id key value b (sqlite_db w)).
    destruct (LocalKVLoggingProvider.log _ _ _ _ _ _) as [r t]. simpl in *.
    repeat split; simpl; try done; intros Hn; by destruct Hn.
  - pose proof (postgres_log_throughput (clock w) id key value b (postgres_db w)).
    destruct (PostgresKVLoggingProvider.log _ _ _ _ _ _) as [r t]. simpl in *.
    repeat split; simpl; try done; intros Hn; by destruct Hn.
  - destruct (RedisKVLoggingProvider.log _ _ _ _ _ _) as [r t]. simpl in *.
    repeat split; simpl; try done; intros Hn; by destruct Hn.
Qed.

Lemma local_get_logs_frame (run_ids : list uuid) (n : Z) (t : tables) :
  snd (LocalKVLoggingProvider.get_logs run_ids n t) = t.
Proof. by destruct run_ids. Qed.

Lemma postgres_get_logs_frame (run_ids : list uuid) (n : Z) (t : tables) :
  snd (PostgresKVLoggingProvider.get_logs run_ids n t) = t.
Proof.
  destruct run_ids; [done|]. unfold PostgresKVLoggingProvider.get_logs,
    PostgresKVLoggingProvider.execute.
  by destruct (PostgresKVLoggingProvider.placeholders_match _ _).
Qed.

Lemma local_get_run_info_frame (limit : Z) (f : option string) (t : tables) :
  snd (LocalKVLoggingProvider.get_run_info limit f t) = t.
Proof. reflexivity. Qed.

Lemma postgres_get_run_info_frame (limit : Z) (f : option string) (t : tables) :
  snd (PostgresKVLoggingProvider.get_run_info limit f t) = t.
Proof.
  unfold PostgresKVLoggingProvider.get_run_info,
    PostgresKVLoggingProvider.execute.
  destruct (PostgresKVLoggingProvider.placeholders_match _ _); [|done].
  unfold bind, gets, PostgresKVLoggingProvider.limit_rows. simpl.
  by destruct (limit <? 0)%Z.
Qed.

Lemma redis_get_run_info_frame (limit : Z) (f : option string) (st : redis) :
  snd (RedisKVLoggingProvider.get_run_info limit f st) = st.
Proof.
  unfold RedisKVLoggingProvider.get_run_info.
  by destruct (RedisKVLoggingProvider.get_run_info_fuel _ _ _ _).
Qed.

Lemma redis_get_logs_frame (run_ids : list uuid) (n : Z) (st : redis) :
  snd (RedisKVLoggingProvider.get_logs run_ids n st) = st.
Proof. reflexivity. Qed.

Lemma fmap_M_snd {S A B} (f : A → B) (c : M S A) (st : S) :
  snd (fmap_M f c st) = snd (c st).
Proof. unfold fmap_M, bind, ret. by destruct (c st) as [[a|e] st']. Qed.

Lemma on_sqlite_frame {A} (c : M tables A) (w : world) :
  snd (c (sqlite_db w)) = sqlite_db w → snd (on_sqlite c w) = w.
Proof.
  unfold on_sqlite. destruct (c (sqlite_db w)) as [r t]. simpl.
  intros ->. by destruct w.
Qed.

Lemma on_postgres_frame {A} (c : M tables A) (w : world) :
  snd (c (postgres_db w)) = postgres_db w → snd (on_postgres c w) = w.
Proof.
  unfold on_postgres. destruct (c (postgres_db w)) as [r t]. simpl.
  intros ->. by destruct w.
Qed.

Lemma on_redis_frame {A} (c : M redis A) (w : world) :
  snd (c (redis_db w)) = redis_db w → snd (on_redis c w) = w.
Proof.
  unfold on_redis. destruct (c (redis_db w)) as [r t]. simpl.
  intros ->. by destruct w.
Qed.

(** The reads and the throughput write of a provider change nothing. *)
Lemma provider_reads_frame (name : string) (p : provider world) (w : world) :
  (name, p) ∈ provider_named →
  (∀ limit f, snd (p_get_run_info p limit f w) = w)
  ∧ (∀ run_ids n, snd (p_get_logs p run_ids n w) = w)
  ∧ (∀ s e, snd (p_get_throughput_data p s e w) = w)
  ∧ (∀ ts n rt, ∃ e, p_log_throughput p ts n rt w = (Raise e, w))
  ∧ p_aenter p w = (Ok tt, w) ∧ p_aexit p w = (Ok tt, w).
Proof.
  intros Hp.
  destruct (provider_named_cases _ _ Hp) as [[-> ->]|[[-> ->]|[-> ->]]];
    unfold local_provider, postgres_provider, redis_provider;
    cbn [p_get_run_info p_get_logs p_get_throughput_data p_log_throughput
         p_aenter p_aexit].
  - repeat split; intros.
    + by apply on_sqlite_frame, local_get_run_info_frame.
    + apply on_sqlite_frame. rewrite fmap_M_snd. apply local_get_logs_frame.
    + apply on_sqlite_frame. by rewrite fmap_M_snd.
    + eexists. unfold on_sqlite. simpl. by destruct w.
  - repeat split; intros.
    + by apply on_postgres_frame, postgres_get_run_info_frame.
    + apply on_postgres_frame. rewrite fmap_M_snd. apply postgres_get_logs_frame.
    + apply on_postgres_frame. by rewrite fmap_M_snd.
    + eexists. unfold on_postgres. simpl. by destruct w.
  - repeat split; intros.
    + by apply on_redis_frame, redis_get_run_info_frame.
    + apply on_redis_frame. rewrite fmap_M_snd. apply redis_get_logs_frame.
    + eexists. reflexivity.
Qed.

Lemma async_with_read_frame {A} (body : provider world → M world A)
    (w : world) :
  (∀ name p, (name, p) ∈ provider_named → snd (body p w) = w) →
  snd (KVLoggingSingleton.async_with get_instance body w) = w.
Proof.
  intros Hbody. unfold KVLoggingSingleton.async_with, bind.
  destruct (get_instance_cases w) as [[e ->]|(name & p & _ & Hp & ->)]; [done|].
  destruct (provider_reads_frame name p w Hp) as (_ & _ & _ & _ & -> & Hexit).
  specialize (Hbody name p Hp). destruct (body p w) as [r w']. simpl in Hbody.
  subst w'. by rewrite Hexit.
Qed.

Lemma read_call_frame (c : call) (w : world) :
  is_write c = false → after_call c w = w.
Proof.
  destruct c; try done; intros _; simpl.
  - apply async_with_read_frame. intros name p Hp.
    by destruct (provider_reads_frame name p w Hp) as (H & _).
  - apply async_with_read_frame. intros name p Hp.
    by destruct (provider_reads_frame name p w Hp) as (_ & H & _).
  - apply async_with_read_frame. intros name p Hp.
    by destruct (provider_reads_frame name p w Hp) as (_ & _ & H & _).
Qed.

Lemma facade_log_throughput_eq (ts : instant) (n : Z) (rt : string) (w : world) :
  ∃ e, KVLoggingSingleton.log_throughput get_instance log_lines with_log_lines
         ts n rt w
       = (Ok tt,
          with_log_lines
            (log_lines w ++ [("Error logging throughput data: " ++ exn_msg e)%string])
            w).
Proof.
  unfold KVLoggingSingleton.log_throughput, try_except,
    KVLoggingSingleton.async_with, bind.
  destruct (get_instance_cases w) as [[e ->]|(name & p & _ & Hp & ->)];
    [by exists e|].
  destruct (provider_reads_frame name p w Hp) as (_ & _ & _ & Hlt & -> & Hexit).
  destruct (Hlt ts n rt) as [e ->]. rewrite Hexit. by exists e.
Qed.

Lemma call_left_alone (c : call) (w : world) : left_alone w (after_call c w).
Proof.
  destruct (is_write c) eqn:Hw;
    [|rewrite read_call_frame by done; apply left_alone_refl].
  destruct c; try done; simpl.
  - unfold KVLoggingSingleton.log, try_except, KVLoggingSingleton.async_with,
      bind.
    destruct (get_instance_cases w) as [[e ->]|(name & p & Hcf & Hp & ->)];
      [apply left_alone_lines|].
    destruct (provider_reads_frame name p w Hp) as (_ & _ & _ & _ & -> & _).
    destruct (provider_log_left_alone name p log_id key value is_info_log w
                Hp Hcf) as [Hleft Hlines].
    destruct (p_log p log_id key value is_info_log w) as [r w1]. simpl in *.
    destruct (provider_reads_frame name p w1 Hp) as (_ & _ & _ & _ & _ & ->).
    destruct r as [[]|e]; [done|].
    eapply left_alone_trans; [exact Hleft|]. apply left_alone_lines.
  - destruct (facade_log_throughput_eq timestamp num_requests request_type w)
      as [e ->]. apply left_alone_lines.
Qed.

(** X17. What no sequence of calls through the facade does, in any
    world.  The configuration, the environment and the clock stay as
    they are; no throughput table changes; lines already on the logger
    stay, in place; a store other than the one of the configured
    provider is not touched.  A sequence of reads ([get_run_info],
    [get_logs], [get_throughput_data], [get_analytics]) changes nothing
    at all, whether the calls return or raise. *)
Theorem facade_calls_left_alone (calls : list call) (w : world) :
  left_alone w (foldl (λ w c, after_call c w) w calls)
  ∧ (forallb (λ c, negb (is_write c)) calls = true →
     foldl (λ w c, after_call c w) w calls = w).
Proof.
  split.
  - revert w. induction calls as [|c calls IH]; intros w;
      [apply left_alone_refl|].
    simpl. eapply left_alone_trans; [apply call_left_alone|apply IH].
  - revert w. induction calls as [|c calls IH]; intros w; [done|].
    simpl. intros [Hc Hrest]%andb_true_iff.
    rewrite read_call_frame by (by apply negb_true_iff). by apply IH.
Qed.

(** X18. Through the facade, [log_throughput] does one thing in every
    world, configured or not: it returns normally and leaves one more
    line on the logger, the message of the exception that stopped it.
    No store changes. *)
Theorem facade_log_throughput_only_logs (timestamp : instant)
    (num_requests : Z) (request_type : string) (w : world) :
  ∃ e, KVLoggingSingleton.log_throughput get_instance log_lines with_log_lines
         timestamp num_requests request_type w
       = (Ok tt,
          mkWorld (config w) (environ w) (clock w) (sqlite_db w) (postgres_db w)
            (redis_db w)
            (log_lines w
             ++ [("Error logging throughput data: " ++ exn_msg e)%string])).
Proof. apply facade_log_throughput_eq. Qed.

(** ** The rank column of [get_logs] *)

Lemma sql_ranked_rows (run_ids : list uuid) (n : Z) (rows : list LogRow)
    (r : uuid) :
  r ∈ run_ids →
  filter (λ p : ranked_row, lr_log_id (fst p) = r)
    (LocalKVLoggingProvider.get_logs_query run_ids n rows)
  = Sql.number_from 1
      (take (Z.to_nat n) (Sql.order_by_desc lr_timestamp (run_rows r rows))).
Proof.
  intros Hr. unfold LocalKVLoggingProvider.get_logs_query.
  rewrite filter_order_by_desc, filter_swap, row_number_over_partition.
  unfold run_rows at 1.
  rewrite list_filter_filter_l by (intros x ->; exact Hr).
  unfold Sql.number_rows, ranked_row. rewrite number_from_filter_le.
  replace (Z.to_nat (n - 1 + 1)) with (Z.to_nat n) by lia.
  rewrite order_by_desc_id; [done|].
  apply number_from_newest_first, newest_first_take, order_by_desc_newest_first.
Qed.

Lemma get_logs_query_single (id : uuid) (n : Z) (rows : list LogRow) :
  LocalKVLoggingProvider.get_logs_query [id] n rows
  = Sql.number_from 1
      (take (Z.to_nat n) (Sql.order_by_desc lr_timestamp (run_rows id rows))).
Proof.
  rewrite <- (sql_ranked_rows [id]) by (by left).
  symmetry. apply filter_all. apply Forall_forall. intros [row rn] Hin.
  apply get_logs_query_elem in Hin as (Hid & _). simpl.
  by apply list_elem_of_singleton in Hid.
Qed.

Lemma number_from_snd {A} (k : Z) (l : list A) :
  map snd (Sql.number_from k l) = map (λ i, (k + Z.of_nat i)%Z) (seq 0 (length l)).
Proof.
  revert k. induction l as [|x l IH]; intros k; [done|].
  simpl. rewrite IH, <- seq_shift, List.map_map. f_equal; [lia|].
  apply map_ext. intros i. lia.
Qed.



(** ** A record written and read back through the facade *)

Lemma get_instance_frame (w : world) : snd (get_instance w) = w.
Proof.
  destruct (get_instance_cases w) as [[e ->]|(name & p & _ & _ & ->)]; done.
Qed.

Lemma get_instance_stable (w w' : world) :
  config w' = config w → environ w' = environ w →
  fst (get_instance w') = fst (get_instance w).
Proof.
  intros Hc He. unfold get_instance, bind, gets. simpl. rewrite Hc.
  destruct (config w) as [c|]; [|done].
  destruct (String.eqb (provider_name c) "local").
  { unfold make_local, bind, gets. simpl. rewrite He.
    by destruct (truthy_str _). }
  destruct (String.eqb (provider_name c) "postgres").
  { unfold make_postgres, require_env, bind, gets, env_set. simpl. rewrite He.
    by destruct (filter _ _). }
  destruct (String.eqb (provider_name c) "redis"); [|done].
  unfold make_redis, require_env, bind, gets, env_set. simpl. rewrite He.
  by destruct (filter _ _).
Qed.

Lemma get_instance_again (w w' : world) (p : provider world) :
  config w' = config w → environ w' = environ w →
  get_instance w = (Ok p, w) → get_instance w' = (Ok p, w').
Proof.
  intros Hc He Hi. pose proof (get_instance_stable w w' Hc He) as Hfst.
  pose proof (get_instance_frame w') as Hsnd. rewrite Hi in Hfst.
  destruct (get_instance w') as [r w1]. simpl in *. by subst.
Qed.

Lemma redis_read_back (now : instant) (id : uuid) (key value : string)
    (st : redis) (n : Z) :
  (1 <= n)%Z →
  RedisKVLoggingProvider.get_logs [id] n
    (snd (RedisKVLoggingProvider.log now id key value false st))
  = (Ok (mkLogEntry now id key value None
         :: take (Z.to_nat n - 1) (run_entries st id)),
     snd (RedisKVLoggingProvider.log now id key value false st)).
Proof.
  intros Hn. set (st' := snd _).
  unfold RedisKVLoggingProvider.get_logs, bind, gets, ret. simpl flat_map.
  unfold RedisKVLoggingProvider.lrange. fold (run_entries st' id).
  rewrite redis_range_first by done. unfold st'.
  rewrite run_entries_lpush, decide_True by done. rewrite app_nil_r.
  replace (Z.to_nat n) with (S (Z.to_nat n - 1)) at 1 by lia. done.
Qed.

(** X20. Writing an ordinary record through the facade and asking for
    its run through the facade gives the record back first, as the
    dictionary of the configured provider.  On a SQL provider the
    record is written with the time on the clock, must be newer than
    the run's stored rows to come first, and is returned with rank 1;
    the timestamp comes back as SQLite's text on the SQLite provider
    and as a datetime on the Postgres provider.  On the Redis provider
    the record comes first whatever the clock shows. *)
Theorem facade_log_then_get_logs (id : uuid) (key value : string) (n : Z)
    (w : world) :
  (1 <= n)%Z →
  let row := mkLogRow (clock w) id key value in
  let older (t : tables) :=
    Forall (λ r, (lr_timestamp r < clock w)%Z) (run_rows id (log_table t)) in
  let ranked (t : tables) :=
    (row, 1%Z)
    :: Sql.number_from 2
         (take (Z.to_nat n - 1)
            (Sql.order_by_desc lr_timestamp (run_rows id (log_table t)))) in
  (get_instance w = (Ok local_provider, w) → older (sqlite_db w) →
   let w' := mkWorld (config w) (environ w) (clock w)
               (add_log row (sqlite_db w)) (postgres_db w) (redis_db w)
               (log_lines w) in
   KVLoggingSingleton.log get_instance log_lines with_log_lines
     id key value false w = (Ok tt, w')
   ∧ KVLoggingSingleton.get_logs get_instance [id] n w'
     = (Ok (map (λ r : ranked_row,
                   ranked_row_dict
                     (PStr (sqlite_datetime (lr_timestamp (fst r)))) r)
              (ranked (sqlite_db w))), w'))
  ∧ (get_instance w = (Ok postgres_provider, w) → older (postgres_db w) →
     let w' := mkWorld (config w) (environ w) (clock w) (sqlite_db w)
                 (add_log row (postgres_db w)) (redis_db w) (log_lines w) in
     KVLoggingSingleton.log get_instance log_lines with_log_lines
       id key value false w = (Ok tt, w')
     ∧ KVLoggingSingleton.get_logs get_instance [id] n w'
       = (Ok (map (λ r : ranked_row,
                     ranked_row_dict (PDatetime (lr_timestamp (fst r))) r)
                (ranked (postgres_db w))), w'))
  ∧ (get_instance w = (Ok redis_provider, w) →
     let st' :=
       snd (RedisKVLoggingProvider.log (clock w) id key value false
              (redis_db w)) in
     let w' := mkWorld (config w) (environ w) (clock w) (sqlite_db w)
                 (postgres_db w) st' (log_lines w) in
     KVLoggingSingleton.log get_instance log_lines with_log_lines
       id key value false w = (Ok tt, w')
     ∧ KVLoggingSingleton.get_logs get_instance [id] n w'
       = (Ok (map entry_dict
                (mkLogEntry (clock w) id key value None
                 :: take (Z.to_nat n - 1) (run_entries (redis_db w) id))),
          w')).
Proof.
  intros Hn row older ranked.
  assert (∀ t, older t →
            LocalKVLoggingProvider.get_logs_query [id] n
              (log_table (add_log row t)) = ranked t) as Hquery.
  { intros t Hold. rewrite get_logs_query_single. simpl.
    rewrite run_rows_add by done.
    rewrite (order_by_desc_newest_last lr_timestamp) by done.
    replace (Z.to_nat n) with (S (Z.to_nat n - 1)) at 1 by lia. done. }
  split; [|split].
  - intros Hi Hold w'. split.
    + unfold KVLoggingSingleton.log, try_except,
        KVLoggingSingleton.async_with, bind. by rewrite Hi.
    + unfold KVLoggingSingleton.get_logs, KVLoggingSingleton.async_with, bind.
      rewrite (get_instance_again w w' local_provider) by done.
      unfold local_provider;
        cbn [p_get_logs p_aenter p_aexit]. unfold ret at 1.
      unfold on_sqlite, fmap_M, bind. cbn [sqlite_db w'].
      rewrite local_get_logs_ok by done. unfold ret. rewrite Hquery by done.
      reflexivity.
  - intros Hi Hold w'. split.
    + unfold KVLoggingSingleton.log, try_except,
        KVLoggingSingleton.async_with, bind. by rewrite Hi.
    + unfold KVLoggingSingleton.get_logs, KVLoggingSingleton.async_with, bind.
      rewrite (get_instance_again w w' postgres_provider) by done.
      unfold postgres_provider;
        cbn [p_get_logs p_aenter p_aexit]. unfold ret at 1.
      unfold on_postgres, fmap_M, bind. cbn [postgres_db w'].
      rewrite postgres_get_logs_ok by done. unfold ret.
      change (PostgresKVLoggingProvider.get_logs_query [id] n
                (log_table (add_log row (postgres_db w))))
        with (LocalKVLoggingProvider.get_logs_query [id] n
                (log_table (add_log row (postgres_db w)))).
      rewrite Hquery by done. reflexivity.
  - intros Hi st' w'. split.
    + unfold KVLoggingSingleton.log, try_except,
        KVLoggingSingleton.async_with, bind. by rewrite Hi.
    + unfold KVLoggingSingleton.get_logs, KVLoggingSingleton.async_with, bind.
      rewrite (get_instance_again w w' redis_provider) by done.
      unfold redis_provider;
        cbn [p_get_logs p_aenter p_aexit]. unfold ret at 1.
      unfold on_redis, fmap_M, bind. cbn [redis_db w'].
      unfold st'. rewrite redis_read_back by done. reflexivity.
Qed.

Lemma facade_log_then_get_logs_witness :
  ∃ w', KVLoggingSingleton.log get_instance log_lines with_log_lines
          7%N "search_query" "q" false local_world = (Ok tt, w')
        ∧ KVLoggingSingleton.get_logs get_instance [7%N] 3%Z w'
          = (Ok [PDict [("timestamp", PStr "1970-01-01 00:16:40");
                        ("log_id", PUuid 7%N); ("key", PStr "search_query");
                        ("value", PStr "q"); ("rn", PInt 1%Z)]], w').
Proof.
  destruct (facade_log_then_get_logs 7%N "search_query" "q" 3%Z local_world)
    as (Hlocal & _); [lia|].
  destruct Hlocal as [Hlog Hread]; [reflexivity|constructor|].
  eexists. split; [exact Hlog|]. etrans; [exact Hread|reflexivity].
Defined.

(** ** Constructing the provider *)

Lemma require_env_first_unset (names : list string) (w : world) :
  require_env names w
  = match first_unset w names with
    | None => (Ok tt, w)
    | Some var =>
        (Raise (Exn ValueError
                  ("Please set the environment variable " ++ var ++ ".")), w)
    end.
Proof.
  unfold require_env, first_unset, bind, gets. simpl.
  by destruct (filter _ names).
Qed.

Lemma validate_env_first_unset (names : list string) (w : world) :
  validate_env names w
  = match first_unset w names with
    | None => (Ok tt, w)
    | Some var =>
        (Raise (Exn ValueError
                  ("Environment variable " ++ var ++ " is not set.")), w)
    end.
Proof.
  unfold validate_env, first_unset.
  induction names as [|n names IH]; [done|].
  cbn [for_each]. unfold bind at 1. unfold bind at 1, gets at 1.
  change (Datatypes.id w) with w. rewrite filter_cons.
  destruct (env_set w n) eqn:Hn.
  - rewrite decide_False by done. unfold ret at 1. exact IH.
  - rewrite decide_True by done. reflexivity.
Qed.

Lemma first_unset_None (w : world) (names : list string) :
  first_unset w names = None ↔ Forall (λ n, env_set w n = true) names.
Proof.
  unfold first_unset. rewrite head_None. split.
  - intros Hf. apply Forall_forall. intros n Hn.
    destruct (env_set w n) eqn:He; [done|].
    assert (n ∈ filter (λ n, env_set w n = false) names) as Hin
      by (by apply list_elem_of_filter).
    rewrite Hf in Hin. by apply not_elem_of_nil in Hin.
  - intros Hall. apply filter_none. eapply Forall_impl; [exact Hall|].
    intros n Hn. simpl. congruence.
Qed.


(** X22. The [validate] methods against the constructors.  The Postgres
    configuration validates exactly where the Postgres provider can be
    constructed, and where they fail both name the same variable, the
    first the environment does not set; the Redis configuration
    validates exactly where the Redis provider can be constructed.  The
    base configuration validates everywhere, also where constructing
    the SQLite provider fails. *)
Theorem validate_against_constructor (c : LoggingConfig) (w : world) :
  let postgres_names :=
    ["POSTGRES_DBNAME"; "POSTGRES_USER"; "POSTGRES_PASSWORD";
     "POSTGRES_HOST"; "POSTGRES_PORT"] in
  (PostgresLoggingConfig.validate w = (Ok tt, w)
   ↔ make_postgres c w = (Ok postgres_provider, w))
  ∧ (∀ var, first_unset w postgres_names = Some var →
       PostgresLoggingConfig.validate w
       = (Raise (Exn ValueError
                   ("Environment variable " ++ var ++ " is not set.")), w)
       ∧ make_postgres c w
         = (Raise (Exn ValueError
                     ("Please set the environment variable " ++ var ++ ".")),
            w))
  ∧ (RedisLoggingConfig.validate w = (Ok tt, w)
     ↔ make_redis c w = (Ok redis_provider, w))
  ∧ LoggingConfig.validate w = (Ok tt, w)
  ∧ (truthy_str (logging_path c) = false →
     assoc_get "LOCAL_DB_PATH" (environ w) = Some EmptyString →
     ∃ msg, make_local c w = (Raise (Exn ValueError msg), w)).
Proof.
  intros postgres_names.
  unfold PostgresLoggingConfig.validate, RedisLoggingConfig.validate,
    make_postgres, make_redis, bind.
  rewrite !validate_env_first_unset, !require_env_first_unset.
  fold postgres_names.
  split; [|split; [|split; [|split]]].
  - by destruct (first_unset w postgres_names).
  - by intros var ->.
  - by destruct (first_unset w _).
  - reflexivity.
  - intros Ht Hempty. unfold make_local, bind, gets. simpl.
    rewrite Ht, Hempty. simpl. eexists. reflexivity.
Qed.

(** ** Configuring the class *)

Lemma configure_each_configured (configs : list (option LoggingConfig))
    (c : option (option LoggingConfig)) (raised : list bool) :
  foldl (λ '(cls, raised) c,
           match configure c cls with
           | inr cls' => (cls', raised ++ [false])
           | inl _ => (cls, raised ++ [true])
           end)
    (mkClass c true, raised) configs
  = (mkClass c true, raised ++ replicate (length configs) true).
Proof.
  revert raised. induction configs as [|c' configs IH]; intros raised.
  - simpl. by rewrite app_nil_r.
  - simpl. rewrite IH. by rewrite <- app_assoc.
Qed.

(** X23. The class is configured once.  Of any run of calls of
    [configure] on the class as it is defined, the first sets the
    configuration and every later one raises; the configuration at the
    end is the argument of the first call. *)
Theorem configure_once (first : option LoggingConfig)
    (later : list (option LoggingConfig)) :
  configure_each (first :: later) unconfigured
  = (mkClass (Some first) true, false :: replicate (length later) true).
Proof. unfold configure_each. simpl. by rewrite configure_each_configured. Qed.

(** ** The analytics pass: what every run of it keeps *)

Section Keeps.
Context {S : Type} (P : S → Prop).

Lemma keeps_ret {A} (a : A) : keeps P (ret a).
Proof. by intros s Hs. Qed.

Lemma keeps_raise {A} (e : exn) : keeps P (raise (A := A) e).
Proof. by intros s Hs. Qed.

Lemma keeps_modify (f : S → S) : (∀ s, P s → P (f s)) → keeps P (modify f).
Proof. intros Hf s Hs. by apply Hf. Qed.

Lemma keeps_bind {A B} (c : M S A) (k : A → M S B) :
  keeps P c → (∀ a, keeps P (k a)) → keeps P (bind c k).
Proof.
  intros Hc Hk s Hs. unfold bind. specialize (Hc s Hs).
  destruct (c s) as [[a|e] s1]; [by apply Hk|done].
Qed.

(** A step that leaves the state alone passes its result on. *)
Lemma keeps_bind_pure {A B} (c : M S A) (o : outcome A) (k : A → M S B) :
  (∀ s, c s = (o, s)) → (∀ a, o = Ok a → keeps P (k a)) → keeps P (bind c k).
Proof.
  intros Hc Hk s Hs. unfold bind. rewrite Hc.
  destruct o as [a|e]; [by apply Hk|done].
Qed.

Lemma keeps_try_except {A} (c : M S A) (h : exn → M S A) :
  keeps P c → (∀ e, keeps P (h e)) → keeps P (try_except c h).
Proof.
  intros Hc Hh s Hs. unfold try_except. specialize (Hc s Hs).
  destruct (c s) as [[a|e] s1]; [done|by apply Hh].
Qed.

Lemma keeps_for_each {A} (xs : list A) (body : A → M S unit) :
  (∀ x, x ∈ xs → keeps P (body x)) → keeps P (for_each xs body).
Proof.
  induction xs as [|x xs IH]; intros Hbody; [apply keeps_ret|].
  simpl. apply keeps_bind; [apply Hbody; by left|].
  intros _. apply IH. intros y Hy. apply Hbody. by right.
Qed.
End Keeps.

Lemma re_findall_pure {S} (v : pyvalue) (st : S) :
  re_findall v st = (fst (re_findall v tt), st).
Proof. by destruct v. Qed.

Lemma py_iter_pure {S} (v : pyvalue) (st : S) :
  py_iter v st = (fst (py_iter v tt), st).
Proof. by destruct v. Qed.

Lemma for_each_skip {S A} (xs ys : list A) (x : A) (body : A → M S unit)
    (st : S) :
  (∀ s, body x s = (Ok tt, s)) →
  for_each (xs ++ x :: ys) body st = for_each (xs ++ ys) body st.
Proof.
  intros Hx. revert st. induction xs as [|y xs IH]; intros st; simpl.
  - unfold bind. by rewrite Hx.
  - unfold bind. destruct (body y st) as [[[]|e] s1]; [apply IH|done].
Qed.

Lemma assoc_find_set {K V} `{EqDecision K} (k k' : K) (v : V)
    (d : list (K * V)) :
  assoc_find k' (assoc_set k v d)
  = if decide (k' = k) then Some v else assoc_find k' d.
Proof.
  induction d as [|[k0 v0] d IH]; simpl.
  - by destruct (decide (k' = k)).
  - destruct (decide (k = k0)) as [->|Hne]; simpl.
    + by destruct (decide (k' = k0)).
    + destruct (decide (k' = k0)) as [->|Hne'].
      * by destruct (decide (k0 = k)).
      * exact IH.
Qed.

Lemma assoc_set_keys {K V} `{EqDecision K} (k : K) (v : V) (d : list (K * V)) :
  map fst (assoc_set k v d)
  = if bool_decide (k ∈ map fst d) then map fst d else map fst d ++ [k].
Proof.
  induction d as [|[k0 v0] d IH]; [done|]. simpl.
  destruct (decide (k = k0)) as [->|Hne]; simpl.
  - rewrite bool_decide_eq_true_2 by left. done.
  - rewrite IH. destruct (bool_decide (k ∈ map fst d)) eqn:Hin.
    + apply bool_decide_eq_true in Hin.
      rewrite bool_decide_eq_true_2 by (by right). done.
    + apply bool_decide_eq_false in Hin.
      rewrite bool_decide_eq_false_2; [done|].
      intros [?|?]%elem_of_cons; done.
Qed.

Lemma assoc_set_elem {K V} `{EqDecision K} (k : K) (v : V) (d : list (K * V))
    (kv : K * V) :
  kv ∈ assoc_set k v d → kv = (k, v) ∨ kv ∈ d.
Proof.
  induction d as [|[k0 v0] d IH]; simpl.
  - intros ->%list_elem_of_singleton. by left.
  - destruct (decide (k = k0)) as [->|Hne].
    + intros [->|Hin]%elem_of_cons; [by left|right; by right].
    + intros [->|Hin]%elem_of_cons; [right; by left|].
      destruct (IH Hin) as [->|Hd]; [by left|right; by right].
Qed.

Lemma assoc_find_elem {K V} `{EqDecision K} (k : K) (v : V) (d : list (K * V)) :
  assoc_find k d = Some v → (k, v) ∈ d.
Proof.
  induction d as [|[k0 v0] d IH]; [done|]. simpl.
  destruct (decide (k = k0)) as [->|Hne].
  - intros [= ->]. by left.
  - intros Hf. right. by apply IH.
Qed.

Lemma assoc_find_NoDup {K V} `{EqDecision K} (k : K) (v : V) (d : list (K * V)) :
  NoDup (map fst d) → (k, v) ∈ d → assoc_find k d = Some v.
Proof.
  induction d as [|[k0 v0] d IH]; simpl.
  - intros _ Hin. by apply not_elem_of_nil in Hin.
  - intros [Hk0 Hnd]%NoDup_cons [[= -> ->]|Hin]%elem_of_cons.
    + by rewrite decide_True.
    + rewrite decide_False; [by apply IH|].
      intros ->. apply Hk0. apply list_elem_of_In, in_map_iff.
      exists (k0, v). split; [done|]. by apply list_elem_of_In.
Qed.

Lemma day_total_set (code : string) (day : date) (codes : list (string * Z))
    (days : list (date * list (string * Z))) :
  day_total code (assoc_set day codes days)
  = (day_total code days
     - default 0 (assoc_find code (default [] (assoc_find day days)))
     + default 0 (assoc_find code codes))%Z.
Proof.
  unfold day_total, sum_Z.
  induction days as [|[d0 c0] days IH]; simpl.
  - lia.
  - destruct (decide (day = d0)) as [->|Hne]; simpl; [lia|].
    rewrite IH. lia.
Qed.

Lemma counts_agree_count (msg code : string) (day : date) (s : analytics_state) :
  last (findall_3digit msg) = Some code →
  counts_agree s → counts_agree (count_error code day s).
Proof.
  intros Hlast (Hsum & Hnd & Hpos).
  assert (three_digits code) as Hcode.
  { assert (code ∈ findall_3digit msg) as Hin.
    { apply last_Some in Hlast as [l' ->]. apply elem_of_app. right. by left. }
    by apply findall_3digit_sound in Hin as (_ & _ & _ & H & _). }
  assert (0 <= default 0 (assoc_find code (error_counts s)))%Z as Hold.
  { destruct (assoc_find code (error_counts s)) as [v|] eqn:Hf; [|done].
    apply assoc_find_elem in Hf. rewrite Forall_forall in Hpos.
    destruct (Hpos _ Hf) as [Hv _]. simpl in *. lia. }
  unfold counts_agree, count_error. cbn [error_counts error_timestamps].
  unfold increment. split; [|split].
  - intros code'. rewrite day_total_set, !assoc_find_set, <- Hsum.
    destruct (decide (code' = code)) as [->|Hne]; simpl; lia.
  - rewrite assoc_set_keys.
    destruct (bool_decide _) eqn:Hin; [done|].
    apply bool_decide_eq_false in Hin. apply NoDup_app. split; [done|].
    split; [|apply NoDup_singleton].
    intros x Hx ->%list_elem_of_singleton. done.
  - apply Forall_forall. intros kv Hkv.
    apply assoc_set_elem in Hkv as [->|Hkv].
    + simpl. split; [lia|done].
    + rewrite Forall_forall in Hpos. by apply Hpos.
Qed.

Section PassFacts.
Context (json_loads : string → outcome pyvalue)
        (float_of_str : string → outcome pyfloat)
        (int_of_str : string → outcome Z)
        (strptime_date : string → outcome date).

Local Abbreviation process_log' :=
  (process_log json_loads float_of_str int_of_str strptime_date).
Local Abbreviation process_logs' :=
  (process_logs json_loads float_of_str int_of_str strptime_date).

Lemma py_float_pure {S} (v : pyvalue) (st : S) :
  py_float float_of_str v st = (fst (py_float float_of_str v tt), st).
Proof. by destruct v. Qed.

Lemma py_int_pure {S} (v : pyvalue) (st : S) :
  py_int int_of_str v st = (fst (py_int int_of_str v tt), st).
Proof. by destruct v. Qed.

Lemma strptime_pure {S} (v : pyvalue) (st : S) :
  strptime strptime_date v st = (fst (strptime strptime_date v tt), st).
Proof. by destruct v. Qed.

(** Whatever a record's fields hold, the pass changes the accumulators
    by updates of the record's key only. *)
Lemma process_log_updates (P : analytics_state → Prop) (log : pyvalue) :
  (∀ key s s', fst (subscript log "key" tt) = Ok key →
               update key s s' → P s → P s') →
  keeps P (process_log' log).
Proof.
  intros Hstep. unfold process_log.
  eapply keeps_bind_pure; [intros; apply subscript_pure|].
  intros key Hkey. specialize (Hstep key).
  assert (∀ s s', update key s s' → P s → P s') as Hup by eauto.
  clear Hstep. apply keeps_bind.
  { destruct (eq_str key "error") eqn:Herr; [|apply keeps_ret].
    unfold error_block.
    eapply keeps_bind_pure; [intros; apply subscript_pure|].
    intros error_message _.
    eapply keeps_bind_pure; [intros; apply re_findall_pure|].
    intros error_codes Hcodes.
    destruct (last error_codes) as [code|] eqn:Hlast; [|apply keeps_ret].
    eapply keeps_bind_pure; [intros; apply subscript_pure|]. intros raw _.
    eapply keeps_bind_pure; [intros; apply strptime_pure|]. intros day _.
    apply keeps_bind; [|intros; apply keeps_ret].
    apply keeps_modify. intros s. apply Hup.
    destruct error_message; try discriminate. simpl in Hcodes.
    injection Hcodes as <-. by eapply update_count. }
  intros [|]; [apply keeps_ret|]. unfold dispatch.
  destruct (eq_str key "search_results") eqn:Hsr.
  { unfold search_results_block.
    eapply keeps_bind_pure; [intros; apply subscript_pure|]. intros results _.
    apply keeps_try_except.
    - eapply keeps_bind_pure; [intros; apply loads_pure|]. intros rl _.
      eapply keeps_bind_pure; [intros; apply py_iter_pure|]. intros items _.
      apply keeps_for_each. intros item _.
      eapply keeps_bind_pure; [intros; apply loads_pure|]. intros result _.
      eapply keeps_bind_pure; [intros; apply subscript_pure|]. intros score _.
      apply keeps_modify. intros s. apply Hup. by apply update_score.
    - intros e. apply keeps_modify. intros s. apply Hup.
      by apply (update_logged key ("Error parsing search results: " ++ exn_msg e)). }
  destruct (eq_str key "search_query") eqn:Hsq.
  { eapply keeps_bind_pure; [intros; apply subscript_pure|]. intros t _.
    apply keeps_modify. intros s. apply Hup. by apply update_query. }
  destruct (eq_str key "vector_search_latency") eqn:Hv.
  { eapply keeps_bind_pure; [intros; apply subscript_pure|]. intros v _.
    eapply keeps_bind_pure; [intros; apply py_float_pure|]. intros f _.
    apply keeps_modify. intros s. apply Hup. by apply update_vector. }
  destruct (eq_str key "rag_generation_latency") eqn:Hr.
  { eapply keeps_bind_pure; [intros; apply subscript_pure|]. intros v _.
    eapply keeps_bind_pure; [intros; apply py_float_pure|]. intros f _.
    apply keeps_modify. intros s. apply Hup. by apply update_rag. }
  destruct (eq_str key "throughput") eqn:Ht; [|apply keeps_ret].
  unfold throughput_block.
  eapply keeps_bind_pure; [intros; apply subscript_pure|]. intros ts _.
  eapply keeps_bind_pure; [intros; apply subscript_pure|]. intros v _.
  eapply keeps_bind_pure; [intros; apply subscript_pure|]. intros raw _.
  eapply keeps_bind_pure; [intros; apply py_int_pure|]. intros n _.
  eapply keeps_bind_pure; [intros; apply subscript_pure|]. intros v' _.
  eapply keeps_bind_pure; [intros; apply subscript_pure|]. intros rt _.
  apply keeps_modify. intros s. apply Hup. by apply update_throughput.
Qed.

Lemma counts_agree_update (key : pyvalue) (s s' : analytics_state) :
  update key s s' → counts_agree s → counts_agree s'.
Proof.
  intros Hup. destruct Hup; try done. by eapply counts_agree_count.
Qed.

End PassFacts.


Section RecordFacts.
Context (json_loads : string → outcome pyvalue)
        (float_of_str : string → outcome pyfloat)
        (int_of_str : string → outcome Z)
        (strptime_date : string → outcome date).

Local Abbreviation process_log' :=
  (process_log json_loads float_of_str int_of_str strptime_date).
Local Abbreviation process_logs' :=
  (process_logs json_loads float_of_str int_of_str strptime_date).

(** X25. A record changes the accumulators of its own key only, and
    only by appending.  Whatever its fields hold and whether it is
    processed normally or raises: the error counters change under the
    key ["error"] only; the retrieval scores and the logger lines under
    ["search_results"] only; the query timestamps, the two latency
    lists and the throughput list each under their own key only; and
    every list accumulator and the logger keep what they held, in
    place. *)
Theorem process_log_changes_own_accumulator (d : pydict) (key : pyvalue)
    (s : analytics_state) :
  assoc_get "key" d = Some key →
  let s' := snd (process_log' (PDict d) s) in
  (eq_str key "error" = false →
   error_counts s' = error_counts s
   ∧ error_timestamps s' = error_timestamps s)
  ∧ (eq_str key "search_results" = false →
     retrieval_scores s' = retrieval_scores s ∧ logged s' = logged s)
  ∧ (eq_str key "search_query" = false →
     query_timestamps s' = query_timestamps s)
  ∧ (eq_str key "vector_search_latency" = false →
     vector_search_latencies s' = vector_search_latencies s)
  ∧ (eq_str key "rag_generation_latency" = false →
     rag_generation_latencies s' = rag_generation_latencies s)
  ∧ (eq_str key "throughput" = false →
     throughput_data s' = throughput_data s)
  ∧ retrieval_scores s `prefix_of` retrieval_scores s'
  ∧ query_timestamps s `prefix_of` query_timestamps s'
  ∧ vector_search_latencies s `prefix_of` vector_search_latencies s'
  ∧ rag_generation_latencies s `prefix_of` rag_generation_latencies s'
  ∧ throughput_data s `prefix_of` throughput_data s'
  ∧ logged s `prefix_of` logged s'.
Proof.
  intros Hkey s'. unfold s'.
  apply (process_log_updates json_loads float_of_str int_of_str strptime_date
           (λ s', (eq_str key "error" = false →
                   error_counts s' = error_counts s
                   ∧ error_timestamps s' = error_timestamps s)
                  ∧ (eq_str key "search_results" = false →
                     retrieval_scores s' = retrieval_scores s
                     ∧ logged s' = logged s)
                  ∧ (eq_str key "search_query" = false →
                     query_timestamps s' = query_timestamps s)
                  ∧ (eq_str key "vector_search_latency" = false →
                     vector_search_latencies s' = vector_search_latencies s)
                  ∧ (eq_str key "rag_generation_latency" = false →
                     rag_generation_latencies s' = rag_generation_latencies s)
                  ∧ (eq_str key "throughput" = false →
                     throughput_data s' = throughput_data s)
                  ∧ retrieval_scores s `prefix_of` retrieval_scores s'
                  ∧ query_timestamps s `prefix_of` query_timestamps s'
                  ∧ vector_search_latencies s
                    `prefix_of` vector_search_latencies s'
                  ∧ rag_generation_latencies s
                    `prefix_of` rag_generation_latencies s'
                  ∧ throughput_data s `prefix_of` throughput_data s'
                  ∧ logged s `prefix_of` logged s')); [|done].
  intros key' s1 s2 Hk Hup (He & Hs & Hq & Hv & Hr & Ht & Ps & Pq & Pv & Pr
                               & Pt & Pl).
  simpl in Hk. rewrite Hkey in Hk. injection Hk as <-.
  destruct Hup as [msg code day s1 Hkk _|score s1 Hkk|line s1 Hkk|t s1 Hkk
                   |f s1 Hkk|f s1 Hkk|x s1 Hkk];
    destruct key as [| | | |k| | | |]; try discriminate Hkk;
    simpl in Hkk; apply String.eqb_eq in Hkk; subst k; simpl in *;
    repeat split; intros; try discriminate; auto;
    try (by apply He); try (by apply Hs); try (by apply Hq);
    try (by apply Hv); try (by apply Hr); try (by apply Ht);
    try (etrans; [eassumption|]; by apply prefix_app_r).
Qed.

Lemma process_log_unknown_key (d : pydict) (key : pyvalue)
    (s : analytics_state) :
  assoc_get "key" d = Some key →
  (∀ k, k ∈ known_keys → eq_str key k = false) →
  process_log' (PDict d) s = (Ok tt, s).
Proof.
  intros Hkey Hunknown. unfold process_log, bind.
  rewrite (subscript_dict _ _ _ _ Hkey).
  rewrite (Hunknown "error") by (unfold known_keys; set_solver).
  unfold ret at 1. unfold dispatch.
  rewrite (Hunknown "search_results") by (unfold known_keys; set_solver).
  rewrite (Hunknown "search_query") by (unfold known_keys; set_solver).
  rewrite (Hunknown "vector_search_latency") by (unfold known_keys; set_solver).
  rewrite (Hunknown "rag_generation_latency") by (unfold known_keys; set_solver).
  rewrite (Hunknown "throughput") by (unfold known_keys; set_solver).
  reflexivity.
Qed.

(** X26. Records with other keys do not count.  A record whose key is
    none of the six the pass acts on (any other text, or a value that
    is not text) can be put anywhere among the records, whatever else
    it holds, without changing what [process_logs] returns or raises or
    what it writes to the logger. *)
Theorem process_logs_ignores_other_keys (d : pydict) (key : pyvalue)
    (before after : list pyvalue) (sink : list string) :
  assoc_get "key" d = Some key →
  (∀ k, k ∈ known_keys → eq_str key k = false) →
  process_logs' (before ++ PDict d :: after) sink
  = process_logs' (before ++ after) sink.
Proof.
  intros Hkey Hunknown. unfold process_logs.
  rewrite (for_each_skip before after (PDict d)); [done|].
  intros s. by apply (process_log_unknown_key d key).
Qed.

End RecordFacts.

Lemma process_log_changes_own_accumulator_witness :
  query_timestamps
    (snd (process_log Reference.json_loads Reference.float_of_str
            Reference.int_of_str Reference.strptime_date
            (log_record "vector_search_latency" "fast" "2024-05-01 10:00:01")
            (append_query_timestamp (PStr "2024-05-01 10:00:00")
               (initial_analytics []))))
  = [PStr "2024-05-01 10:00:00"].
Proof.
  destruct (process_log_changes_own_accumulator Reference.json_loads
              Reference.float_of_str Reference.int_of_str
              Reference.strptime_date
              [("key", PStr "vector_search_latency"); ("value", PStr "fast");
               ("timestamp", PStr "2024-05-01 10:00:01")]
              (PStr "vector_search_latency")
              (append_query_timestamp (PStr "2024-05-01 10:00:00")
                 (initial_analytics [])) eq_refl)
    as (_ & _ & Hq & _).
  exact (Hq eq_refl).
Defined.

Lemma process_logs_ignores_other_keys_witness :
  Reference.process_logs
    [error_503 "2024-05-01 09:15:00";
     PDict [("key", PStr "note"); ("value", PInt 3)];
     log_record "search_query" "what" "2024-05-01 10:00:00"] []
  = Reference.process_logs
      [error_503 "2024-05-01 09:15:00";
       log_record "search_query" "what" "2024-05-01 10:00:00"] [].
Proof.
  apply (process_logs_ignores_other_keys Reference.json_loads
           Reference.float_of_str Reference.int_of_str Reference.strptime_date
           [("key", PStr "note"); ("value", PInt 3)] (PStr "note")
           [error_503 "2024-05-01 09:15:00"]
           [log_record "search_query" "what" "2024-05-01 10:00:00"] []).
  - reflexivity.
  - intros k Hk. unfold known_keys in Hk.
    repeat (apply elem_of_cons in Hk as [->|Hk]; [reflexivity|]).
    by apply not_elem_of_nil in Hk.
Defined.


(** ** The Redis lists under a clock that does not go back *)



(** ** The same writes on the three stores *)

(** X29. When the same ordinary writes, made at strictly increasing
    times, went to a SQL store and to the Redis store, the three
    providers answer a [get_logs] for distinct run ids and a limit of
    at least one with the same records for each requested run, in the
    same order. *)
Theorem backends_return_same_records
    (writes : list (instant * uuid * string * string)) (run_ids : list uuid)
    (n : Z) :
  StronglySorted (λ v w, (write_time v < write_time w)%Z) writes →
  (1 <= n)%Z → NoDup run_ids → run_ids ≠ [] →
  ∃ rows entries,
    LocalKVLoggingProvider.get_logs run_ids n (replay_local writes)
    = (Ok rows, replay_local writes)
    ∧ PostgresKVLoggingProvider.get_logs run_ids n (replay_local writes)
      = (Ok rows, replay_local writes)
    ∧ RedisKVLoggingProvider.get_logs run_ids n (replay_redis writes)
      = (Ok entries, replay_redis writes)
    ∧ ∀ r, r ∈ run_ids →
           returned_rows r rows = map entry_row (returned_entries r entries).
Proof.
  intros Hasc Hn Hnd Hne.
  exists (LocalKVLoggingProvider.get_logs_query run_ids n
            (log_table (replay_local writes))),
         (flat_map
            (λ run_id,
               RedisKVLoggingProvider.lrange (replay_redis writes) run_id 0
                 (n - 1)) run_ids).
  split; [by apply local_get_logs_ok|]. split; [by apply postgres_get_logs_ok|].
  split; [reflexivity|]. intros r Hr. by apply get_logs_same_records.
Qed.

Lemma backends_return_same_records_witness :
  ∃ rows entries,
    LocalKVLoggingProvider.get_logs [7%N; 8%N] 2%Z sample_tables
    = (Ok rows, sample_tables)
    ∧ RedisKVLoggingProvider.get_logs [7%N; 8%N] 2%Z sample_redis
      = (Ok entries, sample_redis)
    ∧ returned_rows 7%N rows = map entry_row (returned_entries 7%N entries).
Proof.
  destruct (backends_return_same_records sample_writes [7%N; 8%N] 2%Z)
    as (rows & entries & Hlocal & _ & Hredis & Hsame).
  - unfold sample_writes. repeat constructor.
  - lia.
  - apply (bool_decide_unpack (NoDup [7%N; 8%N])). reflexivity.
  - discriminate.
  - exists rows, entries. split; [exact Hlocal|]. split; [exact Hredis|].
    apply Hsame. apply (bool_decide_unpack (7%N ∈ [7%N; 8%N])). reflexivity.
Defined.
